(** * Circuit breaker, rate limiter and TTL cache of the api-practice scripts

    A shallow embedding of the three stateful helpers that the practice
    scripts build around their HTTP calls:

    - [CircuitBreaker] and [CircuitBreakerWithFallback]
      (src/myOwnCodes/circuit-breaker-pattern.js) and the shorter
      [CircuitBreaker] of src/advanced-patterns.js;
    - [RateLimiter] (src/myOwnCodes/mock-server.js, with the 429 retry
      branch, and src/mock-server.js, without it);
    - [APICache] (identical in both mock-server.js files).

    JavaScript objects are records, mutation is explicit state passing,
    [Date.now()] is a reading of the world the code runs in, and an awaited
    callback is a function that transforms that world and completes with a
    value or a thrown error.  The numbers the code counts and compares
    (counters, thresholds, millisecond timestamps, HTTP statuses) are
    integers; the two numbers of a limiter and their quotient
    [timeWindow / maxRequests] are IEEE 754 doubles, as every JavaScript
    number is.  What is thrown is an [Error] object; the promise a
    limiter awaits may also be rejected with [null] or [undefined].  The
    [execute] calls on one breaker come one after the other; the limiter,
    whose work is interleaved by the event loop, is modelled with that
    loop. *)

From Stdlib Require Import PrimFloat FloatAxioms.
From Stdlib Require Import ZArith Lia.
From stdpp Require Import base option list gmap strings.
From stdpp Require Import pretty.
From Stdlib Require Import Ascii.

Open Scope Z_scope.

(** ** JavaScript values shared by the three components *)

Module JS.

(** [error.response] of an axios error: only [status] is ever read. *)
Record Response := { status : Z }.

(** A thrown [Error]: its message and the optional [response] field. *)
Record Error := { message : string; response : option Response }.

(** [new Error(msg)]: no [response] field. *)
Definition new_Error (msg : string) : Error :=
  {| message := msg; response := None |}.

(** How an awaited call settles. *)
Inductive Completion (V : Type) : Type :=
| Return (v : V)
| Throw (e : Error).
Arguments Return {V} v.
Arguments Throw {V} e.

End JS.
Import JS.

(** The three values of [this.state]. *)
Inductive State := CLOSED | OPEN | HALF_OPEN.

#[global] Instance State_eq_dec : EqDecision State.
Proof. solve_decision. Defined.

(** ** The world an [execute] call runs in

    [now w] is what [Date.now()] returns in world [w].  The protected
    operation [fn] is a zero-argument async function: awaiting it yields
    a completion and the world as it is when the await resumes. *)

Definition Operation (World V : Type) : Type := World -> Completion V * World.

(** What one [execute] call leaves behind: how the returned promise
    settles, the breaker object, and the world. *)
Record Outcome (World V B : Type) := mkOutcome {
  settled : Completion V;
  breaker : B;
  world : World
}.
Arguments mkOutcome {World V B}.
Arguments settled {World V B}.
Arguments breaker {World V B}.
Arguments world {World V B}.

(** A call site: the world in which [execute] is entered and the operation
    handed to it.  Nothing relates the entry world of one call to the world
    the previous call ended in: any amount of time may pass in between. *)
Definition Call (World V : Type) : Type := World * Operation World V.

Definition is_failure {World V} (c : Call World V) : bool :=
  match (c.2 c.1).1 with Throw _ => true | Return _ => false end.

(** ** src/myOwnCodes/circuit-breaker-pattern.js *)

Module CircuitBreakerPattern.

Record CircuitBreaker := {
  threshold : Z;
  timeout : Z;
  failureCount : Z;
  successCount : Z;
  state : State;
  nextAttempt : Z;
  name : string
}.

Definition set_state (s : State) (cb : CircuitBreaker) : CircuitBreaker :=
  {| threshold := threshold cb; timeout := timeout cb;
     failureCount := failureCount cb; successCount := successCount cb;
     state := s; nextAttempt := nextAttempt cb; name := name cb |}.

Definition set_failureCount (n : Z) (cb : CircuitBreaker) : CircuitBreaker :=
  {| threshold := threshold cb; timeout := timeout cb;
     failureCount := n; successCount := successCount cb;
     state := state cb; nextAttempt := nextAttempt cb; name := name cb |}.

Definition set_successCount (n : Z) (cb : CircuitBreaker) : CircuitBreaker :=
  {| threshold := threshold cb; timeout := timeout cb;
     failureCount := failureCount cb; successCount := n;
     state := state cb; nextAttempt := nextAttempt cb; name := name cb |}.

Definition set_nextAttempt (t : Z) (cb : CircuitBreaker) : CircuitBreaker :=
  {| threshold := threshold cb; timeout := timeout cb;
     failureCount := failureCount cb; successCount := successCount cb;
     state := state cb; nextAttempt := t; name := name cb |}.

Definition circuit_open_error : Error :=
  new_Error "Circuit breaker is OPEN. Service unavailable.".

(** [this.failureCount = 0; this.successCount++;] then the HALF_OPEN test. *)
Definition onSuccess (cb : CircuitBreaker) : CircuitBreaker :=
  let cb := set_failureCount 0 cb in
  let cb := set_successCount (successCount cb + 1) cb in
  match state cb with
  | HALF_OPEN => set_state CLOSED cb
  | _ => cb
  end.

Section WithClock.

Context {World V : Type}.
Variable now : World -> Z.

(** [constructor(threshold = 5, timeout = 60000, name = "CircuitBreaker")] *)
Definition new_CircuitBreaker (threshold timeout : Z) (name : string)
    (w : World) : CircuitBreaker :=
  {| threshold := threshold; timeout := timeout;
     failureCount := 0; successCount := 0;
     state := CLOSED; nextAttempt := now w; name := name |}.

(** [this.failureCount++;] then HALF_OPEN reopens at once, any other
    state opens when the count has reached the threshold. *)
Definition onFailure (cb : CircuitBreaker) (w : World) : CircuitBreaker :=
  let cb := set_failureCount (failureCount cb + 1) cb in
  match state cb with
  | HALF_OPEN => set_nextAttempt (now w + timeout cb) (set_state OPEN cb)
  | _ =>
      if failureCount cb >=? threshold cb
      then set_nextAttempt (now w + timeout cb) (set_state OPEN cb)
      else cb
  end.

(** The [try { await fn() ... } catch ...] of [execute]: one call of
    [fn], then the bookkeeping; [onFailure] reads the clock after the
    await, and the caught error is thrown again. *)
Definition try_fn (cb : CircuitBreaker) (fn : Operation World V) (w : World)
  : Outcome World V CircuitBreaker :=
  match fn w with
  | (Return result, w') => mkOutcome (Return result) (onSuccess cb) w'
  | (Throw error, w') => mkOutcome (Throw error) (onFailure cb w') w'
  end.

Definition execute (cb : CircuitBreaker) (fn : Operation World V) (w : World)
  : Outcome World V CircuitBreaker :=
  match state cb with
  | OPEN =>
      if now w <? nextAttempt cb
      then mkOutcome (Throw circuit_open_error) cb w
      else try_fn (set_state HALF_OPEN cb) fn w
  | _ => try_fn cb fn w
  end.

(** A caller making one [execute] call after the other on the same
    breaker, as the test functions of the file do. *)
Definition execute_calls (cb : CircuitBreaker) (calls : list (Call World V))
  : CircuitBreaker :=
  fold_left (fun cb c => breaker (execute cb c.2 c.1)) calls cb.

(** *** [class CircuitBreakerWithFallback extends CircuitBreaker] *)

Record CircuitBreakerWithFallback := {
  super : CircuitBreaker;
  fallbackFn : option (Operation World V)
}.

Definition new_CircuitBreakerWithFallback (threshold timeout : Z)
    (fallbackFn : option (Operation World V)) (name : string) (w : World)
  : CircuitBreakerWithFallback :=
  {| super := new_CircuitBreaker threshold timeout name w;
     fallbackFn := fallbackFn |}.

(** [try { return await super.execute(fn) } catch (error) { ... }]:
    the test [this.state === "OPEN" && this.fallbackFn] is made on the
    breaker as [super.execute] left it. *)
Definition CircuitBreakerWithFallback_execute
    (this : CircuitBreakerWithFallback) (fn : Operation World V) (w : World)
  : Outcome World V CircuitBreakerWithFallback :=
  let o := execute (super this) fn w in
  let this' := {| super := breaker o; fallbackFn := fallbackFn this |} in
  match settled o with
  | Return result => mkOutcome (Return result) this' (world o)
  | Throw error =>
      match state (breaker o), fallbackFn this with
      | OPEN, Some fallback =>
          let '(r, w') := fallback (world o) in mkOutcome r this' w'
      | _, _ => mkOutcome (Throw error) this' (world o)
      end
  end.

End WithClock.

Definition reset (cb : CircuitBreaker) : CircuitBreaker :=
  set_state CLOSED (set_successCount 0 (set_failureCount 0 cb)).

(** What a caller can do with a breaker over its lifetime. *)
Inductive Action (World V : Type) :=
| Execute (c : Call World V)
| Reset.
Arguments Execute {World V} c.
Arguments Reset {World V}.

Definition perform {World V} (now : World -> Z) (cb : CircuitBreaker)
    (a : Action World V) : CircuitBreaker :=
  match a with
  | Execute c => breaker (execute now cb c.2 c.1)
  | Reset => reset cb
  end.

(** The same, with a count kept beside the breaker: one more for each
    [execute] call whose promise is fulfilled, back to 0 at a [reset]. *)
Definition tally {World V} (now : World -> Z) (st : CircuitBreaker * Z)
    (a : Action World V) : CircuitBreaker * Z :=
  match a with
  | Execute c =>
      let o := execute now st.1 c.2 c.1 in
      (breaker o,
       match settled o with Return _ => st.2 + 1 | Throw _ => st.2 end)
  | Reset => (reset st.1, 0)
  end.

End CircuitBreakerPattern.

(** ** src/advanced-patterns.js *)

Module AdvancedPatterns.

Record CircuitBreaker := {
  failureCount : Z;
  threshold : Z;
  timeout : Z;
  state : State;
  nextAttempt : Z
}.

Definition circuit_open_error : Error := new_Error "Circuit breaker is OPEN".

Definition set_state (s : State) (cb : CircuitBreaker) : CircuitBreaker :=
  {| failureCount := failureCount cb; threshold := threshold cb;
     timeout := timeout cb; state := s; nextAttempt := nextAttempt cb |}.

Definition set_failureCount (n : Z) (cb : CircuitBreaker) : CircuitBreaker :=
  {| failureCount := n; threshold := threshold cb;
     timeout := timeout cb; state := state cb; nextAttempt := nextAttempt cb |}.

Definition set_nextAttempt (t : Z) (cb : CircuitBreaker) : CircuitBreaker :=
  {| failureCount := failureCount cb; threshold := threshold cb;
     timeout := timeout cb; state := state cb; nextAttempt := t |}.

Definition onSuccess (cb : CircuitBreaker) : CircuitBreaker :=
  set_state CLOSED (set_failureCount 0 cb).

Section WithClock.

Context {World V : Type}.
Variable now : World -> Z.

(** [constructor(threshold = 5, timeout = 60000)] *)
Definition new_CircuitBreaker (threshold timeout : Z) (w : World)
  : CircuitBreaker :=
  {| failureCount := 0; threshold := threshold; timeout := timeout;
     state := CLOSED; nextAttempt := now w |}.

(** No HALF_OPEN case here: only the count decides. *)
Definition onFailure (cb : CircuitBreaker) (w : World) : CircuitBreaker :=
  let cb := set_failureCount (failureCount cb + 1) cb in
  if failureCount cb >=? threshold cb
  then set_nextAttempt (now w + timeout cb) (set_state OPEN cb)
  else cb.

Definition try_fn (cb : CircuitBreaker) (fn : Operation World V) (w : World)
  : Outcome World V CircuitBreaker :=
  match fn w with
  | (Return result, w') => mkOutcome (Return result) (onSuccess cb) w'
  | (Throw error, w') => mkOutcome (Throw error) (onFailure cb w') w'
  end.

Definition execute (cb : CircuitBreaker) (fn : Operation World V) (w : World)
  : Outcome World V CircuitBreaker :=
  match state cb with
  | OPEN =>
      if now w <? nextAttempt cb
      then mkOutcome (Throw circuit_open_error) cb w
      else try_fn (set_state HALF_OPEN cb) fn w
  | _ => try_fn cb fn w
  end.

Definition execute_calls (cb : CircuitBreaker) (calls : list (Call World V))
  : CircuitBreaker :=
  fold_left (fun cb c => breaker (execute cb c.2 c.1)) calls cb.

(** The breakers the class can produce: the constructor's, and what
    [execute] turns one of them into.  The class has no other method
    that writes a field. *)
Inductive reachable : CircuitBreaker -> Prop :=
| reachable_new threshold timeout w :
    reachable (new_CircuitBreaker threshold timeout w)
| reachable_execute cb fn w :
    reachable cb -> reachable (breaker (execute cb fn w)).

End WithClock.

End AdvancedPatterns.

(** ** The stubs of the test functions

    The tests drive the breakers with [simulateFailingAPI(shouldFail)], and
    the demo counts the calls its stub receives.  The world of these
    stubs is a clock and that call counter; a call takes [elapsed]
    milliseconds. *)

Module Stub.

Record World := { clock : Z; callCount : nat }.

Definition tick (elapsed : Z) (w : World) : World :=
  {| clock := clock w + elapsed; callCount := S (callCount w) |}.

Definition simulateFailingAPI (shouldFail : bool) (elapsed : Z)
  : Operation World string :=
  fun w =>
    if shouldFail
    then (Throw (new_Error "API Error: Service unavailable"), tick elapsed w)
    else (Return "API response"%string, tick elapsed w).

Definition fallbackFn : Operation World string :=
  fun w => (Return "150.00 (cached)"%string, w).

Definition at_time (t : Z) : World := {| clock := t; callCount := 0 |}.

End Stub.

(** ** The scenario of the tests

    A breaker with threshold 3 and timeout 5000 ms, three failing calls
    at 0, 100 and 200 ms of 10 ms each, and what they leave behind. *)

Module Scenario.

Import Stub.

Definition failing (t : Z) : Call World string :=
  (at_time t, simulateFailingAPI true 10).

Definition working (t : Z) : Call World string :=
  (at_time t, simulateFailingAPI false 10).

Definition three_failures : list (Call World string) :=
  [failing 0; failing 100; failing 200].

Definition fresh : CircuitBreakerPattern.CircuitBreaker :=
  CircuitBreakerPattern.new_CircuitBreaker clock 3 5000 "Test-Breaker" (at_time 0).

Definition tripped : CircuitBreakerPattern.CircuitBreaker :=
  CircuitBreakerPattern.execute_calls clock fresh three_failures.

Definition fresh_short : AdvancedPatterns.CircuitBreaker :=
  AdvancedPatterns.new_CircuitBreaker clock 3 5000 (at_time 0).

Definition tripped_short : AdvancedPatterns.CircuitBreaker :=
  AdvancedPatterns.execute_calls clock fresh_short three_failures.

(** [new CircuitBreakerWithFallback(2, 8000, fallbackFn, "Advanced-Breaker")]
    after one failure. *)
Definition advancedBreaker
  : CircuitBreakerPattern.CircuitBreakerWithFallback (World := World) (V := string) :=
  breaker
    (CircuitBreakerPattern.CircuitBreakerWithFallback_execute clock
       (CircuitBreakerPattern.new_CircuitBreakerWithFallback clock 2 8000
          (Some fallbackFn) "Advanced-Breaker" (at_time 0))
       (simulateFailingAPI true 10) (at_time 0)).

End Scenario.

(** ** The event loop around a [RateLimiter]

    [processQueue] is an async function: it runs up to [await requestFn()],
    is suspended there, and runs its remaining statements when the awaited
    promise settles; the callback handed to [setTimeout] runs when the
    timer fires.  The loop state keeps the limiter object, the suspended
    [processQueue] activations, the pending timers, and a history of what
    the limiter did to the outside: calls of [requestFn], calls of
    [resolve] and [reject], timers set and timers fired.

    [maxRequests] and [timeWindow] are whatever numbers the constructor
    is given, and the delay handed to [setTimeout] is their quotient as
    JavaScript computes it: [Infinity] or [NaN] when [maxRequests] is 0,
    the nearest double when the quotient is not one. *)

Module EventLoop.

(** A queue entry [{ requestFn, resolve, reject }] ([{ fn, resolve,
    reject }] in src/mock-server.js): the operation, and the promise
    whose [resolve] and [reject] the entry carries. *)
Record Item := { requestFn : nat; handle : nat }.

Record RateLimiter := {
  maxRequests : float;
  timeWindow : float;
  queue : list Item;
  processing : bool
}.

(** [constructor(maxRequests, timeWindow)] *)
Definition new_RateLimiter (maxRequests timeWindow : float) : RateLimiter :=
  {| maxRequests := maxRequests; timeWindow := timeWindow;
     queue := []; processing := false |}.

Definition set_queue (q : list Item) (rl : RateLimiter) : RateLimiter :=
  {| maxRequests := maxRequests rl; timeWindow := timeWindow rl;
     queue := q; processing := processing rl |}.

Definition set_processing (b : bool) (rl : RateLimiter) : RateLimiter :=
  {| maxRequests := maxRequests rl; timeWindow := timeWindow rl;
     queue := queue rl; processing := b |}.

(** [this.timeWindow / this.maxRequests]: JavaScript's [/] on numbers,
    the division of doubles. *)
Definition pacing (rl : RateLimiter) : float :=
  PrimFloat.div (timeWindow rl) (maxRequests rl).

(** [null] and [undefined].  An awaited promise can be rejected with one
    of them (and an operation can throw one); they are no objects, and
    reading a property of them throws a [TypeError]. *)
Inductive Nullish := Null | Undefined.

Inductive Entry (V : Type) :=
| Called (f : nat)
| Resolved (p : nat) (v : V)
| Rejected (p : nat) (e : Error)
| RejectedNullish (p : nat) (n : Nullish)
| TimerSet (ms : float)
| TimerFired (ms : float).
Arguments Called {V} f.
Arguments Resolved {V} p v.
Arguments Rejected {V} p e.
Arguments RejectedNullish {V} p n.
Arguments TimerSet {V} ms.
Arguments TimerFired {V} ms.

Record Loop (V : Type) := {
  this : RateLimiter;
  awaiting : list Item;
  timers : list float;
  history : list (Entry V)
}.
Arguments this {V}.
Arguments awaiting {V}.
Arguments timers {V}.
Arguments history {V}.

Definition start {V} (rl : RateLimiter) : Loop V :=
  {| this := rl; awaiting := []; timers := []; history := [] |}.

Section Loop.

Context {V : Type}.

Definition set_this (rl : RateLimiter) (s : Loop V) : Loop V :=
  {| this := rl; awaiting := awaiting s; timers := timers s;
     history := history s |}.

Definition set_awaiting (a : list Item) (s : Loop V) : Loop V :=
  {| this := this s; awaiting := a; timers := timers s;
     history := history s |}.

Definition set_timers (t : list float) (s : Loop V) : Loop V :=
  {| this := this s; awaiting := awaiting s; timers := t;
     history := history s |}.

Definition record (e : Entry V) (s : Loop V) : Loop V :=
  {| this := this s; awaiting := awaiting s; timers := timers s;
     history := history s ++ [e] |}.

(** [setTimeout(callback, ms)] *)
Definition setTimeout (ms : float) (s : Loop V) : Loop V :=
  record (TimerSet ms) (set_timers (timers s ++ [ms]) s).

(** [this.queue.push(item)] and [this.queue.unshift(item)] *)
Definition push (item : Item) (s : Loop V) : Loop V :=
  set_this (set_queue (queue (this s) ++ [item]) (this s)) s.

Definition unshift (item : Item) (s : Loop V) : Loop V :=
  set_this (set_queue (item :: queue (this s)) (this s)) s.

(** [processQueue] up to its [await]: the guard, the flag, [shift], and
    the call of the entry's operation. *)
Definition processQueue (s : Loop V) : Loop V :=
  if processing (this s) || (length (queue (this s)) =? 0)%nat then s
  else
    match queue (this s) with
    | [] => s
    | item :: rest =>
        let rl := set_queue rest (set_processing true (this s)) in
        record (Called (requestFn item))
          (set_awaiting (awaiting s ++ [item]) (set_this rl s))
    end.

(** The callback both files hand to [setTimeout]. *)
Definition timer_callback (s : Loop V) : Loop V :=
  processQueue (set_this (set_processing false (this s)) s).

(** What the outside can make happen: a call of [enqueue] / [execute],
    the promise awaited by the [i]-th suspended activation settling
    (with a value or an [Error] object, or rejected with [null] or
    [undefined]), the [j]-th pending timer firing. *)
Inductive Event :=
| Enqueue (item : Item)
| Settle (i : nat) (c : Completion V)
| SettleNullish (i : nat) (n : Nullish)
| Fire (j : nat).

(** One event, given what the rest of [processQueue] does after its
    await: [resume] when the awaited promise gave a value or an [Error]
    object, [resume_nullish] when it was rejected with [null] or
    [undefined].  An event naming an activation or timer that does not
    exist cannot happen. *)
Definition step (resume : Item -> Completion V -> Loop V -> Loop V)
    (resume_nullish : Item -> Nullish -> Loop V -> Loop V)
    (s : Loop V) (ev : Event) : option (Loop V) :=
  match ev with
  | Enqueue item => Some (processQueue (push item s))
  | Settle i c =>
      match awaiting s !! i with
      | Some item => Some (resume item c (set_awaiting (delete i (awaiting s)) s))
      | None => None
      end
  | SettleNullish i n =>
      match awaiting s !! i with
      | Some item =>
          Some (resume_nullish item n (set_awaiting (delete i (awaiting s)) s))
      | None => None
      end
  | Fire j =>
      match timers s !! j with
      | Some ms =>
          Some (timer_callback
                  (record (TimerFired ms) (set_timers (delete j (timers s)) s)))
      | None => None
      end
  end.

Fixpoint run (resume : Item -> Completion V -> Loop V -> Loop V)
    (resume_nullish : Item -> Nullish -> Loop V -> Loop V)
    (s : Loop V) (evs : list Event) : option (Loop V) :=
  match evs with
  | [] => Some s
  | ev :: evs =>
      match step resume resume_nullish s ev with
      | Some s' => run resume resume_nullish s' evs
      | None => None
      end
  end.

(** *** What a history shows *)




(** The dispatch discipline, read off a history: a call starts only
    when no call is in flight and no pause is running; its promise is
    settled while it is in flight; then a timer of exactly [d]
    milliseconds is set, and it fires before the next call starts. *)
Inductive Phase := Idle | InFlight | Pausing.




(** The phase a loop state is in.  A state with several suspended
    activations or several timers has none. *)
Definition phase_of (s : Loop V) : option Phase :=
  match awaiting s, timers s with
  | [], [] => if processing (this s) then None else Some Idle
  | [_], [] => if processing (this s) then Some InFlight else None
  | [], [_] => if processing (this s) then Some Pausing else None
  | _, _ => None
  end.

(** A limiter that dispatches nothing any more: the flag is set, and
    there is no activation and no timer left that would clear it. *)
Definition stuck (s : Loop V) : Prop :=
  awaiting s = [] /\ timers s = [] /\ processing (this s) = true.


End Loop.

Arguments Enqueue {V} item.
Arguments Settle {V} i c.
Arguments SettleNullish {V} i n.
Arguments Fire {V} j.

End EventLoop.
Import EventLoop.

(** ** [RateLimiter] of src/mock-server.js *)

Module MockServer.

Section RateLimiter.

Context {V : Type}.

(** [processQueue] after [await fn()]: settle the caller's promise,
    then set the timer that clears the flag and runs the queue again. *)
Definition processQueue_resume (item : Item) (c : Completion V)
    (s : Loop V) : Loop V :=
  let s :=
    match c with
    | Return result => record (Resolved (handle item) result) s
    | Throw error => record (Rejected (handle item) error) s
    end in
  let waitTime := pacing (this s) in
  setTimeout waitTime s.

(** The same after [await fn()] has thrown [null] or [undefined]:
    [reject(error)] passes it on. *)
Definition processQueue_nullish (item : Item) (n : Nullish) (s : Loop V)
  : Loop V :=
  let s := record (RejectedNullish (handle item) n) s in
  let waitTime := pacing (this s) in
  setTimeout waitTime s.

(** [execute(fn)] is [Enqueue]: push, then [processQueue]. *)
Definition step := EventLoop.step processQueue_resume processQueue_nullish.
Definition run := EventLoop.run processQueue_resume processQueue_nullish.

End RateLimiter.

End MockServer.

(** ** [RateLimiter] of src/myOwnCodes/mock-server.js *)

Module MyOwnCodes.

(** [error.response?.status === 429] *)
Definition is_rate_limit (error : Error) : bool :=
  match response error with
  | Some r => status r =? 429
  | None => false
  end.

Section RateLimiter.

Context {V : Type}.

(** [waitAndRetry(waitTime)] sets the timer. *)
Definition waitAndRetry (waitTime : float) (s : Loop V) : Loop V :=
  setTimeout waitTime s.

(** [processQueue] after [await requestFn()]. *)
Definition processQueue_resume (item : Item) (c : Completion V)
    (s : Loop V) : Loop V :=
  match c with
  | Return result =>
      let s := record (Resolved (handle item) result) s in
      waitAndRetry (pacing (this s)) s
  | Throw error =>
      if is_rate_limit error then
        let s := unshift item s in
        let waitTime := 60000%float in
        waitAndRetry waitTime s
      else
        let s := record (Rejected (handle item) error) s in
        waitAndRetry (pacing (this s)) s
  end.

(** [processQueue] after [await requestFn()] has thrown [null] or
    [undefined]: the test [error.response?.status === 429] reads
    [response] of it, which throws a [TypeError] inside the [catch]
    block.  The activation ends there: [reject] is not called, no timer
    is set, and [processing] stays true.  (The promise of
    [processQueue] is rejected with the [TypeError]; nothing handles
    it.) *)
Definition processQueue_nullish (item : Item) (n : Nullish) (s : Loop V)
  : Loop V := s.

(** [enqueue(requestFn)] is [Enqueue]: push, then [processQueue]. *)
Definition step := EventLoop.step processQueue_resume processQueue_nullish.
Definition run := EventLoop.run processQueue_resume processQueue_nullish.


End RateLimiter.



(** An axios error for an HTTP 429 answer. *)
Definition too_many_requests : Error :=
  {| message := "Request failed with status code 429";
     response := Some {| status := 429 |} |}.

(** [new Error("Rate limit exceeded")], thrown by the stock fetchers when
    the upstream body has a [Note] field. *)
Definition rate_limit_exceeded : Error := new_Error "Rate limit exceeded".

(** [const rateLimiter = new RateLimiter(5, 60000)] *)
Definition rateLimiter : RateLimiter := new_RateLimiter 5 60000.

End MyOwnCodes.

(** ** [APICache], the same class in both mock-server.js files

    [get] returns [null] for an absent or expired key; [null] is a value
    of the type of cached data. *)

Module Cache.

Section APICache.

Context {V : Type}.
Variable null : V.

Record Item := { data : V; expiry : Z }.

Record APICache := { cache : gmap string Item; ttl : Z }.

(** [constructor(ttl = 60000)] *)
Definition new_APICache (ttl : Z) : APICache := {| cache := ∅; ttl := ttl |}.

Definition get (c : APICache) (key : string) (now : Z) : V * APICache :=
  match cache c !! key with
  | None => (null, c)
  | Some item =>
      if now >? expiry item
      then (null, {| cache := delete key (cache c); ttl := ttl c |})
      else (data item, c)
  end.

Definition set (c : APICache) (key : string) (data : V) (now : Z) : APICache :=
  {| cache := <[key := {| data := data; expiry := now + ttl c |}]> (cache c);
     ttl := ttl c |}.

Definition clear (c : APICache) : APICache := {| cache := ∅; ttl := ttl c |}.

End APICache.

Arguments Item V : clear implicits.
Arguments APICache V : clear implicits.

End Cache.

(** ** The full breaker over its lifetime

    Everything the class of src/myOwnCodes/circuit-breaker-pattern.js can
    turn a breaker into: the constructor, [execute], [reset]. *)

Module Lifetime.

Section WithClock.

Context {World V : Type}.
Variable now : World -> Z.

Inductive reachable : CircuitBreakerPattern.CircuitBreaker -> Prop :=
| reachable_new threshold timeout name w :
    reachable (CircuitBreakerPattern.new_CircuitBreaker now threshold timeout name w)
| reachable_execute cb (fn : Operation World V) w :
    reachable cb ->
    reachable (breaker (CircuitBreakerPattern.execute now cb fn w))
| reachable_reset cb :
    reachable cb -> reachable (CircuitBreakerPattern.reset cb).

End WithClock.

End Lifetime.

(** ** [APICacheWithInvalidation] and [getCachedStock]

    [APICacheWithInvalidation] (src/myOwnCodes/mock-server.js) has the
    [get], [set] and [clear] of [APICache] and adds [invalidate].
    [getCachedStock] (both mock-server.js files) reads the module's cache,
    and on a miss fetches, stores and returns; the cache object is passed
    in and out, the request is an operation completing with
    [response.data], and [truthy] is JavaScript's truthiness of a cached
    value. *)

Module CacheUse.

Section WithClock.

Context {World V : Type}.
Variable now : World -> Z.
Variable null : V.
Variable truthy : V -> bool.

Definition invalidate (c : Cache.APICache V) (key : string) : Cache.APICache V :=
  {| Cache.cache := delete key (Cache.cache c); Cache.ttl := Cache.ttl c |}.

Record Fetched := mkFetched {
  answer : Completion V;
  store : Cache.APICache V;
  after : World
}.

Definition getCachedStock (c : Cache.APICache V) (symbol : string)
    (axios_get : Operation World V) (w : World) : Fetched :=
  let '(cached, c) := Cache.get null c symbol (now w) in
  if truthy cached then mkFetched (Return cached) c w
  else
    match axios_get w with
    | (Return data, w') =>
        mkFetched (Return data) (Cache.set c symbol data (now w')) w'
    | (Throw error, w') => mkFetched (Throw error) c w'
    end.

End WithClock.

End CacheUse.

(** ** Promises settled by a limiter *)

Module Settlement.

Section Histories.

Context {V : Type}.

(** The promises resolved or rejected, in the order it happened. *)
Fixpoint settled_handles (h : list (Entry V)) : list nat :=
  match h with
  | [] => []
  | Resolved p _ :: h => p :: settled_handles h
  | Rejected p _ :: h => p :: settled_handles h
  | RejectedNullish p _ :: h => p :: settled_handles h
  | _ :: h => settled_handles h
  end.

(** The promises handed out, in submission order. *)
Fixpoint submitted_handles (evs : list (Event (V := V))) : list nat :=
  match evs with
  | [] => []
  | Enqueue item :: evs => handle item :: submitted_handles evs
  | _ :: evs => submitted_handles evs
  end.

(** The items submitted, in submission order. *)
Fixpoint submitted_items (evs : list (Event (V := V))) : list Item :=
  match evs with
  | [] => []
  | Enqueue item :: evs => item :: submitted_items evs
  | _ :: evs => submitted_items evs
  end.

(** The promises not settled yet: the one in flight, then the queue. *)
Definition pending_handles (s : Loop V) : list nat :=
  map handle (awaiting s ++ queue (this s)).

(** The loop is in a phase, an idle loop has an empty queue, and the
    settled promises followed by the pending ones are [sub]. *)
Definition orderly (sub : list nat) (s : Loop V) : Prop :=
  is_Some (phase_of s) /\
  (phase_of s = Some Idle -> queue (this s) = []) /\
  settled_handles (history s) ++ pending_handles s = sub.

(** No awaited promise of the run was rejected with [null] or
    [undefined]. *)
Definition no_nullish (evs : list (Event (V := V))) : bool :=
  forallb (fun ev =>
             match ev with SettleNullish _ _ => false | _ => true end) evs.

(** The limiter of src/myOwnCodes/mock-server.js after such a
    rejection: it is stuck, and one promise, [lost], was handed out
    before those of the queue and is neither settled nor pending. *)
Definition abandoned (sub : list nat) (s : Loop V) : Prop :=
  stuck s /\
  exists lost,
    settled_handles (history s) ++ lost :: map handle (queue (this s)) = sub.

End Histories.

End Settlement.

(** ** The retry loops

    A call makes its requests one after the other; [upstream n] is how
    the [n]-th request of the call (counted from 0) completes, with
    [response.data] when it succeeds, and [hasNote] says whether
    [response.data.Note] is truthy.  A run records what the call settled
    with, how many requests it made, and the waits it made, in order. *)

Module Retry.

Record Run (R : Type) := mkRun {
  result : R;
  requests : nat;
  waits : list Z
}.
Arguments mkRun {R}.
Arguments result {R}.
Arguments requests {R}.
Arguments waits {R}.

Definition rate_limit_exceeded : Error := new_Error "Rate limit exceeded".

Section Loops.

Context {V : Type}.
Variable hasNote : V -> bool.
Variable upstream : nat -> Completion V.

(** A request that does not give data: it threw, or the body has a
    [Note]; and the error the [catch] block then sees. *)
Definition failed (c : Completion V) : bool :=
  match c with Throw _ => true | Return data => hasNote data end.

Definition caught (c : Completion V) : Error :=
  match c with Throw error => error | Return _ => rate_limit_exceeded end.

(** *** [getStockWithRetry] of src/mock-server.js

    The result is [response.data], or [undefined] ([None]) when the loop
    ends without returning.  [fuel] bounds the iterations of the [while]
    loop. *)
Fixpoint getStockWithRetry_loop (fuel : nat) (maxRetries attempt : Z)
    (requests : nat) (waits : list Z) : option (Run (Completion (option V))) :=
  match fuel with
  | O => None
  | S fuel =>
      if attempt <? maxRetries then
        let catch (error : Error) :=
          let attempt := attempt + 1 in
          if attempt >=? maxRetries
          then Some (mkRun (Throw error) (S requests) waits)
          else
            let waitTime := 2 ^ attempt * 1000 in
            getStockWithRetry_loop fuel maxRetries attempt (S requests)
              (waits ++ [waitTime]) in
        match upstream requests with
        | Return data =>
            if hasNote data then catch rate_limit_exceeded
            else Some (mkRun (Return (Some data)) (S requests) waits)
        | Throw error => catch error
        end
      else Some (mkRun (Return None) requests waits)
  end.

Definition getStockWithRetry (maxRetries : Z)
  : option (Run (Completion (option V))) :=
  getStockWithRetry_loop (S (Z.to_nat maxRetries)) maxRetries 0 0 [].

(** The waits of [n] failed attempts that started at attempt number [a]:
    [2^(a+1) * 1000], [2^(a+2) * 1000], ... *)
Definition backoff (a : Z) (n : nat) : list Z :=
  map (fun k => 2 ^ (a + Z.of_nat k) * 1000) (seq 1 n).

(** *** [getStockWithRetry] of src/myOwnCodes/mock-server.js

    [attempt++] follows the awaited request inside the [try], and again
    in the [catch]; the [catch] logs, waits [delay] and goes round. *)
Fixpoint getStockWithRetry_own_loop (fuel : nat) (maxRetries delay attempt : Z)
    (requests : nat) (waits : list Z) : option (Run (Completion (option V))) :=
  match fuel with
  | O => None
  | S fuel =>
      if attempt <? maxRetries then
        let catch (attempt : Z) :=
          let attempt := attempt + 1 in
          getStockWithRetry_own_loop fuel maxRetries delay attempt
            (S requests) (waits ++ [delay]) in
        match upstream requests with
        | Return data =>
            let attempt := attempt + 1 in
            if hasNote data then catch attempt
            else Some (mkRun (Return (Some data)) (S requests) waits)
        | Throw error => catch attempt
        end
      else Some (mkRun (Return None) requests waits)
  end.

Definition getStockWithRetry_own (maxRetries delay : Z)
  : option (Run (Completion (option V))) :=
  getStockWithRetry_own_loop (S (Z.to_nat maxRetries)) maxRetries delay 0 0 [].

(** *** [StockAPIClient.fetchWithRetry] of src/myOwnCodes/mock-server.js

    [clock n] is [Date.now()] when the [n]-th request has completed, read
    by [this.cache.set].  The loop need not end, so [fuel] is an argument:
    [None] is a call still running after [fuel] iterations. *)
Variable clock : nat -> Z.

Record ClientRun := mkClientRun {
  run : Run (Completion (option V));
  cache : Cache.APICache V
}.

Definition failed_to_fetch (symbol : string) (maxRetries : Z) : Error :=
  new_Error ("Failed to fetch data for " ++ symbol ++ " after "
             ++ pretty maxRetries ++ " attempts").

Fixpoint fetchWithRetry_loop (fuel : nat) (symbol : string)
    (maxRetries delay attempt : Z) (requests : nat) (waits : list Z)
    (cache : Cache.APICache V) : option ClientRun :=
  match fuel with
  | O => None
  | S fuel =>
      if attempt <? maxRetries then
        let catch (error : Error) :=
          if attempt >=? maxRetries
          then Some (mkClientRun
                       (mkRun (Throw (failed_to_fetch symbol maxRetries))
                          (S requests) waits) cache)
          else
            let waitTime := delay * 2 in
            fetchWithRetry_loop fuel symbol maxRetries delay attempt
              (S requests) (waits ++ [waitTime]) cache in
        match upstream requests with
        | Return data =>
            if hasNote data then catch rate_limit_exceeded
            else
              let cache := Cache.set cache symbol data (clock requests) in
              let attempt := attempt + 1 in
              fetchWithRetry_loop fuel symbol maxRetries delay attempt
                (S requests) waits cache
        | Throw error => catch error
        end
      else Some (mkClientRun (mkRun (Return None) requests waits) cache)
  end.

Definition fetchWithRetry (fuel : nat) (cache : Cache.APICache V)
    (symbol : string) (maxRetries delay : Z) : option ClientRun :=
  fetchWithRetry_loop fuel symbol maxRetries delay 0 0 [] cache.

End Loops.

(** *** [RetryHandler] of src/myOwnCodes/mock-server.js

    [fn] is called once per attempt; [upstream n] is how its [n]-th call
    completes.  [execute] returns the value of the first call that
    succeeds or throws [lastError], which is [undefined] ([None]) when no
    call was made. *)

Record RetryHandler := { maxRetries : Z; baseDelay : Z }.

(** [constructor(maxRetries = 3, baseDelay = 1000)] *)
Definition new_RetryHandler (maxRetries baseDelay : Z) : RetryHandler :=
  {| maxRetries := maxRetries; baseDelay := baseDelay |}.

Inductive Settled (V : Type) :=
| Returned (v : V)
| Thrown (lastError : option Error).
Arguments Returned {V} v.
Arguments Thrown {V} lastError.

Section Handler.

Context {V : Type}.
Variable upstream : nat -> Completion V.
Variable retryable : Error -> bool.

Fixpoint execute_loop (fuel : nat) (this : RetryHandler) (attempt : Z)
    (lastError : option Error) (requests : nat) (waits : list Z)
  : option (Run (Settled V)) :=
  match fuel with
  | O => None
  | S fuel =>
      if attempt <=? maxRetries this then
        match upstream requests with
        | Return v => Some (mkRun (Returned v) (S requests) waits)
        | Throw error =>
            let lastError := Some error in
            if negb (retryable error) || (attempt =? maxRetries this)
            then Some (mkRun (Thrown lastError) (S requests) waits)
            else
              let delay := baseDelay this * 2 ^ attempt in
              execute_loop fuel this (attempt + 1) lastError (S requests)
                (waits ++ [delay])
        end
      else Some (mkRun (Thrown lastError) requests waits)
  end.

Definition execute (this : RetryHandler) : option (Run (Settled V)) :=
  execute_loop (S (S (Z.to_nat (maxRetries this)))) this 0 None 0 [].

(** A call that threw an error the handler retries on. *)
Definition retried (c : Completion V) : bool :=
  match c with Throw error => retryable error | Return _ => false end.

(** [lastError] after a call that threw. *)
Definition retried_error (c : Completion V) : option Error :=
  match c with Throw error => Some error | Return _ => None end.

(** The sleeps before the retries of [n] failed calls:
    [baseDelay], [2 baseDelay], [4 baseDelay], ... *)
Definition delays (this : RetryHandler) (n : nat) : list Z :=
  map (fun k => baseDelay this * 2 ^ Z.of_nat k) (seq 0 n).

End Handler.

End Retry.

(** ** Error handling helpers of src/myOwnCodes/mock-server.js

    An axios error as [handleAPIError] reads it: [message], [code], and a
    [response] with [status] and a body of which [message] and [error]
    are read.  [isRetryable] reads [response.status] only, so it is given
    on the errors of module [JS]. *)

Module ErrorHandling.

Record Data := { data_message : option string; data_error : option string }.

Record Response := { status : Z; data : option Data }.

Record AxiosError := {
  message : string;
  code : option string;
  response : option Response
}.

(** The same error, as the breakers and limiters see it. *)
Definition to_Error (error : AxiosError) : JS.Error :=
  {| JS.message := message error;
     JS.response :=
       match response error with
       | Some r => Some {| JS.status := status r |}
       | None => None
       end |}.

(** The object [handleAPIError] returns; a field it leaves out reads as
    [undefined] ([None]). *)
Record ErrorInfo := {
  type : string;
  info_status : option Z;
  info_message : string;
  details : option Data
}.

(** [a || b] on two values that are strings or [undefined]. *)
Definition or_else (a : option string) (b : string) : string :=
  match a with
  | Some s => if String.eqb s "" then b else s
  | None => b
  end.

(** [error.code === c] *)
Definition code_is (error : AxiosError) (c : string) : bool :=
  match code error with Some c' => String.eqb c' c | None => false end.

Definition handleAPIError (error : AxiosError) : ErrorInfo :=
  match response error with
  | None =>
      if code_is error "ECONNABORTED" then
        {| type := "timeout"; info_status := None;
           info_message := "Request timeout - server took too long to respond";
           details := None |}
      else if code_is error "ENOTFOUND" then
        {| type := "network"; info_status := None;
           info_message := "Network error - cannot reach server (DNS failure)";
           details := None |}
      else if code_is error "ECONNREFUSED" then
        {| type := "network"; info_status := None;
           info_message := "Connection refused - server is not running";
           details := None |}
      else
        {| type := "network"; info_status := None;
           info_message := "Network error: " ++ message error;
           details := None |}
  | Some r =>
      let status := status r in
      let data := data r in
      if (status >=? 400) && (status <? 500) then
        {| type := "client"; info_status := Some status;
           info_message :=
             or_else (match data with Some d => data_message d | None => None end)
               (or_else (match data with Some d => data_error d | None => None end)
                  "Client error");
           details := data |}
      else if status >=? 500 then
        {| type := "server"; info_status := Some status;
           info_message :=
             or_else (match data with Some d => data_message d | None => None end)
               "Server error";
           details := data |}
      else
        {| type := "unknown"; info_status := Some status;
           info_message := "Unknown error"; details := data |}
  end.

Definition isRetryable (error : JS.Error) : bool :=
  match JS.response error with
  | None => true
  | Some r =>
      let status := JS.status r in
      if (status =? 429) || (status >=? 500) then true else false
  end.

(** [safeAPICall]: the outcome of [fn] wrapped in an object; nothing is
    thrown. *)
Inductive Safe (V : Type) :=
| success_true (data : V)
| success_false (error : ErrorInfo).
Arguments success_true {V} data.
Arguments success_false {V} error.

Inductive Outcome (V : Type) :=
| Resolves (v : V)
| Rejects (error : AxiosError).
Arguments Resolves {V} v.
Arguments Rejects {V} error.

Definition safeAPICall {V} (fn : Outcome V) : Safe V :=
  match fn with
  | Resolves result => success_true result
  | Rejects error => success_false (handleAPIError error)
  end.

End ErrorHandling.

(** ** The mock server of src/mock-server.js: rate limit *)

Module RateLimitMiddleware.

Definition RATE_LIMIT : Z := 10.

(** [res.status(code).json({ error, message })] *)
Record Reply := { code : Z; error : string; message : string }.

Definition too_many : Reply :=
  {| code := 429; error := "Rate limit exceeded";
     message := "Too many requests. Please try again later." |}.

(** The middleware on the module's [requestCount]: [None] is [next()]. *)
Definition rateLimitMiddleware (requestCount : Z) : Z * option Reply :=
  let requestCount := requestCount + 1 in
  if requestCount >? RATE_LIMIT then (requestCount, Some too_many)
  else (requestCount, None).

(** What happens to the counter: a request arrives, or the
    [setInterval] callback runs. *)
Inductive Tick := Request | Reset.

Fixpoint serve (requestCount : Z) (ticks : list Tick) : Z * list (option Reply) :=
  match ticks with
  | [] => (requestCount, [])
  | Request :: ticks =>
      let '(requestCount, reply) := rateLimitMiddleware requestCount in
      let '(final, replies) := serve requestCount ticks in
      (final, reply :: replies)
  | Reset :: ticks => serve 0 ticks
  end.

End RateLimitMiddleware.

(** ** The mock server of src/mock-server.js: tokens

    The handlers on the module's [tokens] map.  Request fields that may
    be missing are options; a string is truthy when it is not empty.
    [generateToken()] draws random bytes: the tokens it returns are
    arguments, and so are the readings of [Date.now()]. *)

Module AuthServer.

Record User := { id : Z; username : string; password : string; role : string }.

Definition users : list User :=
  [ {| id := 1; username := "testuser"; password := "password123"; role := "user" |};
    {| id := 2; username := "admin"; password := "admin123"; role := "admin" |} ].

(** An entry of [tokens]: an access token has [username] and [role], a
    refresh token has [type]. *)
Record TokenData := {
  userId : Z;
  td_username : option string;
  td_role : option string;
  td_type : option string;
  expiresAt : Z
}.

(** [req.user] *)
Record ReqUser := {
  ru_id : Z;
  ru_username : option string;
  ru_role : option string
}.

Inductive Body :=
| error_body (error : string)
| login_body (accessToken refreshToken : string) (expiresIn : Z) (user : ReqUser)
| refresh_body (accessToken : string) (expiresIn : Z)
| message_body (message : string).

Record Reply := { code : Z; body : Body }.

Definition truthy (s : option string) : bool :=
  match s with Some s => negb (String.eqb s "") | None => false end.

(** [s.split(" ")] *)
Fixpoint split_space (s : string) : list string :=
  match s with
  | EmptyString => [EmptyString]
  | String c rest =>
      if Ascii.eqb c " "%char then EmptyString :: split_space rest
      else
        match split_space rest with
        | word :: words => String c word :: words
        | [] => [String c EmptyString]
        end
  end.

(** [POST /auth/login] *)
Definition login (tokens : gmap string TokenData)
    (username password : option string) (accessToken refreshToken : string)
    (now1 now2 : Z) : Reply * gmap string TokenData :=
  if negb (truthy username) || negb (truthy password) then
    ({| code := 400; body := error_body "Username and password required" |}, tokens)
  else
    match List.find (fun u => bool_decide (Some (AuthServer.username u) = username)
                              && bool_decide (Some (AuthServer.password u) = password))
            users with
    | None => ({| code := 401; body := error_body "Invalid credentials" |}, tokens)
    | Some user =>
        let tokens :=
          <[accessToken :=
              {| userId := id user; td_username := Some (AuthServer.username user);
                 td_role := Some (role user); td_type := None;
                 expiresAt := now1 + 3600000 |}]> tokens in
        let tokens :=
          <[refreshToken :=
              {| userId := id user; td_username := None; td_role := None;
                 td_type := Some "refresh"%string;
                 expiresAt := now2 + 86400000 |}]> tokens in
        ({| code := 200;
            body := login_body accessToken refreshToken 3600
                      {| ru_id := id user;
                         ru_username := Some (AuthServer.username user);
                         ru_role := Some (role user) |} |}, tokens)
    end.

(** [POST /auth/refresh]; [None] is the handler throwing, which it does
    when the token's user is not in [users]. *)
Definition refresh (tokens : gmap string TokenData) (refreshToken : option string)
    (newAccessToken : string) (now1 now2 : Z)
  : option Reply * gmap string TokenData :=
  match refreshToken with
  | Some token =>
      if String.eqb token "" then
        (Some {| code := 400; body := error_body "Refresh token required" |}, tokens)
      else
        match tokens !! token with
        | Some tokenData =>
            if bool_decide (td_type tokenData = Some "refresh"%string) then
              if now1 >? expiresAt tokenData then
                (Some {| code := 401; body := error_body "Refresh token expired" |},
                 delete token tokens)
              else
                match List.find (fun u => id u =? userId tokenData) users with
                | Some user =>
                    (Some {| code := 200; body := refresh_body newAccessToken 3600 |},
                     <[newAccessToken :=
                         {| userId := id user;
                            td_username := Some (AuthServer.username user);
                            td_role := Some (role user); td_type := None;
                            expiresAt := now2 + 3600000 |}]> tokens)
                | None => (None, tokens)
                end
            else
              (Some {| code := 401; body := error_body "Invalid refresh token" |},
               tokens)
        | None =>
            (Some {| code := 401; body := error_body "Invalid refresh token" |},
             tokens)
        end
  | None =>
      (Some {| code := 400; body := error_body "Refresh token required" |}, tokens)
  end.

(** [POST /auth/logout] *)
Definition logout (tokens : gmap string TokenData) (authorization : option string)
  : Reply * gmap string TokenData :=
  let token :=
    match authorization with
    | Some header => split_space header !! 1%nat
    | None => None
    end in
  let tokens :=
    match token with
    | Some t => if truthy token then delete t tokens else tokens
    | None => tokens
    end in
  ({| code := 200; body := message_body "Logged out successfully" |}, tokens).

(** [authMiddleware]: a reply, or [next()] with [req.user] set. *)
Definition authMiddleware (tokens : gmap string TokenData)
    (authorization : option string) (now : Z)
  : (Reply + ReqUser) * gmap string TokenData :=
  match authorization with
  | Some authHeader =>
      if negb (truthy authorization) || negb (String.prefix "Bearer " authHeader)
      then (inl {| code := 401; body := error_body "No token provided" |}, tokens)
      else
        match split_space authHeader !! 1%nat with
        | Some token =>
            match tokens !! token with
            | Some tokenData =>
                if now >? expiresAt tokenData then
                  (inl {| code := 401; body := error_body "Token expired" |},
                   delete token tokens)
                else
                  (inr {| ru_id := userId tokenData;
                          ru_username := td_username tokenData;
                          ru_role := td_role tokenData |}, tokens)
            | None =>
                (inl {| code := 401; body := error_body "Invalid token" |}, tokens)
            end
        | None =>
            (inl {| code := 401; body := error_body "Invalid token" |}, tokens)
        end
  | None => (inl {| code := 401; body := error_body "No token provided" |}, tokens)
  end.

(** [adminMiddleware]: [None] is [next()]. *)
Definition adminMiddleware (user : ReqUser) : option Reply :=
  if bool_decide (ru_role user = Some "admin"%string) then None
  else Some {| code := 403; body := error_body "Admin access required" |}.

(** A token as [generateToken] makes them has no space in it. *)
Fixpoint no_space (s : string) : bool :=
  match s with
  | EmptyString => true
  | String c rest => negb (Ascii.eqb c " "%char) && no_space rest
  end.

End AuthServer.

(** ** [IdempotentClient] of src/myOwnCodes/mock-server.js

    [axios_post key] is the request sent with header [Idempotency-Key:
    key], completing with [response.data]; [generated] is what
    [generateKey()] would return. *)

Module Idempotent.

Record IdempotentClient := { processedRequests : gset string }.

(** [constructor()] *)
Definition new_IdempotentClient : IdempotentClient :=
  {| processedRequests := ∅ |}.

Definition duplicate : Error :=
  new_Error "Request already processed (duplicate)".

Section Post.

Context {World V : Type}.

Record Posted := mkPosted {
  answer : Completion V;
  client : IdempotentClient;
  after : World
}.

Definition post (this : IdempotentClient)
    (axios_post : string -> Operation World V)
    (idempotencyKey : option string) (generated : string) (w : World) : Posted :=
  let key :=
    match idempotencyKey with
    | Some k => if String.eqb k "" then generated else k
    | None => generated
    end in
  if bool_decide (key ∈ processedRequests this) then
    mkPosted (Throw duplicate) this w
  else
    match axios_post key w with
    | (Return data, w') =>
        mkPosted (Return data)
          {| processedRequests := {[key]} ∪ processedRequests this |} w'
    | (Throw error, w') => mkPosted (Throw error) this w'
    end.

End Post.

End Idempotent.

(** ** [RequestDeduplicator] of src/myOwnCodes/mock-server.js

    The promise [execute] returns is a number; the requests axios has not
    settled yet are kept with their key and promise, in the order they
    were started, and [started] counts the requests made.  When a
    request settles, its [then] or [catch] handler deletes its key. *)

Module Dedup.

Record RequestDeduplicator := { pendingRequests : gmap string nat }.

Record Loop := {
  this : RequestDeduplicator;
  inflight : list (string * nat);
  started : nat
}.

(** [new RequestDeduplicator()], nothing started. *)
Definition start : Loop :=
  {| this := {| pendingRequests := ∅ |}; inflight := []; started := 0 |}.

(** [getKey(method, url, params)]; [params] is the text
    [JSON.stringify] gives for the parameters, when there are any. *)
Definition getKey (method url : string) (params : option string) : string :=
  (method ++ ":" ++ url ++ ":" ++
   match params with Some json => json | None => "{}" end)%string.

Definition execute (method url : string) (params : option string) (s : Loop)
  : nat * Loop :=
  let key := getKey method url params in
  match pendingRequests (this s) !! key with
  | Some promise => (promise, s)
  | None =>
      let promise := started s in
      (promise,
       {| this := {| pendingRequests := <[key := promise]> (pendingRequests (this s)) |};
          inflight := inflight s ++ [(key, promise)];
          started := S (started s) |})
  end.

(** The [i]-th request in flight settles. *)
Definition settle (i : nat) (s : Loop) : option Loop :=
  match inflight s !! i with
  | Some (key, _) =>
      Some {| this := {| pendingRequests := delete key (pendingRequests (this s)) |};
              inflight := delete i (inflight s);
              started := started s |}
  | None => None
  end.

Inductive Event :=
| Execute (method url : string) (params : option string)
| Settle (i : nat).

Definition step (s : Loop) (ev : Event) : option Loop :=
  match ev with
  | Execute method url params => Some (execute method url params s).2
  | Settle i => settle i s
  end.

Fixpoint run (s : Loop) (evs : list Event) : option Loop :=
  match evs with
  | [] => Some s
  | ev :: evs =>
      match step s ev with
      | Some s' => run s' evs
      | None => None
      end
  end.

(** The map holds exactly the requests in flight, one per key. *)
Definition coherent (s : Loop) : Prop :=
  NoDup (inflight s).*1 /\
  forall k p, pendingRequests (this s) !! k = Some p <-> (k, p) ∈ inflight s.

End Dedup.

(** ** [RequestBatcher] and [PaginationHelper] of src/advanced-patterns.js *)

Module Batcher.

Record RequestBatcher := { batchSize : Z; delayMs : Z }.

(** [constructor(batchSize = 5, delayMs = 100)] *)
Definition new_RequestBatcher (batchSize delayMs : Z) : RequestBatcher :=
  {| batchSize := batchSize; delayMs := delayMs |}.

(** [{ success: true, data }] and [{ success: false, error }] *)
Inductive Result (V : Type) :=
| success_true (data : V)
| success_false (error : string).
Arguments success_true {V} data.
Arguments success_false {V} error.

(** An index of [Array.prototype.slice]: negative counts from the end,
    and the result is clamped to the array. *)
Definition slice_index (len k : Z) : Z :=
  if k <? 0 then Z.max (len + k) 0 else Z.min k len.

(** [l.slice(start, end)] *)
Definition slice {A} (l : list A) (start end_ : Z) : list A :=
  let len := Z.of_nat (length l) in
  let from := slice_index len start in
  let to := slice_index len end_ in
  take (Z.to_nat (to - from)) (drop (Z.to_nat from) l).

Section Batch.

Context {V : Type}.

(** [axios_get n url] is how the request for [urls[n]] completes. *)
Variable axios_get : nat -> string -> Completion V.

Definition request (indexed : nat * string) : Result V :=
  match axios_get indexed.1 indexed.2 with
  | Return data => success_true data
  | Throw error => success_false (JS.message error)
  end.

(** The [for] loop of [batchProcess]; [urls] come with their indices. *)
Fixpoint batchProcess_loop (fuel : nat) (this : RequestBatcher)
    (urls : list (nat * string)) (i : Z) (results : list (Result V))
    (waits : list Z) : option (list (Result V) * list Z) :=
  match fuel with
  | O => None
  | S fuel =>
      if i <? Z.of_nat (length urls) then
        let batch := slice urls i (i + batchSize this) in
        let batchResults := map request batch in
        let results := results ++ batchResults in
        let waits :=
          if i + batchSize this <? Z.of_nat (length urls)
          then waits ++ [delayMs this] else waits in
        batchProcess_loop fuel this urls (i + batchSize this) results waits
      else Some (results, waits)
  end.

Definition batchProcess (fuel : nat) (this : RequestBatcher) (urls : list string)
  : option (list (Result V) * list Z) :=
  batchProcess_loop fuel this (imap (fun n url => (n, url)) urls) 0 [] [].

End Batch.

End Batcher.

Module Pagination.

Section Pages.

Context {V : Type}.

(** [pages p] is how the request for page [p] completes, with
    [response.data.data] when it succeeds. *)
Variable pages : Z -> Completion (list V).

(** The [while (hasMore)] loop of [fetchAllPages], entered with
    [hasMore] true. *)
Fixpoint fetchAllPages_loop (fuel : nat) (allData : list V) (page : Z)
  : option (Completion (list V)) :=
  match fuel with
  | O => None
  | S fuel =>
      match pages page with
      | Return data =>
          let allData := allData ++ data in
          let hasMore := (length data =? 100)%nat in
          let page := page + 1 in
          if hasMore then fetchAllPages_loop fuel allData page
          else Some (Return allData)
      | Throw error => Some (Throw error)
      end
  end.

Definition fetchAllPages (fuel : nat) : option (Completion (list V)) :=
  fetchAllPages_loop fuel [] 1.

(** The data of pages [from], [from + 1], ..., [n] of them. *)
Fixpoint collected (from : Z) (n : nat) : list V :=
  match n with
  | O => []
  | S n =>
      match pages from with
      | Return data => data ++ collected (from + 1) n
      | Throw _ => collected (from + 1) n
      end
  end.

(** A page that came back full: the loop goes on after it. *)
Definition full (c : Completion (list V)) : bool :=
  match c with Return data => (length data =? 100)%nat | Throw _ => false end.

End Pages.

End Pagination.

(** * Properties *)

Module CB := CircuitBreakerPattern.
Module AP := AdvancedPatterns.

(** ** Circuit breakers: single calls *)

Section BreakerSteps.

Context {World V : Type}.
Variable now : World -> Z.
Implicit Types (w : World) (fn : Operation World V) (c : Call World V).

Lemma is_failure_inv c :
  is_failure c = true -> exists e, (c.2 c.1).1 = Throw e.
Proof.
  unfold is_failure. destruct (c.2 c.1).1 as [v|e]; [discriminate | eauto].
Qed.

(** One [try_fn] of the full breaker, spelled out on the completion of
    the operation. *)
Lemma CB_try_fn_eq (cb : CB.CircuitBreaker) fn w :
  CB.try_fn now cb fn w =
  match (fn w).1 with
  | Return v => mkOutcome (Return v) (CB.onSuccess cb) (fn w).2
  | Throw e => mkOutcome (Throw e) (CB.onFailure now cb (fn w).2) (fn w).2
  end.
Proof. unfold CB.try_fn. destruct (fn w) as [[v|e] w']; reflexivity. Qed.

Lemma AP_try_fn_eq (cb : AP.CircuitBreaker) fn w :
  AP.try_fn now cb fn w =
  match (fn w).1 with
  | Return v => mkOutcome (Return v) (AP.onSuccess cb) (fn w).2
  | Throw e => mkOutcome (Throw e) (AP.onFailure now cb (fn w).2) (fn w).2
  end.
Proof. unfold AP.try_fn. destruct (fn w) as [[v|e] w']; reflexivity. Qed.

(** A failure while CLOSED: the count goes up by one, and the breaker
    opens exactly when the new count has reached the threshold. *)
Lemma CB_closed_failure (cb : CB.CircuitBreaker) fn w e :
  CB.state cb = CLOSED -> (fn w).1 = Throw e ->
  let cb' := breaker (CB.execute now cb fn w) in
  CB.threshold cb' = CB.threshold cb /\ CB.timeout cb' = CB.timeout cb /\
  CB.failureCount cb' = CB.failureCount cb + 1 /\
  (CB.failureCount cb + 1 < CB.threshold cb -> CB.state cb' = CLOSED) /\
  (CB.threshold cb <= CB.failureCount cb + 1 ->
   CB.state cb' = OPEN /\
   CB.nextAttempt cb' = now (fn w).2 + CB.timeout cb).
Proof.
  intros Hst Hfn. unfold CB.execute. rewrite Hst, CB_try_fn_eq, Hfn. cbn.
  unfold CB.onFailure. cbn. rewrite Hst.
  destruct (Z.geb_spec (CB.failureCount cb + 1) (CB.threshold cb)); cbn;
    repeat split; auto; lia.
Qed.

Lemma AP_closed_failure (cb : AP.CircuitBreaker) fn w e :
  AP.state cb = CLOSED -> (fn w).1 = Throw e ->
  let cb' := breaker (AP.execute now cb fn w) in
  AP.threshold cb' = AP.threshold cb /\ AP.timeout cb' = AP.timeout cb /\
  AP.failureCount cb' = AP.failureCount cb + 1 /\
  (AP.failureCount cb + 1 < AP.threshold cb -> AP.state cb' = CLOSED) /\
  (AP.threshold cb <= AP.failureCount cb + 1 ->
   AP.state cb' = OPEN /\
   AP.nextAttempt cb' = now (fn w).2 + AP.timeout cb).
Proof.
  intros Hst Hfn. unfold AP.execute. rewrite Hst, AP_try_fn_eq, Hfn. cbn.
  unfold AP.onFailure. cbn.
  destruct (Z.geb_spec (AP.failureCount cb + 1) (AP.threshold cb)); cbn;
    repeat split; auto; lia.
Qed.

(** Failures below the threshold leave the breaker CLOSED and are
    counted one by one. *)
Lemma CB_failures_below_threshold (calls : list (Call World V)) :
  forall cb : CB.CircuitBreaker,
    CB.state cb = CLOSED ->
    forallb is_failure calls = true ->
    CB.failureCount cb + Z.of_nat (length calls) < CB.threshold cb ->
    let cb' := CB.execute_calls now cb calls in
    CB.state cb' = CLOSED /\
    CB.failureCount cb' = CB.failureCount cb + Z.of_nat (length calls) /\
    CB.threshold cb' = CB.threshold cb /\ CB.timeout cb' = CB.timeout cb.
Proof.
  induction calls as [|[w fn] calls IH]; intros cb Hst Hall Hlt.
  - cbn. repeat split; auto; lia.
  - cbn [forallb] in Hall. apply andb_prop in Hall as [Hc Hall].
    apply is_failure_inv in Hc as [e He]. cbn [fst snd] in He.
    rewrite length_cons, Nat2Z.inj_succ in Hlt.
    destruct (CB_closed_failure cb fn w e Hst He) as (Hthr & Htmo & Hcnt & Hlow & _).
    cbn [CB.execute_calls fold_left fst snd].
    specialize (IH (breaker (CB.execute now cb fn w))).
    cbn zeta in IH. unfold CB.execute_calls in IH.
    destruct IH as (H1 & H2 & H3 & H4); [apply Hlow; lia | assumption | lia |].
    rewrite length_cons, Nat2Z.inj_succ.
    repeat split; [assumption | lia | congruence | congruence].
Qed.

Lemma AP_failures_below_threshold (calls : list (Call World V)) :
  forall cb : AP.CircuitBreaker,
    AP.state cb = CLOSED ->
    forallb is_failure calls = true ->
    AP.failureCount cb + Z.of_nat (length calls) < AP.threshold cb ->
    let cb' := AP.execute_calls now cb calls in
    AP.state cb' = CLOSED /\
    AP.failureCount cb' = AP.failureCount cb + Z.of_nat (length calls) /\
    AP.threshold cb' = AP.threshold cb /\ AP.timeout cb' = AP.timeout cb.
Proof.
  induction calls as [|[w fn] calls IH]; intros cb Hst Hall Hlt.
  - cbn. repeat split; auto; lia.
  - cbn [forallb] in Hall. apply andb_prop in Hall as [Hc Hall].
    apply is_failure_inv in Hc as [e He]. cbn [fst snd] in He.
    rewrite length_cons, Nat2Z.inj_succ in Hlt.
    destruct (AP_closed_failure cb fn w e Hst He) as (Hthr & Htmo & Hcnt & Hlow & _).
    cbn [AP.execute_calls fold_left fst snd].
    specialize (IH (breaker (AP.execute now cb fn w))).
    cbn zeta in IH. unfold AP.execute_calls in IH.
    destruct IH as (H1 & H2 & H3 & H4); [apply Hlow; lia | assumption | lia |].
    rewrite length_cons, Nat2Z.inj_succ.
    repeat split; [assumption | lia | congruence | congruence].
Qed.

Lemma CB_execute_calls_snoc (cb : CB.CircuitBreaker) calls c :
  CB.execute_calls now cb (calls ++ [c])
  = breaker (CB.execute now (CB.execute_calls now cb calls) c.2 c.1).
Proof. unfold CB.execute_calls. now rewrite fold_left_app. Qed.

Lemma AP_execute_calls_snoc (cb : AP.CircuitBreaker) calls c :
  AP.execute_calls now cb (calls ++ [c])
  = breaker (AP.execute now (AP.execute_calls now cb calls) c.2 c.1).
Proof. unfold AP.execute_calls. now rewrite fold_left_app. Qed.

End BreakerSteps.

(** ** Circuit breakers: the claims *)

Section BreakerClaims.

Context {World V : Type}.
Variable now : World -> Z.
Implicit Types (w : World) (fn : Operation World V) (c : Call World V).

(** C1.  A breaker that is CLOSED with [failureCount] 0 and is fed
    [threshold] failing calls in a row is OPEN after the last of them,
    with [nextAttempt] the clock reading at that failure plus [timeout];
    after every strictly shorter prefix it is still CLOSED.  Both
    breakers. *)
Theorem threshold_failures_open_the_circuit (calls : list (Call World V)) c :
  forallb is_failure (calls ++ [c]) = true ->
  (forall cb : CB.CircuitBreaker,
      CB.state cb = CLOSED -> CB.failureCount cb = 0 ->
      CB.threshold cb = Z.of_nat (length (calls ++ [c])) ->
      CB.state (CB.execute_calls now cb (calls ++ [c])) = OPEN /\
      CB.nextAttempt (CB.execute_calls now cb (calls ++ [c]))
        = now (c.2 c.1).2 + CB.timeout cb /\
      forall k, (k < length (calls ++ [c]))%nat ->
        CB.state (CB.execute_calls now cb (take k (calls ++ [c]))) = CLOSED) /\
  (forall cb : AP.CircuitBreaker,
      AP.state cb = CLOSED -> AP.failureCount cb = 0 ->
      AP.threshold cb = Z.of_nat (length (calls ++ [c])) ->
      AP.state (AP.execute_calls now cb (calls ++ [c])) = OPEN /\
      AP.nextAttempt (AP.execute_calls now cb (calls ++ [c]))
        = now (c.2 c.1).2 + AP.timeout cb /\
      forall k, (k < length (calls ++ [c]))%nat ->
        AP.state (AP.execute_calls now cb (take k (calls ++ [c]))) = CLOSED).
Proof.
  intros Hall.
  assert (Hpre : forall k, forallb is_failure (take k (calls ++ [c])) = true).
  { intros k. rewrite forallb_forall in *. intros x Hx. apply Hall.
    rewrite <- (take_drop k (calls ++ [c])). apply in_or_app. now left. }
  pose proof Hall as Hall'.
  rewrite forallb_app in Hall'. apply andb_prop in Hall' as [Hcalls Hc].
  cbn in Hc. rewrite andb_true_r in Hc. apply is_failure_inv in Hc as [e He].
  rewrite length_app, Nat.add_1_r, Nat2Z.inj_succ.
  split; intros cb Hst Hcnt Hthr.
  - destruct (CB_failures_below_threshold now calls cb Hst Hcalls)
      as (Hst' & Hcnt' & Hthr' & Htmo'); [lia |].
    rewrite CB_execute_calls_snoc.
    set (cb1 := CB.execute_calls now cb calls) in *.
    destruct (CB_closed_failure now cb1 c.2 c.1 e Hst' He)
      as (_ & _ & _ & _ & Hopen).
    destruct Hopen as [Ho Hn]; [lia |].
    split; [exact Ho | split; [rewrite Hn; congruence |]].
    intros k Hk.
    apply (CB_failures_below_threshold now (take k (calls ++ [c])) cb Hst (Hpre k)).
    rewrite length_take, length_app. cbn [length]. lia.
  - destruct (AP_failures_below_threshold now calls cb Hst Hcalls)
      as (Hst' & Hcnt' & Hthr' & Htmo'); [lia |].
    rewrite AP_execute_calls_snoc.
    set (cb1 := AP.execute_calls now cb calls) in *.
    destruct (AP_closed_failure now cb1 c.2 c.1 e Hst' He)
      as (_ & _ & _ & _ & Hopen).
    destruct Hopen as [Ho Hn]; [lia |].
    split; [exact Ho | split; [rewrite Hn; congruence |]].
    intros k Hk.
    apply (AP_failures_below_threshold now (take k (calls ++ [c])) cb Hst (Hpre k)).
    rewrite length_take, length_app. cbn [length]. lia.
Qed.

(** C2.  While a breaker is OPEN and the clock is strictly before
    [nextAttempt], [execute] throws the circuit-open error whatever the
    operation is, and leaves the breaker (so [failureCount],
    [successCount] and [nextAttempt]) and the world as they were: the
    operation is not called.  Both breakers. *)
Theorem open_circuit_fails_fast fn w :
  (forall cb : CB.CircuitBreaker,
      CB.state cb = OPEN -> now w < CB.nextAttempt cb ->
      CB.execute now cb fn w = mkOutcome (Throw CB.circuit_open_error) cb w) /\
  (forall cb : AP.CircuitBreaker,
      AP.state cb = OPEN -> now w < AP.nextAttempt cb ->
      AP.execute now cb fn w = mkOutcome (Throw AP.circuit_open_error) cb w).
Proof.
  split; intros cb Hst Hlt.
  - unfold CB.execute. rewrite Hst.
    destruct (Z.ltb_spec (now w) (CB.nextAttempt cb)); [reflexivity | lia].
  - unfold AP.execute. rewrite Hst.
    destruct (Z.ltb_spec (now w) (AP.nextAttempt cb)); [reflexivity | lia].
Qed.

(** Once OPEN or HALF_OPEN, the short breaker's count is at the
    threshold or above: it opens only there, and the count goes down
    only when the state goes back to CLOSED. *)
Lemma AP_reachable_count (cb : AP.CircuitBreaker) :
  AP.reachable now cb (V := V) ->
  AP.state cb <> CLOSED -> AP.threshold cb <= AP.failureCount cb.
Proof.
  induction 1 as [thr tmo w0 | cb fn w Hr IH]; [cbn; congruence |].
  unfold AP.execute.
  destruct (AP.state cb) eqn:Hst.
  - rewrite AP_try_fn_eq. destruct (fn w).1; cbn; [congruence |].
    unfold AP.onFailure; cbn.
    destruct (Z.geb_spec (AP.failureCount cb + 1) (AP.threshold cb)); cbn;
      [lia | congruence].
  - destruct (now w <? AP.nextAttempt cb); [cbn; rewrite Hst; exact IH |].
    rewrite AP_try_fn_eq. destruct (fn w).1; cbn; [congruence |].
    assert (AP.threshold cb <= AP.failureCount cb) by (apply IH; congruence).
    unfold AP.onFailure; cbn.
    destruct (Z.geb_spec (AP.failureCount cb + 1) (AP.threshold cb)); cbn; lia.
  - rewrite AP_try_fn_eq. destruct (fn w).1; cbn; [congruence |].
    assert (AP.threshold cb <= AP.failureCount cb) by (apply IH; congruence).
    unfold AP.onFailure; cbn.
    destruct (Z.geb_spec (AP.failureCount cb + 1) (AP.threshold cb)); cbn; lia.
Qed.

(** C3.  When a breaker is OPEN and the clock has reached [nextAttempt],
    [execute] runs the operation once, on the world of the call, and
    settles as the operation did; a success leaves the breaker CLOSED
    with [failureCount] 0, a failure leaves it OPEN with [nextAttempt]
    the clock reading after the operation plus [timeout].  The full
    breaker from any OPEN state, the short one from any OPEN state the
    class can produce. *)
Theorem half_open_trial fn w :
  (forall cb : CB.CircuitBreaker,
      CB.state cb = OPEN -> CB.nextAttempt cb <= now w ->
      let o := CB.execute now cb fn w in
      world o = (fn w).2 /\ settled o = (fn w).1 /\
      match (fn w).1 with
      | Return _ =>
          CB.state (breaker o) = CLOSED /\ CB.failureCount (breaker o) = 0
      | Throw _ =>
          CB.state (breaker o) = OPEN /\
          CB.nextAttempt (breaker o) = now (fn w).2 + CB.timeout cb
      end) /\
  (forall cb : AP.CircuitBreaker,
      AP.reachable now cb (V := V) ->
      AP.state cb = OPEN -> AP.nextAttempt cb <= now w ->
      let o := AP.execute now cb fn w in
      world o = (fn w).2 /\ settled o = (fn w).1 /\
      match (fn w).1 with
      | Return _ =>
          AP.state (breaker o) = CLOSED /\ AP.failureCount (breaker o) = 0
      | Throw _ =>
          AP.state (breaker o) = OPEN /\
          AP.nextAttempt (breaker o) = now (fn w).2 + AP.timeout cb
      end).
Proof.
  split.
  - intros cb Hst Hle. unfold CB.execute. rewrite Hst.
    destruct (Z.ltb_spec (now w) (CB.nextAttempt cb)); [lia |].
    rewrite CB_try_fn_eq. destruct (fn w).1; cbn; auto.
  - intros cb Hr Hst Hle.
    assert (AP.threshold cb <= AP.failureCount cb)
      by (apply (AP_reachable_count cb Hr); congruence).
    unfold AP.execute. rewrite Hst.
    destruct (Z.ltb_spec (now w) (AP.nextAttempt cb)); [lia |].
    rewrite AP_try_fn_eq. destruct (fn w).1; cbn; auto.
    unfold AP.onFailure; cbn.
    destruct (Z.geb_spec (AP.failureCount cb + 1) (AP.threshold cb)); cbn;
      [auto | lia].
Qed.

(** C4.  Whatever the breaker, [execute] either rejects the call without
    touching the world (OPEN, clock before [nextAttempt]), or runs the
    operation once and, the operation having thrown [e], throws that
    same [e].  Both breakers. *)
Theorem failures_pass_through fn w e :
  (fn w).1 = Throw e ->
  (forall cb : CB.CircuitBreaker,
      let o := CB.execute now cb fn w in
      (CB.state cb = OPEN /\ now w < CB.nextAttempt cb /\
       world o = w /\ settled o = Throw CB.circuit_open_error) \/
      (world o = (fn w).2 /\ settled o = Throw e)) /\
  (forall cb : AP.CircuitBreaker,
      let o := AP.execute now cb fn w in
      (AP.state cb = OPEN /\ now w < AP.nextAttempt cb /\
       world o = w /\ settled o = Throw AP.circuit_open_error) \/
      (world o = (fn w).2 /\ settled o = Throw e)).
Proof.
  intros He. split; intros cb; cbv zeta.
  - unfold CB.execute. destruct (CB.state cb) eqn:Hst.
    2: destruct (Z.ltb_spec (now w) (CB.nextAttempt cb)); [left; cbn; auto |].
    all: right; rewrite CB_try_fn_eq, He; cbn; auto.
  - unfold AP.execute. destruct (AP.state cb) eqn:Hst.
    2: destruct (Z.ltb_spec (now w) (AP.nextAttempt cb)); [left; cbn; auto |].
    all: right; rewrite AP_try_fn_eq, He; cbn; auto.
Qed.

(** One [execute] call never lowers [successCount]. *)
Lemma CB_execute_successCount (cb : CB.CircuitBreaker) fn w :
  CB.successCount cb <= CB.successCount (breaker (CB.execute now cb fn w)).
Proof.
  unfold CB.execute.
  destruct (CB.state cb) eqn:Hst;
    [| destruct (now w <? CB.nextAttempt cb); [cbn; lia |] |];
    rewrite CB_try_fn_eq; destruct (fn w).1; cbn;
    unfold CB.onSuccess, CB.onFailure; cbn; rewrite ?Hst; cbn;
    try destruct (_ >=? _); cbn; lia.
Qed.

(** [execute] reads [successCount] nowhere: started from two breakers
    that differ in that field only, it ends in two breakers that differ
    in that field only. *)
Lemma CB_execute_ignores_successCount (cb : CB.CircuitBreaker) n fn w :
  let o := CB.execute now cb fn w in
  let o' := CB.execute now (CB.set_successCount n cb) fn w in
  settled o' = settled o /\ world o' = world o /\
  CB.set_successCount 0 (breaker o') = CB.set_successCount 0 (breaker o).
Proof.
  cbv zeta. unfold CB.execute. cbn [CB.state CB.set_successCount CB.nextAttempt].
  destruct (CB.state cb) eqn:Hst;
    [| destruct (now w <? CB.nextAttempt cb); [cbn; auto |] |];
    rewrite !CB_try_fn_eq; destruct (fn w).1; cbn;
    unfold CB.onSuccess, CB.onFailure; cbn; rewrite ?Hst; cbn;
    try destruct (_ >=? _); cbn; auto.
Qed.

Lemma CB_success_inv (cb : CB.CircuitBreaker) fn w v :
  settled (CB.execute now cb fn w) = Return v ->
  CB.failureCount (breaker (CB.execute now cb fn w)) = 0 /\
  CB.successCount (breaker (CB.execute now cb fn w)) = CB.successCount cb + 1.
Proof.
  unfold CB.execute.
  destruct (CB.state cb) eqn:Hst;
    [| destruct (now w <? CB.nextAttempt cb); [discriminate |] |];
    rewrite CB_try_fn_eq; destruct (fn w).1; cbn; try discriminate;
    unfold CB.onSuccess; cbn; rewrite ?Hst; auto.
Qed.

Lemma CB_failure_keeps_successCount (cb : CB.CircuitBreaker) fn w e :
  settled (CB.execute now cb fn w) = Throw e ->
  CB.successCount (breaker (CB.execute now cb fn w)) = CB.successCount cb.
Proof.
  unfold CB.execute.
  destruct (CB.state cb) eqn:Hst;
    [| destruct (now w <? CB.nextAttempt cb); [reflexivity |] |];
    rewrite CB_try_fn_eq; destruct (fn w).1; cbn; try discriminate;
    unfold CB.onFailure; cbn; rewrite ?Hst; cbn;
    try destruct (_ >=? _); reflexivity.
Qed.

(** C8, as the code has it.  An [execute] call that succeeds leaves
    [failureCount] at 0 whatever it was (both breakers) and raises
    [successCount] by one; no sequence of [execute] calls lowers
    [successCount]; [execute] behaves the same whatever [successCount]
    is; [reset] puts [successCount] back to 0.  An [execute] call that
    throws, because the operation failed or because the call was
    rejected while OPEN, leaves [successCount] as it was.  So, after any
    sequence of [execute] and [reset] calls, [successCount] has grown by
    the number of calls fulfilled since the last [reset], or is that
    number when there was a [reset]: on a breaker from the constructor
    it is the number of successes since construction or the last
    [reset]. *)
Theorem success_resets_failures_and_is_counted fn w :
  (forall (cb : CB.CircuitBreaker) v,
      settled (CB.execute now cb fn w) = Return v ->
      CB.failureCount (breaker (CB.execute now cb fn w)) = 0 /\
      CB.successCount (breaker (CB.execute now cb fn w))
      = CB.successCount cb + 1) /\
  (forall (cb : AP.CircuitBreaker) v,
      settled (AP.execute now cb fn w) = Return v ->
      AP.failureCount (breaker (AP.execute now cb fn w)) = 0) /\
  (forall (cb : CB.CircuitBreaker) (calls : list (Call World V)),
      CB.successCount cb <= CB.successCount (CB.execute_calls now cb calls)) /\
  (forall (cb : CB.CircuitBreaker) n,
      let o := CB.execute now cb fn w in
      let o' := CB.execute now (CB.set_successCount n cb) fn w in
      settled o' = settled o /\ world o' = world o /\
      CB.set_successCount 0 (breaker o') = CB.set_successCount 0 (breaker o)) /\
  (forall cb : CB.CircuitBreaker, CB.successCount (CB.reset cb) = 0) /\
  (forall (cb : CB.CircuitBreaker) e,
      settled (CB.execute now cb fn w) = Throw e ->
      CB.successCount (breaker (CB.execute now cb fn w)) = CB.successCount cb) /\
  (forall (cb : CB.CircuitBreaker) (actions : list (CB.Action World V)),
      fold_left (CB.tally now) actions (cb, CB.successCount cb)
      = (fold_left (CB.perform now) actions cb,
         CB.successCount (fold_left (CB.perform now) actions cb))).
Proof.
  split; [| split; [| split; [| split; [| split; [| split]]]]].
  - intros cb v Hv. exact (CB_success_inv cb fn w v Hv).
  - intros cb v. unfold AP.execute.
    destruct (AP.state cb) eqn:Hst;
      [| destruct (now w <? AP.nextAttempt cb); [discriminate |] |];
      rewrite AP_try_fn_eq; destruct (fn w).1; cbn; try discriminate;
      reflexivity.
  - intros cb calls. revert cb.
    induction calls as [|c calls IH]; intros cb; [cbn; lia |].
    cbn. etransitivity; [apply (CB_execute_successCount cb c.2 c.1) |].
    apply IH.
  - intros cb n. apply CB_execute_ignores_successCount.
  - reflexivity.
  - intros cb e. apply CB_failure_keeps_successCount.
  - intros cb actions. revert cb.
    induction actions as [|a actions IH]; intros cb; [reflexivity |].
    cbn [fold_left]. rewrite <- IH. f_equal.
    destruct a as [c |]; [| reflexivity].
    unfold CB.tally, CB.perform. cbn [fst snd]. f_equal.
    destruct (settled (CB.execute now cb c.2 c.1)) as [v | e] eqn:Hs.
    + symmetry. apply (CB_success_inv cb c.2 c.1 v Hs).
    + symmetry. apply (CB_failure_keeps_successCount cb c.2 c.1 e Hs).
Qed.

(** C9.  With a fallback configured: when the operation throws and
    that very failure opens the breaker (threshold reached while CLOSED,
    or a failed trial after the OPEN period), [execute] settles as the
    fallback does, run on the world the operation left, and the
    operation's error is not thrown again.  More generally the fallback
    answers every error of [super.execute] after which the breaker is
    OPEN. *)
Theorem fallback_answers_the_opening_failure
    (this : CB.CircuitBreakerWithFallback) (fallback : Operation World V)
    fn w e :
  CB.fallbackFn this = Some fallback ->
  (let o := CB.CircuitBreakerWithFallback_execute now this fn w in
   (fn w).1 = Throw e ->
   (CB.state (CB.super this) = CLOSED /\
    CB.threshold (CB.super this) <= CB.failureCount (CB.super this) + 1) \/
   (CB.state (CB.super this) = OPEN /\
    CB.nextAttempt (CB.super this) <= now w) ->
   settled o = (fallback (fn w).2).1 /\
   world o = (fallback (fn w).2).2 /\
   CB.state (CB.super (breaker o)) = OPEN /\
   CB.nextAttempt (CB.super (breaker o))
   = now (fn w).2 + CB.timeout (CB.super this)) /\
  (let o := CB.CircuitBreakerWithFallback_execute now this fn w in
   let o1 := CB.execute now (CB.super this) fn w in
   settled o1 = Throw e -> CB.state (breaker o1) = OPEN ->
   settled o = (fallback (world o1)).1 /\
   world o = (fallback (world o1)).2 /\
   CB.super (breaker o) = breaker o1).
Proof.
  intros Hfb. split; cbv zeta.
  - intros Hfn Htrip.
    assert (Hexec : CB.execute now (CB.super this) fn w
                    = mkOutcome (Throw e)
                        (CB.onFailure now
                           (match CB.state (CB.super this) with
                            | OPEN => CB.set_state HALF_OPEN (CB.super this)
                            | _ => CB.super this
                            end) (fn w).2) (fn w).2).
    { unfold CB.execute.
      destruct Htrip as [[Hst Hc] | [Hst Hc]]; rewrite Hst.
      - now rewrite CB_try_fn_eq, Hfn.
      - destruct (Z.ltb_spec (now w) (CB.nextAttempt (CB.super this))); [lia |].
        now rewrite CB_try_fn_eq, Hfn. }
    assert (Hopen : CB.state (breaker (CB.execute now (CB.super this) fn w)) = OPEN
                    /\ CB.nextAttempt (breaker (CB.execute now (CB.super this) fn w))
                       = now (fn w).2 + CB.timeout (CB.super this)).
    { rewrite Hexec. cbn [breaker]. unfold CB.onFailure.
      destruct Htrip as [[Hst Hc] | [Hst Hc]]; rewrite Hst; cbn.
      - rewrite Hst.
        destruct (Z.geb_spec (CB.failureCount (CB.super this) + 1)
                    (CB.threshold (CB.super this))); [cbn; auto | lia].
      - auto. }
    unfold CB.CircuitBreakerWithFallback_execute.
    destruct Hopen as [Ho Hn]. rewrite Ho, Hfb.
    rewrite Hexec in *. cbn [settled world breaker] in *.
    destruct (fallback (fn w).2) as [r w']. cbn. auto.
  - intros Hthrow Hopen.
    unfold CB.CircuitBreakerWithFallback_execute.
    rewrite Hthrow, Hopen, Hfb.
    destruct (fallback _) as [r w']. cbn. auto.
Qed.

End BreakerClaims.

(** ** Rate limiters: histories and the shape of the loop *)

Section LimiterLemmas.

Context {V : Type}.
Implicit Types (s : Loop V) (h : list (Entry V)) (ev : Event (V := V)).






Lemma pacing_config (rl : RateLimiter) :
  pacing rl = pacing (new_RateLimiter (maxRequests rl) (timeWindow rl)).
Proof. reflexivity. Qed.












End LimiterLemmas.

(** ** Rate limiters: failing operations *)

Section LimiterFailures.

Context {V : Type}.
Implicit Types (s : Loop V) (item : Item) (error : Error).

(** The second limiter on an error that is not the rate-limit signal,
    and the first limiter on any error: [reject(error)], then the pacing
    timer; the queue is not touched. *)
Lemma MyOwnCodes_settle_other s i item error :
  awaiting s !! i = Some item ->
  MyOwnCodes.is_rate_limit error = false ->
  MyOwnCodes.step s (Settle i (Throw error))
  = Some {| this := this s; awaiting := delete i (awaiting s);
            timers := timers s ++ [pacing (this s)];
            history := history s ++ [Rejected (handle item) error;
                                     TimerSet (pacing (this s))] |}.
Proof.
  intros Hi Hno. unfold MyOwnCodes.step, step. rewrite Hi.
  unfold MyOwnCodes.processQueue_resume. rewrite Hno.
  unfold MyOwnCodes.waitAndRetry, setTimeout, record. cbn.
  now rewrite <- app_assoc.
Qed.





(** A stuck limiter stays stuck: whatever is submitted is queued, and
    nothing is called, settled or timed any more. *)
Lemma MyOwnCodes_stuck_forever (evs : list (Event (V := V))) :
  forall s s',
    stuck s -> MyOwnCodes.run s evs = Some s' ->
    stuck s' /\ history s' = history s /\
    queue (this s') = queue (this s) ++ Settlement.submitted_items evs.
Proof.
  induction evs as [|ev evs IH]; intros s s' Hstuck Hrun.
  - cbn in Hrun. injection Hrun as <-. cbn. now rewrite app_nil_r.
  - pose proof Hstuck as (Haw & Htm & Hp).
    unfold MyOwnCodes.run in Hrun. cbn [run] in Hrun.
    destruct ev as [item | i c | i n | j]; unfold step in Hrun at 1;
      rewrite ?Haw, ?Htm in Hrun; try discriminate.
    destruct (IH (processQueue (push item s)) s') as (Hst & Hh & Hq);
      [| exact Hrun |].
    + unfold processQueue, push, stuck. cbn. rewrite Hp. cbn. auto.
    + split; [exact Hst |]. rewrite Hh, Hq.
      unfold processQueue, push. cbn. rewrite Hp. cbn.
      now rewrite <- app_assoc.
Qed.




(** C10.  The limiter of src/myOwnCodes/mock-server.js takes the retry
    branch exactly for an error that has a response whose status is 429.
    For an error with no response, and so for
    [new Error("Rate limit exceeded")], it calls [reject] with the
    error, sets the pacing timer, and leaves the queue as it is: the
    item is in no queue and no activation any more. *)
Theorem plain_errors_are_rejected s i item error :
  (MyOwnCodes.is_rate_limit error = true
   <-> exists r, response error = Some r /\ status r = 429) /\
  (awaiting s !! i = Some item -> response error = None ->
   exists s', MyOwnCodes.step s (Settle i (Throw error)) = Some s' /\
              history s' = history s ++ [Rejected (handle item) error;
                                         TimerSet (pacing (this s))] /\
              queue (this s') = queue (this s) /\
              awaiting s' = delete i (awaiting s)) /\
  (awaiting s !! i = Some item ->
   exists s', MyOwnCodes.step s
                (Settle i (Throw MyOwnCodes.rate_limit_exceeded)) = Some s' /\
              history s' = history s
                           ++ [Rejected (handle item) MyOwnCodes.rate_limit_exceeded;
                               TimerSet (pacing (this s))] /\
              queue (this s') = queue (this s) /\
              awaiting s' = delete i (awaiting s)).
Proof.
  split; [| split].
  - unfold MyOwnCodes.is_rate_limit. destruct (response error) as [r|].
    + rewrite Z.eqb_eq. split; [eauto |].
      intros (r' & Hr & Hs). now injection Hr as ->.
    + split; [discriminate |]. intros (r' & Hr & _). discriminate.
  - intros Hi Hnone. eexists. split.
    + apply MyOwnCodes_settle_other; [eassumption |].
      unfold MyOwnCodes.is_rate_limit. now rewrite Hnone.
    + cbn. auto.
  - intros Hi. eexists. split.
    + apply MyOwnCodes_settle_other; [eassumption | reflexivity].
    + cbn. auto.
Qed.

End LimiterFailures.

(** ** The cache *)

Section CacheClaims.

Context {V : Type}.
Variable null : V.

(** C7.  [get] on a key that is not in the map returns [null] and
    changes nothing; [get] at a time strictly after the entry's [expiry]
    returns [null] and deletes the entry; [set] stores the value with
    expiry [now + ttl] whatever was there before; and [get] after [set],
    at any time up to that expiry, returns the value and changes
    nothing. *)
Theorem cache_get_and_set (c : Cache.APICache V) (k : string) (v : V) (t : Z) :
  (Cache.cache c !! k = None -> Cache.get null c k t = (null, c)) /\
  (forall item,
      Cache.cache c !! k = Some item -> Cache.expiry item < t ->
      Cache.get null c k t
      = (null, {| Cache.cache := delete k (Cache.cache c);
                  Cache.ttl := Cache.ttl c |}) /\
      Cache.cache (Cache.get null c k t).2 !! k = None) /\
  Cache.cache (Cache.set c k v t) !! k
  = Some {| Cache.data := v; Cache.expiry := t + Cache.ttl c |} /\
  Cache.ttl (Cache.set c k v t) = Cache.ttl c /\
  (forall t',
      t' <= t + Cache.ttl c ->
      Cache.get null (Cache.set c k v t) k t' = (v, Cache.set c k v t)).
Proof.
  split; [| split; [| split; [| split]]].
  - intros Hnone. unfold Cache.get. now rewrite Hnone.
  - intros item Hsome Hlt. unfold Cache.get. rewrite Hsome.
    destruct (Z.gtb_spec t (Cache.expiry item)); [| lia].
    split; [reflexivity |]. cbn. apply lookup_delete_eq.
  - cbn. apply lookup_insert_eq.
  - reflexivity.
  - intros t' Hle. unfold Cache.get. cbn. rewrite lookup_insert_eq. cbn.
    destruct (Z.gtb_spec t' (t + Cache.ttl c)); [lia | reflexivity].
Qed.

End CacheClaims.

(** ** The claims on the scenario of the tests *)

Lemma AP_reachable_execute_calls {World V : Type} (now : World -> Z)
    (calls : list (Call World V)) :
  forall cb : AP.CircuitBreaker,
    AP.reachable now cb (V := V) ->
    AP.reachable now (AP.execute_calls now cb calls) (V := V).
Proof.
  induction calls as [|c calls IH]; intros cb Hr; [exact Hr |].
  cbn. apply IH. now apply AP.reachable_execute.
Qed.

(** Three failures at threshold 3: CLOSED after two, OPEN after the third
    with [nextAttempt] 210 + 5000. *)
Lemma threshold_failures_open_the_circuit_witness :
  forallb is_failure Scenario.three_failures = true /\
  CB.state Scenario.tripped = OPEN /\
  CB.nextAttempt Scenario.tripped = 210 + 5000 /\
  CB.state (CB.execute_calls Stub.clock Scenario.fresh
              (take 2 Scenario.three_failures)) = CLOSED /\
  AP.state Scenario.tripped_short = OPEN /\
  AP.nextAttempt Scenario.tripped_short = 210 + 5000.
Proof.
  split; [reflexivity |].
  destruct (threshold_failures_open_the_circuit Stub.clock
              [Scenario.failing 0; Scenario.failing 100] (Scenario.failing 200)
              eq_refl) as [Hfull Hshort].
  destruct (Hfull Scenario.fresh eq_refl eq_refl eq_refl) as (H1 & H2 & H3).
  destruct (Hshort Scenario.fresh_short eq_refl eq_refl eq_refl) as (H4 & H5 & _).
  split; [exact H1 |]. split; [exact H2 |].
  split; [apply (H3 2%nat); cbn; lia |].
  split; [exact H4 | exact H5].
Defined.

(** A call at 1000 ms on the tripped breakers: rejected, nothing moved. *)
Lemma open_circuit_fails_fast_witness :
  CB.state Scenario.tripped = OPEN /\
  Stub.clock (Stub.at_time 1000) < CB.nextAttempt Scenario.tripped /\
  CB.execute Stub.clock Scenario.tripped (Stub.simulateFailingAPI false 10)
    (Stub.at_time 1000)
  = mkOutcome (Throw CB.circuit_open_error) Scenario.tripped (Stub.at_time 1000) /\
  AP.execute Stub.clock Scenario.tripped_short (Stub.simulateFailingAPI false 10)
    (Stub.at_time 1000)
  = mkOutcome (Throw AP.circuit_open_error) Scenario.tripped_short
      (Stub.at_time 1000).
Proof.
  destruct (open_circuit_fails_fast Stub.clock (Stub.simulateFailingAPI false 10)
              (Stub.at_time 1000)) as [Hfull Hshort].
  split; [reflexivity |]. split; [reflexivity |].
  split; [apply Hfull; reflexivity | apply Hshort; reflexivity].
Defined.

(** A call at 6000 ms on the tripped breakers: the stub is called once;
    it succeeds and the breaker closes, or fails and the breaker reopens
    until 6010 + 5000. *)
Lemma half_open_trial_witness :
  CB.state Scenario.tripped = OPEN /\
  CB.nextAttempt Scenario.tripped <= Stub.clock (Stub.at_time 6000) /\
  AP.reachable Stub.clock Scenario.tripped_short (V := string) /\
  (let o := CB.execute Stub.clock Scenario.tripped
              (Stub.simulateFailingAPI false 10) (Stub.at_time 6000) in
   Stub.callCount (world o) = 1%nat /\
   CB.state (breaker o) = CLOSED /\ CB.failureCount (breaker o) = 0) /\
  (let o := AP.execute Stub.clock Scenario.tripped_short
              (Stub.simulateFailingAPI true 10) (Stub.at_time 6000) in
   Stub.callCount (world o) = 1%nat /\
   AP.state (breaker o) = OPEN /\ AP.nextAttempt (breaker o) = 6010 + 5000).
Proof.
  assert (Hr : AP.reachable Stub.clock Scenario.tripped_short (V := string)).
  { apply AP_reachable_execute_calls. apply AP.reachable_new. }
  split; [reflexivity |]. split; [vm_compute; discriminate |]. split; [exact Hr |].
  split; cbv zeta.
  - destruct (half_open_trial Stub.clock (Stub.simulateFailingAPI false 10)
                (Stub.at_time 6000)) as [Hfull _].
    destruct (Hfull Scenario.tripped eq_refl ltac:(vm_compute; discriminate)) as (Hw & _ & Hst).
    split; [now rewrite Hw | exact Hst].
  - destruct (half_open_trial Stub.clock (Stub.simulateFailingAPI true 10)
                (Stub.at_time 6000)) as [_ Hshort].
    destruct (Hshort Scenario.tripped_short Hr eq_refl ltac:(vm_compute; discriminate))
      as (Hw & _ & Hst).
    split; [now rewrite Hw | exact Hst].
Defined.

(** The stub's error comes back as it was thrown, after one call. *)
Lemma failures_pass_through_witness :
  let fn := Stub.simulateFailingAPI true 10 in
  let e := new_Error "API Error: Service unavailable" in
  (fn (Stub.at_time 0)).1 = Throw e /\
  settled (CB.execute Stub.clock Scenario.fresh fn (Stub.at_time 0)) = Throw e /\
  Stub.callCount (world (CB.execute Stub.clock Scenario.fresh fn (Stub.at_time 0)))
  = 1%nat /\
  settled (AP.execute Stub.clock Scenario.fresh_short fn (Stub.at_time 0)) = Throw e.
Proof.
  cbv zeta. split; [reflexivity |].
  destruct (failures_pass_through Stub.clock (Stub.simulateFailingAPI true 10)
              (Stub.at_time 0) (new_Error "API Error: Service unavailable")
              eq_refl) as [Hfull Hshort].
  destruct (Hfull Scenario.fresh) as [(Hst & _) | (Hw & Hs)]; [discriminate |].
  destruct (Hshort Scenario.fresh_short) as [(Hst' & _) | (_ & Hs')];
    [discriminate |].
  split; [exact Hs |]. split; [now rewrite Hw | exact Hs'].
Defined.

(** Two failures, then a success: [failureCount] back to 0 and
    [successCount] 1; a failure after that leaves [successCount] at 1.
    And over a success, a failure, a success, a [reset] and a success,
    [successCount] ends at 1, the number of successes since the
    [reset]. *)
Lemma success_resets_failures_and_is_counted_witness :
  let cb := CB.execute_calls Stub.clock Scenario.fresh
              [Scenario.failing 0; Scenario.failing 100] in
  let fn := Stub.simulateFailingAPI false 10 in
  let cb1 := breaker (CB.execute Stub.clock cb fn (Stub.at_time 200)) in
  let actions : list (CB.Action Stub.World string) :=
    [CB.Execute (Scenario.working 0); CB.Execute (Scenario.failing 100);
     CB.Execute (Scenario.working 200); CB.Reset;
     CB.Execute (Scenario.working 300)] in
  settled (CB.execute Stub.clock cb fn (Stub.at_time 200)) = Return "API response"%string /\
  CB.failureCount cb = 2 /\
  CB.failureCount cb1 = 0 /\
  CB.successCount cb1 = 1 /\
  settled (CB.execute Stub.clock cb1 (Stub.simulateFailingAPI true 10)
             (Stub.at_time 300))
  = Throw (new_Error "API Error: Service unavailable") /\
  CB.successCount (breaker (CB.execute Stub.clock cb1
                              (Stub.simulateFailingAPI true 10)
                              (Stub.at_time 300))) = 1 /\
  fold_left (CB.tally Stub.clock) actions (Scenario.fresh, 0)
  = (fold_left (CB.perform Stub.clock) actions Scenario.fresh, 1).
Proof.
  cbv zeta. split; [reflexivity |]. split; [reflexivity |].
  destruct (success_resets_failures_and_is_counted Stub.clock
              (Stub.simulateFailingAPI false 10) (Stub.at_time 200))
    as (Hsucc & _ & _ & _ & _ & _ & Htally).
  destruct (success_resets_failures_and_is_counted Stub.clock
              (Stub.simulateFailingAPI true 10) (Stub.at_time 300))
    as (_ & _ & _ & _ & _ & Hfail & _).
  split; [| split].
  - exact (proj1 (Hsucc (CB.execute_calls Stub.clock Scenario.fresh
                           [Scenario.failing 0; Scenario.failing 100])
                    "API response"%string eq_refl)).
  - exact (proj2 (Hsucc (CB.execute_calls Stub.clock Scenario.fresh
                           [Scenario.failing 0; Scenario.failing 100])
                    "API response"%string eq_refl)).
  - split; [reflexivity |]. split.
    + exact (Hfail (breaker
                      (CB.execute Stub.clock
                         (CB.execute_calls Stub.clock Scenario.fresh
                            [Scenario.failing 0; Scenario.failing 100])
                         (Stub.simulateFailingAPI false 10) (Stub.at_time 200)))
               (new_Error "API Error: Service unavailable") eq_refl).
    + exact (Htally Scenario.fresh
               [CB.Execute (Scenario.working 0); CB.Execute (Scenario.failing 100);
                CB.Execute (Scenario.working 200); CB.Reset;
                CB.Execute (Scenario.working 300)]).
Defined.

(** C8 as stated fails: one success, then [reset], and [successCount]
    has gone from 1 to 0. *)
Lemma reset_lowers_successCount :
  let cb1 := CB.perform Stub.clock Scenario.fresh
               (CB.Execute (Scenario.working 0)) in
  let cb2 := CB.perform Stub.clock cb1 (CB.Reset : CB.Action Stub.World string) in
  CB.successCount cb1 = 1 /\ CB.successCount cb2 = 0 /\
  ~ CB.successCount cb1 <= CB.successCount cb2.
Proof. cbv zeta. split; [reflexivity |]. split; [reflexivity |]. cbn. lia. Qed.

(** The second failure of the fallback breaker (threshold 2) opens it and
    is answered with the cached quote. *)
Lemma fallback_answers_the_opening_failure_witness :
  let fn := Stub.simulateFailingAPI true 10 in
  let o := CB.CircuitBreakerWithFallback_execute Stub.clock
             Scenario.advancedBreaker fn (Stub.at_time 100) in
  CB.fallbackFn Scenario.advancedBreaker = Some Stub.fallbackFn /\
  (fn (Stub.at_time 100)).1 = Throw (new_Error "API Error: Service unavailable") /\
  CB.state (CB.super Scenario.advancedBreaker) = CLOSED /\
  settled o = Return "150.00 (cached)"%string /\
  CB.state (CB.super (breaker o)) = OPEN.
Proof.
  cbv zeta. split; [reflexivity |]. split; [reflexivity |].
  split; [reflexivity |].
  destruct (fallback_answers_the_opening_failure Stub.clock
              Scenario.advancedBreaker Stub.fallbackFn
              (Stub.simulateFailingAPI true 10) (Stub.at_time 100)
              (new_Error "API Error: Service unavailable") eq_refl)
    as [Htrip _].
  destruct (Htrip eq_refl) as (Hs & _ & Hst & _).
  - left. split; [reflexivity | vm_compute; discriminate].
  - split; [exact Hs | exact Hst].
Defined.




(** [new Error("Rate limit exceeded")] reaching the limiter: rejected,
    not queued again. *)
Lemma plain_errors_are_rejected_witness :
  let item := {| requestFn := 0; handle := 10 |} in
  let s : Loop string := processQueue (push item (start MyOwnCodes.rateLimiter)) in
  awaiting s !! 0%nat = Some item /\
  response MyOwnCodes.rate_limit_exceeded = None /\
  exists s',
    MyOwnCodes.step s (Settle 0 (Throw MyOwnCodes.rate_limit_exceeded)) = Some s' /\
    history s' = history s ++ [Rejected 10 MyOwnCodes.rate_limit_exceeded;
                               TimerSet (pacing (this s))] /\
    queue (this s') = queue (this s) /\
    awaiting s' = delete 0%nat (awaiting s).
Proof.
  cbv zeta.
  destruct (plain_errors_are_rejected
              (processQueue (push {| requestFn := 0; handle := 10 |}
                               (start MyOwnCodes.rateLimiter)) : Loop string)
              0 {| requestFn := 0; handle := 10 |}
              MyOwnCodes.rate_limit_exceeded)
    as (_ & Hplain & _).
  split; [reflexivity |]. split; [reflexivity |].
  exact (Hplain eq_refl eq_refl).
Defined.

(** A quote cached at 1000 ms with ttl 60000: served at 61000, gone at
    61001. *)
Lemma cache_get_and_set_witness :
  let c : Cache.APICache (option string) := Cache.new_APICache 60000 in
  let quote := Some "IBM 150.00"%string in
  Cache.cache c !! "IBM"%string = None /\
  Cache.get None c "IBM" 1000 = (None, c) /\
  61000 <= 1000 + Cache.ttl c /\
  Cache.get None (Cache.set c "IBM" quote 1000) "IBM" 61000
  = (quote, Cache.set c "IBM" quote 1000) /\
  Cache.expiry {| Cache.data := quote; Cache.expiry := 61000 |} < 61001 /\
  (Cache.get None (Cache.set c "IBM" quote 1000) "IBM" 61001).1 = None /\
  Cache.cache (Cache.get None (Cache.set c "IBM" quote 1000) "IBM" 61001).2
    !! "IBM"%string = None.
Proof.
  cbv zeta.
  destruct (cache_get_and_set None (Cache.new_APICache 60000) "IBM"
              (Some "IBM 150.00"%string) 1000)
    as (Hmiss & _ & Hset & _ & Hhit).
  destruct (cache_get_and_set None
              (Cache.set (Cache.new_APICache 60000) "IBM"
                 (Some "IBM 150.00"%string) 1000)
              "IBM" (Some "IBM 150.00"%string) 61001)
    as (_ & Hexp & _).
  split; [reflexivity |]. split; [apply Hmiss; reflexivity |].
  split; [vm_compute; discriminate |]. split; [apply Hhit; vm_compute; discriminate |].
  split; [reflexivity |].
  destruct (Hexp _ Hset eq_refl) as [Hget Hgone].
  split; [now rewrite Hget | exact Hgone].
Defined.

(** * Further properties of the modelled code *)

(** ** Breakers *)

Section BreakerLifetime.

Context {World V : Type}.
Variable now : World -> Z.
Implicit Types (w : World) (fn : Operation World V) (c : Call World V).

Lemma CB_execute_config (cb : CB.CircuitBreaker) fn w :
  CB.threshold (breaker (CB.execute now cb fn w)) = CB.threshold cb /\
  CB.timeout (breaker (CB.execute now cb fn w)) = CB.timeout cb.
Proof.
  unfold CB.execute.
  destruct (CB.state cb) eqn:Hst;
    [| destruct (now w <? CB.nextAttempt cb); [cbn; auto |] |];
    rewrite CB_try_fn_eq; destruct (fn w).1; cbn;
    unfold CB.onSuccess, CB.onFailure; cbn; rewrite ?Hst; cbn;
    try destruct (_ >=? _); cbn; auto.
Qed.

(** What [execute] leaves behind, by the state it started from: either
    CLOSED with the count below the threshold or at 0, or OPEN. *)
Lemma CB_execute_state (cb : CB.CircuitBreaker) fn w :
  let cb' := breaker (CB.execute now cb fn w) in
  (CB.state cb' = CLOSED /\ CB.failureCount cb' = 0) \/
  (CB.state cb' = CLOSED /\ CB.state cb = CLOSED /\
   CB.failureCount cb' = CB.failureCount cb + 1 /\
   CB.failureCount cb' < CB.threshold cb) \/
  (CB.state cb' = OPEN /\ CB.state cb = CLOSED /\
   CB.failureCount cb' = CB.failureCount cb + 1 /\
   CB.threshold cb <= CB.failureCount cb') \/
  (CB.state cb' = OPEN /\ CB.state cb <> CLOSED /\
   CB.failureCount cb <= CB.failureCount cb').
Proof.
  cbv zeta. unfold CB.execute.
  destruct (CB.state cb) eqn:Hst.
  - rewrite CB_try_fn_eq. destruct (fn w).1; cbn.
    + left. unfold CB.onSuccess. cbn. rewrite Hst. auto.
    + unfold CB.onFailure. cbn. rewrite Hst.
      destruct (Z.geb_spec (CB.failureCount cb + 1) (CB.threshold cb)); cbn.
      * right. right. left. repeat split; auto; lia.
      * right. left. repeat split; auto; lia.
  - destruct (now w <? CB.nextAttempt cb).
    + cbn. right. right. right. rewrite Hst. repeat split; [congruence | lia].
    + rewrite CB_try_fn_eq. destruct (fn w).1; cbn.
      * left. auto.
      * right. right. right. repeat split; [congruence | lia].
  - rewrite CB_try_fn_eq. destruct (fn w).1; cbn.
    + left. unfold CB.onSuccess. cbn. rewrite Hst. auto.
    + unfold CB.onFailure. cbn. rewrite Hst. cbn.
      right. right. right. repeat split; [congruence | lia].
Qed.

(** X1.  HALF_OPEN is never where a call leaves a breaker: after
    [execute] the full breaker is CLOSED or OPEN whatever state it
    started in, and so is the short breaker from every state its class
    can produce. *)
Theorem half_open_is_never_left_behind fn w :
  (forall cb : CB.CircuitBreaker,
      CB.state (breaker (CB.execute now cb fn w)) <> HALF_OPEN) /\
  (forall cb : AP.CircuitBreaker,
      AP.reachable now cb (V := V) ->
      AP.state (breaker (AP.execute now cb fn w)) <> HALF_OPEN).
Proof.
  split.
  - intros cb.
    destruct (CB_execute_state cb fn w) as [H | [H | [H | H]]];
      destruct H as [-> _]; discriminate.
  - intros cb Hr.
    pose proof (AP_reachable_count now cb Hr) as Hcount.
    unfold AP.execute. destruct (AP.state cb) eqn:Hst.
    + rewrite AP_try_fn_eq. destruct (fn w).1; cbn; [discriminate |].
      unfold AP.onFailure. cbn. destruct (_ >=? _); cbn;
        [discriminate | rewrite Hst; discriminate].
    + destruct (now w <? AP.nextAttempt cb); [cbn; rewrite Hst; discriminate |].
      rewrite AP_try_fn_eq. destruct (fn w).1; cbn; [discriminate |].
      unfold AP.onFailure. cbn.
      destruct (Z.geb_spec (AP.failureCount cb + 1) (AP.threshold cb)); cbn;
        [discriminate |].
      assert (AP.threshold cb <= AP.failureCount cb) by (apply Hcount; discriminate).
      lia.
    + rewrite AP_try_fn_eq. destruct (fn w).1; cbn; [discriminate |].
      unfold AP.onFailure. cbn.
      destruct (Z.geb_spec (AP.failureCount cb + 1) (AP.threshold cb)); cbn;
        [discriminate |].
      assert (AP.threshold cb <= AP.failureCount cb) by (apply Hcount; discriminate).
      lia.
Qed.

(** X2.  State and count never disagree: a breaker made by the
    constructor with a positive threshold and then driven by [execute]
    and [reset] in any order is either CLOSED with
    [0 <= failureCount < threshold] or OPEN with
    [failureCount >= threshold]. *)
Theorem closed_exactly_below_threshold (cb : CB.CircuitBreaker) :
  Lifetime.reachable now cb (V := V) ->
  0 < CB.threshold cb ->
  (CB.state cb = CLOSED /\ 0 <= CB.failureCount cb < CB.threshold cb) \/
  (CB.state cb = OPEN /\ CB.threshold cb <= CB.failureCount cb).
Proof.
  induction 1 as [thr tmo nm w0 | cb fn w Hr IH | cb Hr IH]; intros Hpos.
  - left. cbn in *. split; [reflexivity | lia].
  - destruct (CB_execute_config cb fn w) as [Hthr _]. rewrite Hthr in *.
    specialize (IH Hpos).
    destruct (CB_execute_state cb fn w) as [H | [H | [H | H]]].
    + destruct H as [Hs Hc]. left. rewrite Hs, Hc. split; [reflexivity | lia].
    + destruct H as (Hs & Hs0 & Hc & Hlt). left. rewrite Hs.
      split; [reflexivity |]. destruct IH as [[_ Hr0] | [Ho _]]; [lia |].
      congruence.
    + destruct H as (Hs & Hs0 & Hc & Hge). right. now rewrite Hs.
    + destruct H as (Hs & Hs0 & Hle). right. rewrite Hs.
      split; [reflexivity |]. destruct IH as [[Hc _] | [_ Hge]]; [congruence | lia].
  - left. cbn in *. split; [reflexivity | lia].
Qed.

(** X3.  The fallback breaker.  While OPEN before [nextAttempt] it
    answers with the fallback, run on the world of the call, and neither
    the breaker nor the operation is touched.  Without a fallback it is
    the plain breaker.  And an error that does come out of it is either
    the fallback's own, or the operation's with the breaker not OPEN
    afterwards. *)
Theorem fallback_stands_in_while_open
    (this : CB.CircuitBreakerWithFallback) fn w :
  (forall fallback,
      CB.fallbackFn this = Some fallback ->
      CB.state (CB.super this) = OPEN ->
      now w < CB.nextAttempt (CB.super this) ->
      CB.CircuitBreakerWithFallback_execute now this fn w
      = mkOutcome (fallback w).1 this (fallback w).2) /\
  (CB.fallbackFn this = None ->
   let o := CB.CircuitBreakerWithFallback_execute now this fn w in
   let o1 := CB.execute now (CB.super this) fn w in
   settled o = settled o1 /\ world o = world o1 /\
   CB.super (breaker o) = breaker o1) /\
  (forall fallback e,
      CB.fallbackFn this = Some fallback ->
      let o := CB.CircuitBreakerWithFallback_execute now this fn w in
      let o1 := CB.execute now (CB.super this) fn w in
      settled o = Throw e ->
      (settled o1 = Throw e /\ CB.state (breaker o1) <> OPEN) \/
      (CB.state (breaker o1) = OPEN /\ (fallback (world o1)).1 = Throw e)).
Proof.
  split; [| split].
  - intros fallback Hfb Hst Hlt.
    unfold CB.CircuitBreakerWithFallback_execute, CB.execute.
    rewrite Hst. destruct (Z.ltb_spec (now w) (CB.nextAttempt (CB.super this)));
      [| lia].
    cbn. rewrite Hst, Hfb. destruct (fallback w) as [r w']. cbn.
    destruct this as [sup fb]. cbn in *. now subst.
  - intros Hnone. cbv zeta. unfold CB.CircuitBreakerWithFallback_execute.
    rewrite Hnone.
    destruct (settled (CB.execute now (CB.super this) fn w)) as [v | e] eqn:Hs;
      [cbn; auto |].
    destruct (CB.state (breaker (CB.execute now (CB.super this) fn w)));
      cbn; auto.
  - intros fallback e Hfb. cbv zeta.
    unfold CB.CircuitBreakerWithFallback_execute. rewrite Hfb.
    destruct (settled (CB.execute now (CB.super this) fn w)) as [v | e1] eqn:Hs;
      [discriminate |].
    destruct (CB.state (breaker (CB.execute now (CB.super this) fn w))) eqn:Hst.
    + cbn. intros [= ->]. left. split; [reflexivity | discriminate].
    + destruct (fallback _) as [r w'] eqn:Hf. cbn. intros ->. right.
      split; [reflexivity |]. reflexivity.
    + cbn. intros [= ->]. left. split; [reflexivity | discriminate].
Qed.

(** X4.  Calls made while a breaker is OPEN and the clock is before
    [nextAttempt] leave it exactly as it was, however many they are: the
    open period is not extended by calling.  Both breakers. *)
Theorem rejected_calls_change_nothing (calls : list (Call World V)) :
  (forall cb : CB.CircuitBreaker,
      CB.state cb = OPEN ->
      Forall (fun c => now c.1 < CB.nextAttempt cb) calls ->
      CB.execute_calls now cb calls = cb) /\
  (forall cb : AP.CircuitBreaker,
      AP.state cb = OPEN ->
      Forall (fun c => now c.1 < AP.nextAttempt cb) calls ->
      AP.execute_calls now cb calls = cb).
Proof.
  split; intros cb Hst Hall.
  - induction Hall as [|c calls Hc Hall IH]; [reflexivity |].
    assert (Hrej : breaker (CB.execute now cb c.2 c.1) = cb).
    { unfold CB.execute. rewrite Hst.
      destruct (Z.ltb_spec (now c.1) (CB.nextAttempt cb)); [reflexivity | lia]. }
    unfold CB.execute_calls in *. cbn [fold_left]. now rewrite Hrej.
  - induction Hall as [|c calls Hc Hall IH]; [reflexivity |].
    assert (Hrej : breaker (AP.execute now cb c.2 c.1) = cb).
    { unfold AP.execute. rewrite Hst.
      destruct (Z.ltb_spec (now c.1) (AP.nextAttempt cb)); [reflexivity | lia]. }
    unfold AP.execute_calls in *. cbn [fold_left]. now rewrite Hrej.
Qed.

End BreakerLifetime.

(** ** Caches *)

Section CacheUse.

Context {World V : Type}.
Variable now : World -> Z.
Variable null : V.
Variable truthy : V -> bool.

(** X5.  [invalidate] and [clear]: after [invalidate(k)] a [get(k)]
    returns [null] at any time, whatever was set before; after [clear]
    every [get] does; and neither read changes the cache. *)
Theorem invalidate_and_clear_forget (c : Cache.APICache V) (k k' : string) (v : V)
    (t t' : Z) :
  Cache.get null (CacheUse.invalidate (Cache.set c k v t) k) k t'
  = (null, CacheUse.invalidate (Cache.set c k v t) k) /\
  CacheUse.invalidate (Cache.set c k v t) k = CacheUse.invalidate c k /\
  Cache.get null (Cache.clear (Cache.set c k v t)) k' t'
  = (null, Cache.clear c).
Proof.
  split; [| split].
  - unfold Cache.get, CacheUse.invalidate. cbn. now rewrite lookup_delete_eq.
  - unfold CacheUse.invalidate. cbn. now rewrite delete_insert_eq.
  - unfold Cache.get, Cache.clear. cbn. now rewrite lookup_empty.
Qed.

Lemma get_other_key (c c' : Cache.APICache V) (k' : string) (t' : Z) :
  Cache.cache c' !! k' = Cache.cache c !! k' ->
  (Cache.get null c' k' t').1 = (Cache.get null c k' t').1.
Proof.
  intros Heq. unfold Cache.get. rewrite Heq.
  destruct (Cache.cache c !! k') as [item|]; [| reflexivity].
  destruct (t' >? Cache.expiry item); reflexivity.
Qed.

(** X6.  What is done to one key shows on no other key: a [get] of [k']
    answers the same before and after a [set], an [invalidate] or a
    [get] (evicting or not) of a different key [k]. *)
Theorem other_keys_are_untouched (c : Cache.APICache V) (k k' : string) (v : V)
    (t t' : Z) :
  k <> k' ->
  (Cache.get null (Cache.set c k v t) k' t').1 = (Cache.get null c k' t').1 /\
  (Cache.get null (CacheUse.invalidate c k) k' t').1 = (Cache.get null c k' t').1 /\
  (Cache.get null (Cache.get null c k t).2 k' t').1 = (Cache.get null c k' t').1.
Proof.
  intros Hne. split; [| split]; apply get_other_key.
  - cbn. now apply lookup_insert_ne.
  - cbn. now apply lookup_delete_ne.
  - unfold Cache.get. destruct (Cache.cache c !! k) as [item|]; [| reflexivity].
    destruct (t >? Cache.expiry item); [| reflexivity].
    cbn. now apply lookup_delete_ne.
Qed.

(** X7.  Reads and the lifetime of an entry.  A [get] up to the expiry
    returns the data and leaves the cache as it was.  A [get] after the
    expiry removes the entry for good: every later [get] returns [null],
    also one made with a clock reading that is not past the expiry. *)
Theorem eviction_is_for_good (c : Cache.APICache V) (k : string)
    (item : Cache.Item V) (t t' : Z) :
  Cache.cache c !! k = Some item ->
  (t <= Cache.expiry item ->
   Cache.get null c k t = (Cache.data item, c)) /\
  (Cache.expiry item < t ->
   Cache.get null (Cache.get null c k t).2 k t'
   = (null, (Cache.get null c k t).2)).
Proof.
  intros Hk. split; intros Ht; unfold Cache.get at 1; try unfold Cache.get at 1;
    rewrite ?Hk.
  - destruct (Z.gtb_spec t (Cache.expiry item)); [lia | reflexivity].
  - unfold Cache.get. rewrite Hk.
    destruct (Z.gtb_spec t (Cache.expiry item)); [| lia].
    cbn. now rewrite lookup_delete_eq.
Qed.

(** X8.  [getCachedStock] asks upstream once per lifetime of an entry:
    after a call that had to fetch and got truthy data, a second call
    whose clock is within [ttl] of the end of the first returns that data
    with no request made and the cache as it was.  Data that is falsy is
    stored but never served: the second call runs its request again. *)
Theorem cached_stock_is_not_fetched_twice (c : Cache.APICache V)
    (symbol : string) (first second : Operation World V) (w w2 : World)
    (data : V) :
  truthy (Cache.get null c symbol (now w)).1 = false ->
  (first w).1 = Return data ->
  now w2 <= now (first w).2 + Cache.ttl c ->
  let r1 := CacheUse.getCachedStock now null truthy c symbol first w in
  let r2 := CacheUse.getCachedStock now null truthy (CacheUse.store r1)
              symbol second w2 in
  CacheUse.answer r1 = Return data /\
  (truthy data = true ->
   r2 = CacheUse.mkFetched (Return data) (CacheUse.store r1) w2) /\
  (truthy data = false ->
   CacheUse.answer r2 = (second w2).1 /\ CacheUse.after r2 = (second w2).2).
Proof.
  intros Hmiss Hfirst Hle. cbv zeta.
  destruct (Cache.get null c symbol (now w)) as [cached c1] eqn:Hget.
  destruct (first w) as [r w'] eqn:Hf. cbn in Hmiss, Hfirst, Hle. subst r.
  assert (Hr1 : CacheUse.getCachedStock now null truthy c symbol first w
                = CacheUse.mkFetched (Return data)
                    (Cache.set c1 symbol data (now w')) w').
  { unfold CacheUse.getCachedStock. now rewrite Hget, Hmiss, Hf. }
  assert (Httl : Cache.ttl c1 = Cache.ttl c).
  { unfold Cache.get in Hget. destruct (Cache.cache c !! symbol) as [it|].
    - destruct (now w >? Cache.expiry it); injection Hget as <- <-; reflexivity.
    - injection Hget as <- <-; reflexivity. }
  assert (Hget2 : Cache.get null (Cache.set c1 symbol data (now w')) symbol (now w2)
                  = (data, Cache.set c1 symbol data (now w'))).
  { unfold Cache.get. cbn. rewrite lookup_insert_eq. cbn. rewrite Httl.
    destruct (Z.gtb_spec (now w2) (now w' + Cache.ttl c)); [lia | reflexivity]. }
  rewrite Hr1. cbn [CacheUse.answer CacheUse.store].
  split; [reflexivity |]. split; intros Htr.
  - unfold CacheUse.getCachedStock. now rewrite Hget2, Htr.
  - unfold CacheUse.getCachedStock. rewrite Hget2, Htr.
    destruct (second w2) as [[d | e] w3]; cbn; auto.
Qed.

(** X9.  [getCachedStock] on a live truthy entry makes no request and
    changes nothing; on a miss whose request fails it throws the
    request's error and stores nothing, so the next call fetches again. *)
Theorem cached_stock_hit_and_failed_miss (c : Cache.APICache V)
    (symbol : string) (axios_get : Operation World V) (w : World) :
  (forall item,
      Cache.cache c !! symbol = Some item ->
      now w <= Cache.expiry item -> truthy (Cache.data item) = true ->
      CacheUse.getCachedStock now null truthy c symbol axios_get w
      = CacheUse.mkFetched (Return (Cache.data item)) c w) /\
  (forall e,
      truthy null = false ->
      Cache.cache c !! symbol = None ->
      (axios_get w).1 = Throw e ->
      CacheUse.getCachedStock now null truthy c symbol axios_get w
      = CacheUse.mkFetched (Throw e) c (axios_get w).2).
Proof.
  split.
  - intros item Hk Hle Htr. unfold CacheUse.getCachedStock, Cache.get.
    rewrite Hk. destruct (Z.gtb_spec (now w) (Cache.expiry item)); [lia |].
    now rewrite Htr.
  - intros e Hnull Hk Hfail. unfold CacheUse.getCachedStock, Cache.get.
    rewrite Hk, Hnull. destruct (axios_get w) as [r w']. cbn in Hfail.
    now subst r.
Qed.

End CacheUse.

(** ** Limiters: the order in which promises are settled *)

Section LimiterSettlement.

Context {V : Type}.
Implicit Types (s : Loop V) (h : list (Entry V)).

Lemma settled_handles_app h1 h2 :
  Settlement.settled_handles (h1 ++ h2)
  = Settlement.settled_handles h1 ++ Settlement.settled_handles h2.
Proof.
  induction h1 as [|[] h1 IH]; cbn; rewrite ?IH; reflexivity.
Qed.

Lemma submitted_handles_cons ev (evs : list (Event (V := V))) :
  Settlement.submitted_handles (ev :: evs)
  = Settlement.submitted_handles [ev] ++ Settlement.submitted_handles evs.
Proof. destruct ev; reflexivity. Qed.

Lemma orderly_start (rl : RateLimiter) :
  queue rl = [] -> processing rl = false -> Settlement.orderly [] (start rl : Loop V).
Proof.
  intros Hq Hp. unfold Settlement.orderly, phase_of, Settlement.pending_handles. cbn.
  rewrite Hq, Hp. cbn. eauto.
Qed.

(** The second limiter stays orderly on every event but a rejection with
    [null] or [undefined], which leaves it stuck with the promise of the
    item in flight lost. *)
Lemma MyOwnCodes_step_orderly sub s ev s' :
  Settlement.orderly sub s ->
  MyOwnCodes.step s ev = Some s' ->
  match ev with
  | SettleNullish _ _ => Settlement.abandoned sub s'
  | _ => Settlement.orderly (sub ++ Settlement.submitted_handles [ev]) s'
  end.
Proof.
  intros ([ph Hph] & Hidle & Hsub) Hstep.
  destruct s as [[mr tw q p] aw tm h].
  unfold Settlement.orderly, Settlement.abandoned, stuck, phase_of,
    Settlement.pending_handles in *. cbn in *.
  unfold MyOwnCodes.step, step in Hstep.
  destruct aw as [|a [|a' aw]]; destruct tm as [|t [|t' tm]];
    destruct p; try discriminate;
    destruct ev as [item | [|[|i]] c | [|[|i]] n | [|[|j]]]; cbn in Hstep;
    try discriminate; injection Hstep as <-; subst sub.
  all: try (destruct c as [v | e];
            unfold MyOwnCodes.processQueue_resume; cbn;
            try destruct (MyOwnCodes.is_rate_limit e); cbn).
  all: try (rewrite (Hidle eq_refl) in *).
  all: unfold timer_callback, processQueue, push,
         MyOwnCodes.processQueue_nullish; cbn;
    try destruct q; cbn;
    rewrite ?settled_handles_app, ?map_app, ?app_nil_r; cbn;
    rewrite ?app_nil_r, <- ?app_assoc; cbn;
    repeat split; eauto; try discriminate.
Qed.

Lemma MyOwnCodes_step_abandoned sub s ev s' :
  Settlement.abandoned sub s ->
  MyOwnCodes.step s ev = Some s' ->
  Settlement.abandoned (sub ++ Settlement.submitted_handles [ev]) s'.
Proof.
  intros ((Haw & Htm & Hp) & lost & Hsub) Hstep.
  destruct s as [[mr tw q p] aw tm h]. cbn in *. subst aw tm p.
  unfold MyOwnCodes.step, step in Hstep.
  destruct ev as [item | i c | i n | j]; cbn in Hstep; try discriminate.
  injection Hstep as <-. unfold processQueue, push. cbn.
  split; [repeat split; reflexivity |].
  exists lost. cbn. rewrite <- Hsub, map_app, <- app_assoc. reflexivity.
Qed.

Lemma MockServer_step_orderly sub s ev s' :
  Settlement.orderly sub s ->
  MockServer.step s ev = Some s' ->
  Settlement.orderly (sub ++ Settlement.submitted_handles [ev]) s'.
Proof.
  intros ([ph Hph] & Hidle & Hsub) Hstep.
  destruct s as [[mr tw q p] aw tm h].
  unfold Settlement.orderly, phase_of, Settlement.pending_handles in *. cbn in *.
  unfold MockServer.step, step in Hstep.
  destruct aw as [|a [|a' aw]]; destruct tm as [|t [|t' tm]];
    destruct p; try discriminate;
    destruct ev as [item | [|[|i]] c | [|[|i]] n | [|[|j]]]; cbn in Hstep;
    try discriminate; injection Hstep as <-; subst sub.
  all: try (destruct c as [v | e];
            unfold MockServer.processQueue_resume; cbn).
  all: try (rewrite (Hidle eq_refl) in *).
  all: unfold timer_callback, processQueue, push,
         MockServer.processQueue_nullish; cbn;
    try destruct q; cbn;
    rewrite ?settled_handles_app, ?map_app, ?app_nil_r; cbn;
    rewrite ?app_nil_r, <- ?app_assoc; cbn;
    repeat split; eauto; try discriminate.
Qed.

(** Over a run of the second limiter: orderly as long as [quiet] is
    true, that is until an awaited operation is rejected with [null] or
    [undefined], and abandoned from then on. *)
Lemma MyOwnCodes_run_orderly (evs : list (Event (V := V))) :
  forall sub (quiet : bool) s s',
    (if quiet then Settlement.orderly sub s else Settlement.abandoned sub s) ->
    MyOwnCodes.run s evs = Some s' ->
    if quiet && Settlement.no_nullish evs
    then Settlement.orderly (sub ++ Settlement.submitted_handles evs) s'
    else Settlement.abandoned (sub ++ Settlement.submitted_handles evs) s'.
Proof.
  induction evs as [|ev evs IH]; intros sub quiet s s' Hinv Hrun.
  - cbn in Hrun. injection Hrun as <-. cbn.
    rewrite app_nil_r, andb_true_r. exact Hinv.
  - unfold MyOwnCodes.run in Hrun. cbn [run] in Hrun.
    destruct (step MyOwnCodes.processQueue_resume MyOwnCodes.processQueue_nullish
                s ev) as [s1|] eqn:Hstep; [| discriminate].
    rewrite submitted_handles_cons, app_assoc.
    replace (quiet && Settlement.no_nullish (ev :: evs))
      with ((quiet && Settlement.no_nullish [ev]) && Settlement.no_nullish evs)
      by (cbn; now rewrite andb_true_r, andb_assoc).
    apply (IH _ _ s1 s'); [| exact Hrun].
    destruct quiet.
    + pose proof (MyOwnCodes_step_orderly sub s ev s1 Hinv Hstep) as Hnext.
      destruct ev as [item | i c | i n | j]; cbn; try exact Hnext.
      now rewrite app_nil_r.
    + cbn. eapply MyOwnCodes_step_abandoned; eauto.
Qed.

Lemma MockServer_run_orderly (evs : list (Event (V := V))) :
  forall sub s s',
    Settlement.orderly sub s -> MockServer.run s evs = Some s' ->
    Settlement.orderly (sub ++ Settlement.submitted_handles evs) s'.
Proof.
  induction evs as [|ev evs IH]; intros sub s s' Hinv Hrun.
  - cbn in Hrun. injection Hrun as <-. cbn. now rewrite app_nil_r.
  - unfold MockServer.run in Hrun. cbn in Hrun.
    destruct (step MockServer.processQueue_resume MockServer.processQueue_nullish
                s ev) as [s1|] eqn:Hstep; [| discriminate].
    rewrite submitted_handles_cons, app_assoc.
    apply (IH _ s1 s'); [| exact Hrun].
    eapply MockServer_step_orderly; eauto.
Qed.

Lemma MyOwnCodes_run_from_start mr tw (evs : list (Event (V := V))) s :
  MyOwnCodes.run (start (new_RateLimiter mr tw)) evs = Some s ->
  if Settlement.no_nullish evs
  then Settlement.orderly (Settlement.submitted_handles evs) s
  else Settlement.abandoned (Settlement.submitted_handles evs) s.
Proof.
  intros Hrun.
  apply (MyOwnCodes_run_orderly evs [] true (start (new_RateLimiter mr tw)) s);
    [| exact Hrun].
  exact (orderly_start (new_RateLimiter mr tw) eq_refl eq_refl).
Qed.

(** X10.  Promises are settled in the order they were handed out, each
    at most once.  In every run of the limiter of src/mock-server.js,
    and in every run of the limiter of src/myOwnCodes/mock-server.js,
    retries included, in which no awaited operation is rejected with
    [null] or [undefined], the promises resolved or rejected so far,
    then the one in flight, then those queued, are the promises of the
    submissions in submission order.  In the other runs of the second
    limiter exactly one promise is lost in between: it is neither
    settled nor pending, and the limiter is stuck. *)
Theorem promises_settle_in_submission_order mr tw
    (evs : list (Event (V := V))) s :
  (MockServer.run (start (new_RateLimiter mr tw)) evs = Some s ->
   Settlement.settled_handles (history s) ++ Settlement.pending_handles s
   = Settlement.submitted_handles evs) /\
  (MyOwnCodes.run (start (new_RateLimiter mr tw)) evs = Some s ->
   (Settlement.no_nullish evs = true ->
    Settlement.settled_handles (history s) ++ Settlement.pending_handles s
    = Settlement.submitted_handles evs) /\
   (Settlement.no_nullish evs = false ->
    stuck s /\
    exists lost,
      Settlement.settled_handles (history s) ++ lost :: Settlement.pending_handles s
      = Settlement.submitted_handles evs)).
Proof.
  split; intros Hrun.
  - apply (MockServer_run_orderly evs [] _ s
             (orderly_start (new_RateLimiter mr tw) eq_refl eq_refl) Hrun).
  - pose proof (MyOwnCodes_run_from_start mr tw evs s Hrun) as Hinv.
    destruct (Settlement.no_nullish evs).
    + split; [| discriminate]. intros _. apply Hinv.
    + split; [discriminate |]. intros _.
      destruct Hinv as (Hstuck & lost & Hsub). split; [exact Hstuck |].
      exists lost. unfold Settlement.pending_handles.
      destruct Hstuck as (-> & _). exact Hsub.
Qed.

(** X11.  No item waits in an idle limiter.  In every run of the limiter
    of src/mock-server.js, and in every run of the limiter of
    src/myOwnCodes/mock-server.js in which no awaited operation is
    rejected with [null] or [undefined], whenever no operation is in
    flight and no timer is pending, the queue is empty and [processing]
    is false.  In the other runs of the second limiter [processing] is
    true although nothing is in flight and no timer is pending, and what
    is submitted from then on waits in the queue for good. *)
Theorem idle_limiter_has_empty_queue mr tw (evs : list (Event (V := V))) s :
  awaiting s = [] -> timers s = [] ->
  (MockServer.run (start (new_RateLimiter mr tw)) evs = Some s ->
   queue (this s) = [] /\ processing (this s) = false) /\
  (MyOwnCodes.run (start (new_RateLimiter mr tw)) evs = Some s ->
   (Settlement.no_nullish evs = true ->
    queue (this s) = [] /\ processing (this s) = false) /\
   (Settlement.no_nullish evs = false ->
    processing (this s) = true /\
    forall more s',
      MyOwnCodes.run s more = Some s' ->
      history s' = history s /\
      queue (this s') = queue (this s) ++ Settlement.submitted_items more)).
Proof.
  intros Haw Htm.
  assert (Hidle : forall sub, Settlement.orderly sub s ->
                              queue (this s) = [] /\ processing (this s) = false).
  { intros sub ([ph Hph] & Hq & _). unfold phase_of in *.
    rewrite Haw, Htm in *. destruct (processing (this s)); [discriminate |].
    split; [now apply Hq | reflexivity]. }
  split; intros Hrun.
  - eapply Hidle.
    apply (MockServer_run_orderly evs [] _ s
             (orderly_start (new_RateLimiter mr tw) eq_refl eq_refl) Hrun).
  - pose proof (MyOwnCodes_run_from_start mr tw evs s Hrun) as Hinv.
    destruct (Settlement.no_nullish evs).
    + split; [| discriminate]. intros _. eapply Hidle. exact Hinv.
    + split; [discriminate |]. intros _.
      destruct Hinv as (Hstuck & _). split; [apply Hstuck |].
      intros more s' Hmore.
      destruct (MyOwnCodes_stuck_forever more s s' Hstuck Hmore)
        as (_ & Hh & Hq).
      auto.
Qed.

End LimiterSettlement.

(** ** Retry loops *)

Section RetryLoops.

Context {V : Type}.
Variable hasNote : V -> bool.
Variable upstream : nat -> Completion V.

Lemma backoff_cons a n :
  Retry.backoff a (S n) = 2 ^ (a + 1) * 1000 :: Retry.backoff (a + 1) n.
Proof.
  unfold Retry.backoff. cbn [seq map]. f_equal.
  rewrite <- seq_shift, map_map. apply map_ext. intros k.
  f_equal. f_equal. lia.
Qed.

Lemma failed_step fuel maxRetries a r ws :
  a + 1 < maxRetries ->
  Retry.failed hasNote (upstream r) = true ->
  Retry.getStockWithRetry_loop hasNote upstream (S fuel) maxRetries a r ws
  = Retry.getStockWithRetry_loop hasNote upstream fuel maxRetries (a + 1) (S r)
      (ws ++ [2 ^ (a + 1) * 1000]).
Proof.
  intros Hlt Hf. cbn [Retry.getStockWithRetry_loop].
  destruct (Z.ltb_spec a maxRetries); [| lia].
  destruct (Z.geb_spec (a + 1) maxRetries); [lia |].
  unfold Retry.failed in Hf.
  destruct (upstream r) as [d | e]; [now rewrite Hf | reflexivity].
Qed.

Lemma getStockWithRetry_loop_success i :
  forall fuel maxRetries a r ws d,
    (i < fuel)%nat -> a + Z.of_nat i < maxRetries ->
    (forall j, (j < i)%nat -> Retry.failed hasNote (upstream (r + j)) = true) ->
    upstream (r + i) = Return d -> hasNote d = false ->
    Retry.getStockWithRetry_loop hasNote upstream fuel maxRetries a r ws
    = Some (Retry.mkRun (Return (Some d)) (S (r + i)) (ws ++ Retry.backoff a i)).
Proof.
  induction i as [|i IH]; intros fuel maxRetries a r ws d Hfuel Hlt Hfail Hok Hnote.
  - destruct fuel as [|fuel]; [lia |]. rewrite Nat.add_0_r in *.
    cbn [Retry.getStockWithRetry_loop].
    destruct (Z.ltb_spec a maxRetries); [| lia].
    rewrite Hok, Hnote. cbn. now rewrite app_nil_r.
  - destruct fuel as [|fuel]; [lia |].
    rewrite failed_step; [| lia | rewrite <- (Nat.add_0_r r); apply Hfail; lia].
    rewrite (IH fuel maxRetries (a + 1) (S r) _ d); try lia.
    + rewrite backoff_cons, <- app_assoc. cbn. do 3 f_equal. lia.
    + intros j Hj. replace (S r + j)%nat with (r + S j)%nat by lia.
      apply Hfail. lia.
    + now replace (S r + i)%nat with (r + S i)%nat by lia.
    + assumption.
Qed.

Lemma getStockWithRetry_loop_exhausted n :
  forall fuel maxRetries a r ws,
    (n < fuel)%nat -> a + Z.of_nat n + 1 = maxRetries ->
    (forall j, (j <= n)%nat -> Retry.failed hasNote (upstream (r + j)) = true) ->
    Retry.getStockWithRetry_loop hasNote upstream fuel maxRetries a r ws
    = Some (Retry.mkRun (Throw (Retry.caught (upstream (r + n))))
              (S (r + n)) (ws ++ Retry.backoff a n)).
Proof.
  induction n as [|n IH]; intros fuel maxRetries a r ws Hfuel Hmax Hfail.
  - destruct fuel as [|fuel]; [lia |]. rewrite Nat.add_0_r in *.
    specialize (Hfail 0%nat (Nat.le_refl _)). rewrite Nat.add_0_r in Hfail.
    cbn [Retry.getStockWithRetry_loop].
    destruct (Z.ltb_spec a maxRetries); [| lia].
    destruct (Z.geb_spec (a + 1) maxRetries); [| lia].
    unfold Retry.failed in Hfail. unfold Retry.caught.
    destruct (upstream r) as [d | e]; cbn; rewrite ?Hfail, ?app_nil_r; reflexivity.
  - destruct fuel as [|fuel]; [lia |].
    rewrite failed_step; [| lia | rewrite <- (Nat.add_0_r r); apply Hfail; lia].
    rewrite (IH fuel maxRetries (a + 1) (S r)); try lia.
    + rewrite backoff_cons, <- app_assoc. cbn.
      replace (r + S n)%nat with (S (r + n)) by lia. reflexivity.
    + intros j Hj. replace (S r + j)%nat with (r + S j)%nat by lia.
      apply Hfail. lia.
Qed.

(** X12.  [getStockWithRetry] of src/mock-server.js, for every upstream.
    With [maxRetries <= 0] it makes no request and returns [undefined].
    Otherwise it returns the data of the first request, among the first
    [maxRetries], that succeeds without a [Note], after waiting 2000,
    4000, ... ms between the requests before it; and when all
    [maxRetries] requests fail it throws what the last one failed with
    (the rate-limit error for a [Note]), with no wait after that last
    failure. *)
Theorem getStockWithRetry_first_success_or_last_error (maxRetries : Z) :
  (maxRetries <= 0 ->
   Retry.getStockWithRetry hasNote upstream maxRetries
   = Some (Retry.mkRun (Return None) 0 [])) /\
  (forall i d,
      Z.of_nat i < maxRetries ->
      (forall j, (j < i)%nat -> Retry.failed hasNote (upstream j) = true) ->
      upstream i = Return d -> hasNote d = false ->
      Retry.getStockWithRetry hasNote upstream maxRetries
      = Some (Retry.mkRun (Return (Some d)) (S i) (Retry.backoff 0 i))) /\
  (0 < maxRetries ->
   (forall j, Z.of_nat j < maxRetries ->
              Retry.failed hasNote (upstream j) = true) ->
   Retry.getStockWithRetry hasNote upstream maxRetries
   = Some (Retry.mkRun
             (Throw (Retry.caught (upstream (Z.to_nat maxRetries - 1))))
             (Z.to_nat maxRetries)
             (Retry.backoff 0 (Z.to_nat maxRetries - 1)))).
Proof.
  unfold Retry.getStockWithRetry. split; [| split].
  - intros Hle. cbn [Retry.getStockWithRetry_loop].
    destruct (Z.ltb_spec 0 maxRetries); [lia | reflexivity].
  - intros i d Hi Hfail Hok Hnote.
    rewrite (getStockWithRetry_loop_success i _ maxRetries 0 0%nat [] d);
      auto; lia.
  - intros Hpos Hfail.
    rewrite (getStockWithRetry_loop_exhausted (Z.to_nat maxRetries - 1)
               _ maxRetries 0 0%nat []); try lia.
    + cbn [app Nat.add]. do 2 f_equal. lia.
    + intros j Hj. apply Hfail. lia.
Qed.

(** The second [getStockWithRetry]: every outcome is a return. *)
Lemma getStockWithRetry_own_loop_returns fuel :
  forall maxRetries delay a r ws,
    (Z.to_nat (maxRetries - a) < fuel)%nat ->
    exists run,
      Retry.getStockWithRetry_own_loop hasNote upstream fuel maxRetries delay a r ws
      = Some run /\
      (exists v, Retry.result run = Return v) /\
      (Retry.requests run <= r + Z.to_nat (maxRetries - a))%nat /\
      (exists n, Retry.waits run = ws ++ replicate n delay /\
                 (r + n <= Retry.requests run)%nat).
Proof.
  induction fuel as [|fuel IH]; intros maxRetries delay a r ws Hfuel; [lia |].
  cbn [Retry.getStockWithRetry_own_loop].
  destruct (Z.ltb_spec a maxRetries).
  - assert (Hrec : forall a', a < a' ->
              exists run,
                Retry.getStockWithRetry_own_loop hasNote upstream fuel maxRetries
                  delay a' (S r) (ws ++ [delay]) = Some run /\
                (exists v, Retry.result run = Return v) /\
                (Retry.requests run <= r + Z.to_nat (maxRetries - a))%nat /\
                (exists n, Retry.waits run = ws ++ replicate n delay /\
                           (r + n <= Retry.requests run)%nat)).
    { intros a' Ha'.
      destruct (IH maxRetries delay a' (S r) (ws ++ [delay]))
        as (run & Hrun & Hret & Hreq & n & Hw & Hn); [lia |].
      exists run. split; [exact Hrun |]. split; [exact Hret |].
      split; [lia |]. exists (S n). split; [| lia].
      rewrite Hw, <- app_assoc. reflexivity. }
    destruct (upstream r) as [d | e].
    + destruct (hasNote d); [apply Hrec; lia |].
      eexists. split; [reflexivity |]. cbn.
      split; [eauto |]. split; [lia |]. exists 0%nat. cbn.
      split; [now rewrite app_nil_r | lia].
    + apply Hrec. lia.
  - eexists. split; [reflexivity |]. cbn.
    split; [eauto |]. split; [lia |]. exists 0%nat. cbn.
    split; [now rewrite app_nil_r | lia].
Qed.

Lemma getStockWithRetry_own_loop_all_throw n :
  forall fuel maxRetries delay a r ws,
    (n < fuel)%nat -> maxRetries - a = Z.of_nat n ->
    (forall j, exists e, upstream j = Throw e) ->
    Retry.getStockWithRetry_own_loop hasNote upstream fuel maxRetries delay a r ws
    = Some (Retry.mkRun (Return None) (r + n) (ws ++ replicate n delay)).
Proof.
  induction n as [|n IH]; intros fuel maxRetries delay a r ws Hfuel Hrem Hall;
    (destruct fuel as [|fuel]; [lia |]); cbn [Retry.getStockWithRetry_own_loop].
  - destruct (Z.ltb_spec a maxRetries); [lia |].
    cbn. now rewrite Nat.add_0_r, app_nil_r.
  - destruct (Z.ltb_spec a maxRetries); [| lia].
    destruct (Hall r) as [e ->].
    rewrite (IH fuel maxRetries delay (a + 1) (S r)); auto; try lia.
    cbn. rewrite <- app_assoc. cbn. do 2 f_equal. lia.
Qed.

Lemma getStockWithRetry_own_loop_all_notes k :
  forall fuel maxRetries delay a r ws,
    (k < fuel)%nat ->
    maxRetries - a = 2 * Z.of_nat k \/ maxRetries - a = 2 * Z.of_nat k - 1 ->
    (forall j, exists d, upstream j = Return d /\ hasNote d = true) ->
    Retry.getStockWithRetry_own_loop hasNote upstream fuel maxRetries delay a r ws
    = Some (Retry.mkRun (Return None) (r + k) (ws ++ replicate k delay)).
Proof.
  induction k as [|k IH]; intros fuel maxRetries delay a r ws Hfuel Hrem Hall;
    (destruct fuel as [|fuel]; [lia |]); cbn [Retry.getStockWithRetry_own_loop].
  - destruct (Z.ltb_spec a maxRetries); [lia |].
    cbn. now rewrite Nat.add_0_r, app_nil_r.
  - destruct (Z.ltb_spec a maxRetries); [| lia].
    destruct (Hall r) as (d & -> & ->).
    rewrite (IH fuel maxRetries delay (a + 1 + 1) (S r)); auto; try lia.
    cbn. rewrite <- app_assoc. cbn. do 2 f_equal. lia.
Qed.

Lemma getStockWithRetry_own_loop_returns_nothing maxRetries delay :
  maxRetries <= 0 ->
  Retry.getStockWithRetry_own_loop hasNote upstream (S (Z.to_nat maxRetries))
    maxRetries delay 0 0%nat []
  = Some (Retry.mkRun (Return None) 0 []).
Proof.
  intros Hle. cbn [Retry.getStockWithRetry_own_loop].
  destruct (Z.ltb_spec 0 maxRetries); [lia | reflexivity].
Qed.

(** X13.  [getStockWithRetry] of src/myOwnCodes/mock-server.js never
    throws, whatever upstream does: it returns data or [undefined] after
    at most [maxRetries] requests, having waited [delay] after each
    failure and nothing else.  When every request throws it makes
    [maxRetries] requests, waits after each, the last too, and returns
    [undefined]: the error is lost.  When every answer carries a [Note]
    each request uses up two attempts, so only half of [maxRetries]
    (rounded up) requests are made. *)
Theorem own_getStockWithRetry_never_throws (maxRetries delay : Z) :
  (exists run,
      Retry.getStockWithRetry_own hasNote upstream maxRetries delay = Some run /\
      (exists v, Retry.result run = Return v) /\
      (Retry.requests run <= Z.to_nat maxRetries)%nat /\
      (exists n, Retry.waits run = replicate n delay /\
                 (n <= Retry.requests run)%nat)) /\
  ((forall j, exists e, upstream j = Throw e) ->
   Retry.getStockWithRetry_own hasNote upstream maxRetries delay
   = Some (Retry.mkRun (Return None) (Z.to_nat maxRetries)
             (replicate (Z.to_nat maxRetries) delay))) /\
  ((forall j, exists d, upstream j = Return d /\ hasNote d = true) ->
   Retry.getStockWithRetry_own hasNote upstream maxRetries delay
   = Some (Retry.mkRun (Return None) (Z.to_nat ((maxRetries + 1) / 2))
             (replicate (Z.to_nat ((maxRetries + 1) / 2)) delay))).
Proof.
  unfold Retry.getStockWithRetry_own. split; [| split].
  - destruct (getStockWithRetry_own_loop_returns (S (Z.to_nat maxRetries))
                maxRetries delay 0 0%nat [])
      as (run & Hrun & Hret & Hreq & n & Hw & Hn); [lia |].
    exists run. split; [exact Hrun |]. split; [exact Hret |].
    split; [rewrite Z.sub_0_r in Hreq; exact Hreq |].
    exists n. split; [exact Hw | lia].
  - intros Hall.
    destruct (Z.le_gt_cases maxRetries 0) as [Hle | Hpos].
    + rewrite (getStockWithRetry_own_loop_returns_nothing maxRetries delay Hle).
      replace (Z.to_nat maxRetries) with 0%nat by lia. reflexivity.
    + now rewrite (getStockWithRetry_own_loop_all_throw (Z.to_nat maxRetries)
                     _ maxRetries delay 0 0%nat []) by (auto; lia).
  - intros Hall.
    destruct (Z.le_gt_cases maxRetries 0) as [Hle | Hpos].
    + rewrite (getStockWithRetry_own_loop_returns_nothing maxRetries delay Hle).
      replace (Z.to_nat ((maxRetries + 1) / 2)) with 0%nat; [reflexivity |].
      assert ((maxRetries + 1) / 2 < 1); [| lia].
      apply Z.div_lt_upper_bound; lia.
    + rewrite (getStockWithRetry_own_loop_all_notes
                 (Z.to_nat ((maxRetries + 1) / 2)) _ maxRetries delay 0 0%nat []);
        auto.
      * assert (0 < (maxRetries + 1) / 2) by (apply Z.div_str_pos; lia).
        assert ((maxRetries + 1) / 2 <= maxRetries)
          by (apply Z.div_le_upper_bound; lia).
        lia.
      * pose proof (Z.div_mod (maxRetries + 1) 2 ltac:(lia)) as Hdm.
        pose proof (Z.mod_pos_bound (maxRetries + 1) 2 ltac:(lia)) as Hb.
        assert (0 <= (maxRetries + 1) / 2) by (apply Z.div_pos; lia).
        rewrite Z2Nat.id by assumption. lia.
Qed.

End RetryLoops.

Section ClientRetry.

Context {V : Type}.
Variable hasNote : V -> bool.
Variable upstream : nat -> Completion V.
Variable clock : nat -> Z.

Lemma fetchWithRetry_loop_never_throws fuel :
  forall symbol maxRetries delay a r ws cache,
    Retry.fetchWithRetry_loop hasNote upstream clock fuel symbol maxRetries
      delay a r ws cache = None \/
    exists cr,
      Retry.fetchWithRetry_loop hasNote upstream clock fuel symbol maxRetries
        delay a r ws cache = Some cr /\
      Retry.result (Retry.run cr) = Return None.
Proof.
  induction fuel as [|fuel IH]; intros symbol maxRetries delay a r ws cache;
    [now left |].
  cbn [Retry.fetchWithRetry_loop].
  destruct (Z.ltb_spec a maxRetries); [| right; eexists; split; reflexivity].
  destruct (Z.geb_spec a maxRetries); [lia |].
  destruct (upstream r) as [d | e]; [destruct (hasNote d) |]; apply IH.
Qed.

Lemma fetchWithRetry_loop_all_good k (data : nat -> V) :
  (forall n, upstream n = Return (data n)) ->
  (forall n, hasNote (data n) = false) ->
  forall fuel symbol maxRetries delay a r ws cache,
    (k < fuel)%nat -> maxRetries - a = Z.of_nat k ->
    exists cache',
      Retry.fetchWithRetry_loop hasNote upstream clock fuel symbol maxRetries
        delay a r ws cache
      = Some (Retry.mkClientRun (Retry.mkRun (Return None) (r + k) ws) cache') /\
      Cache.ttl cache' = Cache.ttl cache /\
      (k = 0%nat -> cache' = cache) /\
      ((0 < k)%nat ->
       Cache.cache cache' !! symbol
       = Some {| Cache.data := data (r + k - 1)%nat;
                 Cache.expiry := clock (r + k - 1)%nat + Cache.ttl cache |}).
Proof.
  intros Hgood Hnote.
  induction k as [|k IH]; intros fuel symbol maxRetries delay a r ws cache Hfuel Hrem;
    (destruct fuel as [|fuel]; [lia |]); cbn [Retry.fetchWithRetry_loop].
  - destruct (Z.ltb_spec a maxRetries); [lia |].
    exists cache. rewrite Nat.add_0_r. repeat split; auto. lia.
  - destruct (Z.ltb_spec a maxRetries); [| lia].
    rewrite Hgood, Hnote.
    destruct (IH fuel symbol maxRetries delay (a + 1) (S r) ws
                (Cache.set cache symbol (data r) (clock r)))
      as (cache' & Hrun & Httl & Hzero & Hpos); try lia.
    exists cache'. rewrite Hrun.
    replace (S r + k)%nat with (r + S k)%nat by lia.
    split; [reflexivity |]. split; [exact Httl |]. split; [lia |].
    intros _. destruct (Nat.eq_dec k 0%nat) as [Hk | Hk].
    + rewrite (Hzero Hk). cbn.
      replace (r + S k - 1)%nat with r by lia. apply lookup_insert_eq.
    + rewrite Hpos by lia.
      replace (S r + k - 1)%nat with (r + S k - 1)%nat by lia.
      reflexivity.
Qed.

Lemma fetchWithRetry_loop_all_failed fuel :
  (forall n, Retry.failed hasNote (upstream n) = true) ->
  forall symbol maxRetries delay a r ws cache,
    a < maxRetries ->
    Retry.fetchWithRetry_loop hasNote upstream clock fuel symbol maxRetries
      delay a r ws cache = None.
Proof.
  intros Hfail.
  induction fuel as [|fuel IH]; intros symbol maxRetries delay a r ws cache Hlt;
    [reflexivity |].
  cbn [Retry.fetchWithRetry_loop].
  destruct (Z.ltb_spec a maxRetries); [| lia].
  destruct (Z.geb_spec a maxRetries); [lia |].
  specialize (Hfail r). unfold Retry.failed in Hfail.
  destruct (upstream r) as [d | e]; [rewrite Hfail |]; now apply IH.
Qed.

(** X14.  [StockAPIClient.fetchWithRetry] of
    src/myOwnCodes/mock-server.js never throws and never returns data:
    however long it runs, it is either still running or has returned
    [undefined].  When every answer is good it does not stop at the
    first: it makes [maxRetries] requests with no wait, stores each
    answer, and returns [undefined] with the last answer in the cache.
    When every request fails it never returns. *)
Theorem own_fetchWithRetry_never_returns_data (cache : Cache.APICache V)
    (symbol : string) (maxRetries delay : Z) :
  (forall fuel,
      Retry.fetchWithRetry hasNote upstream clock fuel cache symbol
        maxRetries delay = None \/
      exists cr,
        Retry.fetchWithRetry hasNote upstream clock fuel cache symbol
          maxRetries delay = Some cr /\
        Retry.result (Retry.run cr) = Return None) /\
  (forall data : nat -> V,
      (forall n, upstream n = Return (data n)) ->
      (forall n, hasNote (data n) = false) ->
      0 < maxRetries ->
      exists cache',
        Retry.fetchWithRetry hasNote upstream clock (S (Z.to_nat maxRetries))
          cache symbol maxRetries delay
        = Some (Retry.mkClientRun
                  (Retry.mkRun (Return None) (Z.to_nat maxRetries) []) cache') /\
        Cache.cache cache' !! symbol
        = Some {| Cache.data := data (Z.to_nat maxRetries - 1)%nat;
                  Cache.expiry := clock (Z.to_nat maxRetries - 1)%nat
                                  + Cache.ttl cache |}) /\
  (0 < maxRetries ->
   (forall n, Retry.failed hasNote (upstream n) = true) ->
   forall fuel,
     Retry.fetchWithRetry hasNote upstream clock fuel cache symbol
       maxRetries delay = None).
Proof.
  unfold Retry.fetchWithRetry. split; [| split].
  - intros fuel. apply fetchWithRetry_loop_never_throws.
  - intros data Hgood Hnote Hpos.
    destruct (fetchWithRetry_loop_all_good (Z.to_nat maxRetries) data Hgood Hnote
                (S (Z.to_nat maxRetries)) symbol maxRetries delay 0 0%nat []
                cache) as (cache' & Hrun & _ & _ & Hlast); try lia.
    exists cache'. split; [exact Hrun |]. apply Hlast. lia.
  - intros Hpos Hfail fuel. now apply fetchWithRetry_loop_all_failed.
Qed.

End ClientRetry.

Section Handler.

Context {V : Type}.
Variable upstream : nat -> Completion V.
Variable retryable : Error -> bool.

Lemma delays_cons (this : Retry.RetryHandler) a n :
  map (fun k => Retry.baseDelay this * 2 ^ (a + Z.of_nat k)) (seq 0 (S n))
  = Retry.baseDelay this * 2 ^ a
    :: map (fun k => Retry.baseDelay this * 2 ^ (a + 1 + Z.of_nat k)) (seq 0 n).
Proof.
  cbn [seq map]. f_equal; [do 2 f_equal; lia |].
  rewrite <- seq_shift, map_map. apply map_ext. intros k.
  do 2 f_equal. lia.
Qed.

Lemma execute_loop_stops i :
  forall fuel (this : Retry.RetryHandler) a last r ws,
    (i < fuel)%nat -> a + Z.of_nat i <= Retry.maxRetries this ->
    (forall j, (j < i)%nat ->
               Retry.retried retryable (upstream (r + j)) = true) ->
    let slept :=
      ws ++ map (fun k => Retry.baseDelay this * 2 ^ (a + Z.of_nat k)) (seq 0 i) in
    (forall v,
        upstream (r + i) = Return v ->
        Retry.execute_loop upstream retryable fuel this a last r ws
        = Some (Retry.mkRun (Retry.Returned v) (S (r + i)) slept)) /\
    (forall e,
        upstream (r + i) = Throw e ->
        retryable e = false \/ a + Z.of_nat i = Retry.maxRetries this ->
        Retry.execute_loop upstream retryable fuel this a last r ws
        = Some (Retry.mkRun (Retry.Thrown (Some e)) (S (r + i)) slept)).
Proof.
  induction i as [|i IH]; intros fuel this a last r ws Hfuel Hle Hretried;
    (destruct fuel as [|fuel]; [lia |]); cbv zeta.
  - rewrite Nat.add_0_r, app_nil_r in *.
    cbn [Retry.execute_loop].
    destruct (Z.leb_spec a (Retry.maxRetries this)); [| lia].
    split; [intros v -> | intros e -> Hstop]; [reflexivity |].
    destruct Hstop as [-> | Hlast]; [reflexivity |].
    replace (a =? Retry.maxRetries this) with true
      by (symmetry; apply Z.eqb_eq; lia).
    now rewrite orb_true_r.
  - assert (Hstep :
      Retry.execute_loop upstream retryable (S fuel) this a last r ws
      = Retry.execute_loop upstream retryable fuel this (a + 1)
          (Retry.retried_error (upstream r)) (S r)
          (ws ++ [Retry.baseDelay this * 2 ^ a])).
    { cbn [Retry.execute_loop].
      destruct (Z.leb_spec a (Retry.maxRetries this)); [| lia].
      specialize (Hretried 0%nat ltac:(lia)). rewrite Nat.add_0_r in Hretried.
      unfold Retry.retried in Hretried. unfold Retry.retried_error.
      destruct (upstream r) as [v | e]; [discriminate |].
      rewrite Hretried. cbn.
      destruct (Z.eqb_spec a (Retry.maxRetries this)); [lia | reflexivity]. }
    rewrite Hstep, delays_cons.
    destruct (IH fuel this (a + 1) (Retry.retried_error (upstream r)) (S r)
                (ws ++ [Retry.baseDelay this * 2 ^ a])) as [Hret Hthrow];
      try lia.
    { intros j Hj. replace (S r + j)%nat with (r + S j)%nat by lia.
      apply Hretried. lia. }
    cbv zeta in Hret, Hthrow. rewrite <- app_assoc in Hret, Hthrow.
    replace (S r + i)%nat with (r + S i)%nat in * by lia.
    split.
    + intros v Hv. now rewrite (Hret v Hv).
    + intros e He Hstop. rewrite (Hthrow e He); [reflexivity |].
      destruct Hstop; [now left | right; lia].
Qed.

(** X15.  [RetryHandler.execute], for every sequence of outcomes of
    [fn].  With a negative [maxRetries] it calls nothing and throws
    [undefined].  Otherwise it goes on while the calls throw retryable
    errors, sleeping [baseDelay], [2 baseDelay], [4 baseDelay], ...
    between them, and stops at the first call, among the first
    [maxRetries + 1], that returns (it returns that value) or that throws
    an error which is not retryable or is the error of call number
    [maxRetries + 1] (it throws that error, without sleeping again). *)
Theorem retry_handler_stops_where_it_should (this : Retry.RetryHandler) :
  (Retry.maxRetries this < 0 ->
   Retry.execute upstream retryable this
   = Some (Retry.mkRun (Retry.Thrown None) 0 [])) /\
  (forall i v,
      Z.of_nat i <= Retry.maxRetries this ->
      (forall j, (j < i)%nat -> Retry.retried retryable (upstream j) = true) ->
      upstream i = Return v ->
      Retry.execute upstream retryable this
      = Some (Retry.mkRun (Retry.Returned v) (S i) (Retry.delays this i))) /\
  (forall i e,
      Z.of_nat i <= Retry.maxRetries this ->
      (forall j, (j < i)%nat -> Retry.retried retryable (upstream j) = true) ->
      upstream i = Throw e ->
      retryable e = false \/ Z.of_nat i = Retry.maxRetries this ->
      Retry.execute upstream retryable this
      = Some (Retry.mkRun (Retry.Thrown (Some e)) (S i) (Retry.delays this i))).
Proof.
  unfold Retry.execute. split; [| split].
  - intros Hneg. cbn [Retry.execute_loop].
    destruct (Z.leb_spec 0 (Retry.maxRetries this)); [lia | reflexivity].
  - intros i v Hi Hretried Hv.
    destruct (execute_loop_stops i (S (S (Z.to_nat (Retry.maxRetries this))))
                this 0 None 0%nat []) as [Hret _];
      [lia | lia | exact Hretried |].
    exact (Hret v Hv).
  - intros i e Hi Hretried He Hstop.
    destruct (execute_loop_stops i (S (S (Z.to_nat (Retry.maxRetries this))))
                this 0 None 0%nat []) as [_ Hthrow];
      [lia | lia | exact Hretried |].
    apply (Hthrow e He). destruct Hstop; [now left | right; lia].
Qed.

End Handler.

(** ** Classifying errors *)

Lemma or_else_not_empty (a : option string) (b : string) :
  b <> ""%string -> ErrorHandling.or_else a b <> ""%string.
Proof.
  intros Hb. unfold ErrorHandling.or_else. destruct a as [s|]; [| exact Hb].
  destruct (String.eqb_spec s ""); [exact Hb | assumption].
Qed.

(** X16.  [isRetryable] and [handleAPIError] agree on every error: the
    errors not retried are exactly those classified "client" with a
    status other than 429 and those classified "unknown", so every
    "timeout", "network" and "server" error is retried.  An error is
    "client" exactly when it has a response with status 400 to 499, and
    the message reported is never empty. *)
Theorem retryable_agrees_with_classification (error : ErrorHandling.AxiosError) :
  let info := ErrorHandling.handleAPIError error in
  (ErrorHandling.isRetryable (ErrorHandling.to_Error error) = false
   <-> (ErrorHandling.type info = "client"%string /\
        ErrorHandling.info_status info <> Some 429) \/
       ErrorHandling.type info = "unknown"%string) /\
  (ErrorHandling.type info = "client"%string
   <-> exists r, ErrorHandling.response error = Some r /\
                 400 <= ErrorHandling.status r < 500) /\
  ErrorHandling.info_message info <> ""%string.
Proof.
  cbv zeta. unfold ErrorHandling.handleAPIError, ErrorHandling.isRetryable,
    ErrorHandling.to_Error. cbn [JS.response JS.status].
  destruct (ErrorHandling.response error) as [r|].
  - cbn [JS.response JS.status]. cbv zeta. set (st := ErrorHandling.status r).
    destruct (Z_lt_le_dec st 400) as [Hlow | Hge];
      [| destruct (Z_lt_le_dec st 500) as [Hlt | Hhigh]].
    + (* below 400: unknown *)
      destruct (Z.geb_spec st 400); [lia |].
      destruct (Z.geb_spec st 500); [lia |].
      destruct (Z.eqb_spec st 429); [lia |].
      cbn. split; [| split].
      * split; [now right | reflexivity].
      * split; [discriminate |]. intros (r' & [= <-] & Hr). fold st in Hr. lia.
      * discriminate.
    + (* 400 to 499: client *)
      destruct (Z.geb_spec st 400); [| lia].
      destruct (Z.ltb_spec st 500); [| lia].
      destruct (Z.geb_spec st 500); [lia |].
      cbn. rewrite orb_false_r. split; [| split].
      * destruct (Z.eqb_spec st 429) as [-> | Hne].
        -- split; [discriminate |].
           intros [[_ Hs] | Hu]; [now contradiction Hs | discriminate].
        -- split; [| reflexivity]. intros _. left.
           split; [reflexivity | congruence].
      * split; [| reflexivity]. intros _. exists r. split; [reflexivity |].
        fold st. lia.
      * repeat apply or_else_not_empty. discriminate.
    + (* 500 and above: server *)
      destruct (Z.geb_spec st 400); [| lia].
      destruct (Z.ltb_spec st 500); [lia |].
      destruct (Z.geb_spec st 500); [| lia].
      cbn. rewrite orb_true_r. split; [| split].
      * split; [discriminate |]. intros [[Hc _] | Hu]; discriminate.
      * split; [discriminate |]. intros (r' & [= <-] & Hr). fold st in Hr. lia.
      * apply or_else_not_empty. discriminate.
  - split; [| split].
    + split; [discriminate |].
      intros [[Hc _] | Hu];
        repeat (destruct (ErrorHandling.code_is error _)); discriminate.
    + split.
      * repeat (destruct (ErrorHandling.code_is error _)); discriminate.
      * intros (r & Hr & _). discriminate.
    + repeat (destruct (ErrorHandling.code_is error _)); discriminate.
Qed.

(** ** The server's request counter *)

Lemma serve_app c ticks1 ticks2 :
  RateLimitMiddleware.serve c (ticks1 ++ ticks2)
  = ((RateLimitMiddleware.serve (RateLimitMiddleware.serve c ticks1).1 ticks2).1,
     (RateLimitMiddleware.serve c ticks1).2
     ++ (RateLimitMiddleware.serve (RateLimitMiddleware.serve c ticks1).1 ticks2).2).
Proof.
  revert c. induction ticks1 as [|[] ticks1 IH]; intros c; cbn.
  - now destruct (RateLimitMiddleware.serve c ticks2).
  - destruct (RateLimitMiddleware.rateLimitMiddleware c) as [c1 reply].
    rewrite IH. destruct (RateLimitMiddleware.serve c1 ticks1). reflexivity.
  - apply IH.
Qed.

Lemma serve_requests n :
  forall c,
    RateLimitMiddleware.serve c (replicate n RateLimitMiddleware.Request)
    = (c + Z.of_nat n,
       replicate (Nat.min n (Z.to_nat (10 - c))) None
       ++ replicate (n - Z.to_nat (10 - c))
            (Some RateLimitMiddleware.too_many)).
Proof.
  induction n as [|n IH]; intros c.
  - cbn. f_equal. lia.
  - cbn [replicate RateLimitMiddleware.serve].
    unfold RateLimitMiddleware.rateLimitMiddleware, RateLimitMiddleware.RATE_LIMIT.
    cbv zeta.
    destruct (Z.gtb_spec (c + 1) 10); rewrite IH.
    + replace (Z.to_nat (10 - c)) with 0%nat by lia.
      replace (Z.to_nat (10 - (c + 1))) with 0%nat by lia.
      rewrite !Nat.min_0_r, !Nat.sub_0_r. cbn. f_equal. lia.
    + replace (Z.to_nat (10 - c)) with (S (Z.to_nat (10 - (c + 1)))) by lia.
      cbn. f_equal. lia.
Qed.

(** X17.  The server lets through exactly the first ten requests that
    follow a reset of the counter (or the start of the server) and
    answers every further one with 429 until the next reset, whatever
    came before; the refused requests are counted too. *)
Theorem ten_requests_per_window (before : list RateLimitMiddleware.Tick)
    (c0 : Z) (n : nat) :
  RateLimitMiddleware.serve c0
    (before ++ RateLimitMiddleware.Reset
            :: replicate n RateLimitMiddleware.Request)
  = (Z.of_nat n,
     (RateLimitMiddleware.serve c0 before).2
     ++ replicate (Nat.min n 10) None
     ++ replicate (n - 10) (Some RateLimitMiddleware.too_many)) /\
  RateLimitMiddleware.serve 0 (replicate n RateLimitMiddleware.Request)
  = (Z.of_nat n,
     replicate (Nat.min n 10) None
     ++ replicate (n - 10) (Some RateLimitMiddleware.too_many)).
Proof.
  assert (Hwin : RateLimitMiddleware.serve 0 (replicate n RateLimitMiddleware.Request)
                 = (Z.of_nat n,
                    replicate (Nat.min n 10) None
                    ++ replicate (n - 10) (Some RateLimitMiddleware.too_many))).
  { rewrite serve_requests. reflexivity. }
  split; [| exact Hwin].
  rewrite serve_app. cbn [RateLimitMiddleware.serve]. now rewrite Hwin.
Qed.

(** ** Tokens *)

Section Tokens.

Import AuthServer.

Implicit Types (tokens : gmap string TokenData) (u : User).

Lemma split_space_word (a : string) :
  no_space a = true -> split_space a = [a].
Proof.
  induction a as [|c a IH]; [reflexivity |]. cbn.
  destruct (Ascii.eqb c " "); [discriminate |]. cbn. intros Ha.
  now rewrite IH.
Qed.

Lemma split_space_app (a b : string) :
  no_space a = true ->
  split_space (a ++ String " " b) = a :: split_space b.
Proof.
  induction a as [|c a IH]; [reflexivity |]. cbn [no_space]. intros Ha.
  apply andb_prop in Ha as [Hc Ha].
  change (String c a ++ String " " b)%string
    with (String c (a ++ String " " b))%string.
  cbn [split_space]. destruct (Ascii.eqb c " "); [discriminate |].
  now rewrite IH.
Qed.

Lemma bearer_token (token : string) :
  no_space token = true ->
  truthy (Some ("Bearer " ++ token)%string) = true /\
  String.prefix "Bearer " ("Bearer " ++ token) = true /\
  split_space ("Bearer " ++ token) !! 1%nat = Some token.
Proof.
  intros Hns. split; [reflexivity |]. split.
  - destruct token; reflexivity.
  - change ("Bearer " ++ token)%string with ("Bearer" ++ String " " token)%string.
    rewrite split_space_app by reflexivity.
    now rewrite split_space_word.
Qed.

(** [authMiddleware] on a well-formed bearer header, by what the map
    holds for the token. *)
Lemma authMiddleware_bearer tokens (token : string) (now : Z) :
  no_space token = true ->
  authMiddleware tokens (Some ("Bearer " ++ token)%string) now
  = match tokens !! token with
    | Some tokenData =>
        if now >? expiresAt tokenData then
          (inl {| code := 401; body := error_body "Token expired" |},
           delete token tokens)
        else
          (inr {| ru_id := userId tokenData;
                  ru_username := td_username tokenData;
                  ru_role := td_role tokenData |}, tokens)
    | None => (inl {| code := 401; body := error_body "Invalid token" |}, tokens)
    end.
Proof.
  intros Hns. destruct (bearer_token token Hns) as (Ht & Hp & Hs).
  unfold authMiddleware. now rewrite Ht, Hp, Hs.
Qed.

Lemma login_known_user tokens u access refreshT t1 t2 :
  In u users ->
  login tokens (Some (username u)) (Some (password u)) access refreshT t1 t2
  = ({| code := 200;
        body := login_body access refreshT 3600
                  {| ru_id := id u; ru_username := Some (username u);
                     ru_role := Some (role u) |} |},
     <[refreshT :=
         {| userId := id u; td_username := None; td_role := None;
            td_type := Some "refresh"%string; expiresAt := t2 + 86400000 |}]>
       (<[access :=
            {| userId := id u; td_username := Some (username u);
               td_role := Some (role u); td_type := None;
               expiresAt := t1 + 3600000 |}]> tokens)).
Proof.
  intros [<- | [<- | []]]; reflexivity.
Qed.

(** X18.  A login with the name and password of a user of the server
    stores two tokens, and the access token then authenticates as that
    user, with the user's name and role, at every time up to an hour
    after the login.  Used later than that it is refused as expired and
    deleted, and from then on it is refused as invalid. *)
Theorem access_token_authenticates_for_an_hour tokens u access refreshT
    (t1 t2 t : Z) :
  In u users -> access <> refreshT -> no_space access = true ->
  let tokens' :=
    (login tokens (Some (username u)) (Some (password u)) access refreshT t1 t2).2 in
  let header := Some ("Bearer " ++ access)%string in
  code (login tokens (Some (username u)) (Some (password u))
          access refreshT t1 t2).1 = 200 /\
  (t <= t1 + 3600000 ->
   authMiddleware tokens' header t
   = (inr {| ru_id := id u; ru_username := Some (username u);
             ru_role := Some (role u) |}, tokens')) /\
  (t1 + 3600000 < t ->
   authMiddleware tokens' header t
   = (inl {| code := 401; body := error_body "Token expired" |},
      delete access tokens') /\
   forall t',
     authMiddleware (delete access tokens') header t'
     = (inl {| code := 401; body := error_body "Invalid token" |},
        delete access tokens')).
Proof.
  intros Hu Hne Hns. cbv zeta. rewrite (login_known_user _ _ _ _ _ _ Hu).
  cbn [fst snd code]. split; [reflexivity |].
  rewrite !authMiddleware_bearer by assumption.
  rewrite lookup_insert_ne by congruence. rewrite lookup_insert_eq.
  cbn [expiresAt userId td_username td_role].
  split; intros Ht.
  - destruct (Z.gtb_spec t (t1 + 3600000)); [lia | reflexivity].
  - destruct (Z.gtb_spec t (t1 + 3600000)); [| lia].
    split; [reflexivity |]. intros t'.
    rewrite authMiddleware_bearer by assumption.
    now rewrite lookup_delete_eq.
Qed.

(** X19.  [authMiddleware] does not look at the kind of a token: the
    refresh token of a login, sent as a bearer token, passes it for a
    day, with a user that has the right id and no name and no role, so
    that [adminMiddleware] refuses it whoever logged in.  The other way
    round is closed: [/auth/refresh] refuses an access token. *)
Theorem refresh_token_passes_as_bearer tokens u access refreshT
    (t1 t2 t : Z) (newToken : string) :
  In u users -> access <> refreshT -> access <> ""%string ->
  no_space refreshT = true ->
  t <= t2 + 86400000 ->
  let tokens' :=
    (login tokens (Some (username u)) (Some (password u)) access refreshT t1 t2).2 in
  let user := {| ru_id := id u; ru_username := None; ru_role := None |} in
  authMiddleware tokens' (Some ("Bearer " ++ refreshT)%string) t
  = (inr user, tokens') /\
  adminMiddleware user
  = Some {| code := 403; body := error_body "Admin access required" |} /\
  refresh tokens' (Some access) newToken t t
  = (Some {| code := 401; body := error_body "Invalid refresh token" |}, tokens').
Proof.
  intros Hu Hne Hacc Hns Ht. cbv zeta. rewrite (login_known_user _ _ _ _ _ _ Hu).
  cbn [snd]. split; [| split].
  - rewrite authMiddleware_bearer by assumption. rewrite lookup_insert_eq.
    cbn [expiresAt userId td_username td_role].
    destruct (Z.gtb_spec t (t2 + 86400000)); [lia | reflexivity].
  - reflexivity.
  - unfold refresh. destruct (String.eqb_spec access ""); [contradiction |].
    rewrite lookup_insert_ne by congruence. rewrite lookup_insert_eq.
    reflexivity.
Qed.

(** X20.  The refresh round trip: within a day of the login,
    [/auth/refresh] with the refresh token stores a new access token that
    authenticates as the same user for an hour from the refresh, and
    keeps the refresh token; after that day it answers 401 and deletes
    the refresh token. *)
Theorem refresh_gives_a_working_access_token tokens u access refreshT
    (t1 t2 t3 t4 t : Z) (newToken : string) :
  In u users -> refreshT <> ""%string -> no_space newToken = true ->
  let tokens' :=
    (login tokens (Some (username u)) (Some (password u)) access refreshT t1 t2).2 in
  (t3 <= t2 + 86400000 -> t <= t4 + 3600000 ->
   let r := refresh tokens' (Some refreshT) newToken t3 t4 in
   r.1 = Some {| code := 200; body := refresh_body newToken 3600 |} /\
   authMiddleware r.2 (Some ("Bearer " ++ newToken)%string) t
   = (inr {| ru_id := id u; ru_username := Some (username u);
             ru_role := Some (role u) |}, r.2)) /\
  (t2 + 86400000 < t3 ->
   refresh tokens' (Some refreshT) newToken t3 t4
   = (Some {| code := 401; body := error_body "Refresh token expired" |},
      delete refreshT tokens')).
Proof.
  intros Hu Href Hns. cbv zeta. rewrite (login_known_user _ _ _ _ _ _ Hu).
  cbn [snd]. unfold refresh.
  destruct (String.eqb_spec refreshT ""); [contradiction |].
  rewrite lookup_insert_eq. cbn [td_type expiresAt userId].
  rewrite bool_decide_eq_true_2 by reflexivity.
  split.
  - intros Ht3 Ht. destruct (Z.gtb_spec t3 (t2 + 86400000)); [lia |].
    assert (Hfind : List.find (fun u0 => id u0 =? id u) users = Some u).
    { destruct Hu as [<- | [<- | []]]; reflexivity. }
    rewrite Hfind. cbn [fst snd]. split; [reflexivity |].
    rewrite authMiddleware_bearer by assumption. rewrite lookup_insert_eq.
    cbn [expiresAt userId td_username td_role].
    destruct (Z.gtb_spec t (t4 + 3600000)); [lia | reflexivity].
  - intros Ht3. destruct (Z.gtb_spec t3 (t2 + 86400000)); [reflexivity | lia].
Qed.

(** X21.  [/auth/logout] deletes the token that is the second word of
    the Authorization header, whatever the first word is, and answers
    200 in every case; a token logged out is refused as invalid
    afterwards.  Without a header, or with a header of one word, nothing
    is deleted. *)
Theorem logout_invalidates_the_token tokens (scheme token : string) (t : Z) :
  no_space scheme = true -> no_space token = true -> token <> ""%string ->
  logout tokens (Some (scheme ++ String " " token)%string)
  = ({| code := 200; body := message_body "Logged out successfully" |},
     delete token tokens) /\
  authMiddleware (logout tokens (Some (scheme ++ String " " token)%string)).2
    (Some ("Bearer " ++ token)%string) t
  = (inl {| code := 401; body := error_body "Invalid token" |},
     delete token tokens) /\
  logout tokens None
  = ({| code := 200; body := message_body "Logged out successfully" |}, tokens) /\
  logout tokens (Some scheme)
  = ({| code := 200; body := message_body "Logged out successfully" |}, tokens).
Proof.
  intros Hs Ht Hne.
  assert (Hout : logout tokens (Some (scheme ++ String " " token)%string)
                 = ({| code := 200;
                       body := message_body "Logged out successfully" |},
                    delete token tokens)).
  { unfold logout. rewrite split_space_app by assumption.
    rewrite split_space_word by assumption. cbn.
    destruct (String.eqb_spec token ""); [contradiction | reflexivity]. }
  split; [exact Hout |]. split; [| split].
  - rewrite Hout. cbn [snd]. rewrite authMiddleware_bearer by assumption.
    now rewrite lookup_delete_eq.
  - reflexivity.
  - unfold logout. now rewrite split_space_word.
Qed.

End Tokens.

(** ** Idempotency keys *)

Section IdempotentPosts.

Context {World V : Type}.

(** X22.  An idempotency key goes through once.  After a [post] with a
    key has succeeded, every later [post] with that key throws the
    duplicate error without sending anything, whatever request it was
    given.  A [post] that failed, for any reason, leaves the client as it
    was, so the same key can be sent again.  Keys are never forgotten. *)
Theorem idempotency_key_goes_through_once (this : Idempotent.IdempotentClient)
    (axios_post : string -> Operation World V) (key generated : string)
    (w : World) :
  key <> ""%string ->
  let r := Idempotent.post this axios_post (Some key) generated w in
  (forall data,
      Idempotent.answer r = Return data ->
      forall (again : string -> Operation World V) generated' w',
        Idempotent.post (Idempotent.client r) again (Some key) generated' w'
        = Idempotent.mkPosted (Throw Idempotent.duplicate)
            (Idempotent.client r) w') /\
  (forall error,
      Idempotent.answer r = Throw error -> Idempotent.client r = this) /\
  Idempotent.processedRequests this
  ⊆ Idempotent.processedRequests (Idempotent.client r).
Proof.
  intros Hkey. cbv zeta. unfold Idempotent.post.
  destruct (String.eqb_spec key ""); [contradiction |].
  destruct (bool_decide_reflect (key ∈ Idempotent.processedRequests this))
    as [Hin | Hnew].
  - cbn. split; [discriminate |]. split; [reflexivity | set_solver].
  - destruct (axios_post key w) as [[data | error] w1]; cbn.
    + split; [| split; [discriminate | set_solver]].
      intros _ _ again generated' w'.
      rewrite bool_decide_eq_true_2 by set_solver. reflexivity.
    + split; [discriminate |]. split; [reflexivity | set_solver].
Qed.

End IdempotentPosts.

(** ** Requests in flight *)

Section Deduplication.

Import Dedup.

Lemma coherent_start : coherent start.
Proof.
  split; [constructor |]. intros k p. cbn. rewrite lookup_empty.
  split; [discriminate | intros H; inversion H].
Qed.

Lemma coherent_key_free (s : Loop) (k : string) :
  coherent s -> pendingRequests (this s) !! k = None -> k ∉ (inflight s).*1.
Proof.
  intros [_ Hmap] Hnone Hin. apply list_elem_of_fmap in Hin as [[k' p] [-> Hin]].
  apply Hmap in Hin. cbn in Hin, Hnone. congruence.
Qed.

Lemma coherent_step (s s' : Loop) (ev : Event) :
  coherent s -> step s ev = Some s' -> coherent s'.
Proof.
  intros Hco Hstep. pose proof Hco as [Hnd Hmap].
  destruct ev as [method url params | i]; cbn in Hstep.
  - injection Hstep as <-. unfold execute.
    destruct (pendingRequests (this s) !! getKey method url params) as [p|] eqn:Hk;
      [exact Hco |].
    unfold coherent. cbn [inflight this pendingRequests snd]. split.
    + rewrite fmap_app. cbn. apply NoDup_app. split; [exact Hnd |].
      split; [| apply NoDup_singleton].
      intros k Hin Hk'. apply list_elem_of_singleton in Hk'. subst k.
      now apply (coherent_key_free s _ Hco Hk).
    + intros k p. rewrite elem_of_app, list_elem_of_singleton.
      destruct (decide (k = getKey method url params)) as [-> | Hne].
      * rewrite lookup_insert_eq. split.
        -- intros [= <-]. now right.
        -- intros [Hin | [= ->]]; [| reflexivity].
           apply Hmap in Hin. congruence.
      * rewrite lookup_insert_ne by congruence. rewrite Hmap.
        split; [now left | intros [Hin | [= ? ?]]; [exact Hin | congruence]].
  - unfold settle in Hstep.
    destruct (inflight s !! i) as [[key q]|] eqn:Hi; [| discriminate].
    injection Hstep as <-. unfold coherent. cbn [inflight this pendingRequests snd].
    pose proof (take_drop_middle _ _ _ Hi) as Hsplit.
    rewrite delete_take_drop.
    rewrite <- Hsplit in Hnd. rewrite fmap_app in Hnd. cbn in Hnd.
    apply NoDup_app in Hnd as (Hnd1 & Hdisj & Hnd2).
    apply NoDup_cons in Hnd2 as [Hkey Hnd2].
    assert (Hgone : forall p, (key, p) ∉ take i (inflight s) ++ drop (S i) (inflight s)).
    { intros p Hin. apply elem_of_app in Hin as [Hin | Hin].
      - apply (Hdisj key); [apply list_elem_of_fmap; now exists (key, p) |].
        now left.
      - apply Hkey. apply list_elem_of_fmap. now exists (key, p). }
    split.
    + rewrite fmap_app. apply NoDup_app. split; [exact Hnd1 |].
      split; [| exact Hnd2].
      intros k Hin Hin'. apply (Hdisj k Hin). now right.
    + intros k p. destruct (decide (k = key)) as [-> | Hne].
      * rewrite lookup_delete_eq. split; [discriminate |].
        intros Hin. now apply Hgone in Hin.
      * rewrite lookup_delete_ne by congruence. rewrite Hmap.
        assert (Hmem : (k, p) ∈ inflight s
                       <-> (k, p) ∈ take i (inflight s) \/ (k, p) = (key, q)
                           \/ (k, p) ∈ drop (S i) (inflight s)).
        { rewrite <- Hsplit at 1. rewrite elem_of_app, elem_of_cons. tauto. }
        rewrite Hmem, elem_of_app.
        split; [intros [H | [[= ? ?] | H]]; [now left | congruence | now right]
               | intros [H | H]; [now left | right; now right]].
Qed.

Lemma coherent_run (evs : list Event) :
  forall s s', coherent s -> run s evs = Some s' -> coherent s'.
Proof.
  induction evs as [|ev evs IH]; intros s s' Hco Hrun.
  - cbn in Hrun. now injection Hrun as <-.
  - cbn in Hrun. destruct (step s ev) as [s1|] eqn:Hstep; [| discriminate].
    apply (IH s1 s'); [| exact Hrun]. eapply coherent_step; eauto.
Qed.

(** X23.  In every run of the deduplicator no two requests in flight
    have the same key.  An [execute] whose key is in flight starts no
    request and returns the promise of the one in flight; an [execute]
    whose key is not in flight, be it because the earlier request has
    settled, starts exactly one. *)
Theorem one_request_in_flight_per_key (evs : list Event) (s : Loop)
    (method url : string) (params : option string) :
  run start evs = Some s ->
  NoDup (inflight s).*1 /\
  (forall p,
      (getKey method url params, p) ∈ inflight s ->
      execute method url params s = (p, s)) /\
  (getKey method url params ∉ (inflight s).*1 ->
   (execute method url params s).1 = started s /\
   started (execute method url params s).2 = S (started s) /\
   inflight (execute method url params s).2
   = inflight s ++ [(getKey method url params, started s)]).
Proof.
  intros Hrun. pose proof (coherent_run evs start s coherent_start Hrun) as [Hnd Hmap].
  split; [exact Hnd |]. split.
  - intros p Hin. apply Hmap in Hin. unfold execute. now rewrite Hin.
  - intros Hfree. unfold execute.
    destruct (pendingRequests (this s) !! getKey method url params) as [p|] eqn:Hk.
    + exfalso. apply Hfree. apply Hmap in Hk.
      apply list_elem_of_fmap. now exists (getKey method url params, p).
    + cbn. auto.
Qed.

End Deduplication.

(** ** Pages *)

Section Pages.

Context {V : Type}.
Variable pages : Z -> Completion (list V).

Lemma fetchAllPages_loop_stops k :
  forall fuel allData from,
    (k < fuel)%nat ->
    (forall j, (j < k)%nat ->
               Pagination.full (pages (from + Z.of_nat j)) = true) ->
    (forall data,
        pages (from + Z.of_nat k) = Return data -> length data <> 100%nat ->
        Pagination.fetchAllPages_loop pages fuel allData from
        = Some (Return (allData ++ Pagination.collected pages from (S k)))) /\
    (forall e,
        pages (from + Z.of_nat k) = Throw e ->
        Pagination.fetchAllPages_loop pages fuel allData from = Some (Throw e)).
Proof.
  induction k as [|k IH]; intros fuel allData from Hfuel Hfull;
    (destruct fuel as [|fuel]; [lia |]).
  - rewrite Z.add_0_r. split.
    + intros data Hp Hlen. cbn. rewrite Hp.
      destruct (Nat.eqb_spec (length data) 100); [contradiction |].
      now rewrite app_nil_r.
    + intros e Hp. cbn. now rewrite Hp.
  - pose proof (Hfull 0%nat ltac:(lia)) as Hfirst. rewrite Z.add_0_r in Hfirst.
    unfold Pagination.full in Hfirst.
    destruct (pages from) as [d0 | e0] eqn:Hp0; [| discriminate].
    destruct (IH fuel (allData ++ d0) (from + 1)) as [Hret Hthrow]; [lia | |].
    { intros j Hj. replace (from + 1 + Z.of_nat j) with (from + Z.of_nat (S j)) by lia.
      apply Hfull. lia. }
    replace (from + 1 + Z.of_nat k) with (from + Z.of_nat (S k)) in * by lia.
    split.
    + intros data Hp Hlen. cbn [Pagination.fetchAllPages_loop].
      rewrite Hp0, Hfirst. rewrite (Hret data Hp Hlen).
      cbn [Pagination.collected]. rewrite Hp0. now rewrite <- app_assoc.
    + intros e Hp. cbn [Pagination.fetchAllPages_loop].
      rewrite Hp0, Hfirst. apply (Hthrow e Hp).
Qed.

Lemma fetchAllPages_loop_goes_on fuel :
  (forall p, Pagination.full (pages p) = true) ->
  forall allData from,
    Pagination.fetchAllPages_loop pages fuel allData from = None.
Proof.
  intros Hfull. induction fuel as [|fuel IH]; intros allData from; [reflexivity |].
  cbn. specialize (Hfull from). unfold Pagination.full in Hfull.
  destruct (pages from) as [d | e]; [| discriminate]. rewrite Hfull. apply IH.
Qed.

(** X24.  [fetchAllPages] reads pages 1, 2, ... while they come back
    with exactly 100 items.  At the first page that comes back with
    another number of items it returns the items of all pages read, in
    page order; if instead that page's request fails it throws the
    error, and nothing of what was read is returned.  If every page has
    exactly 100 items it never returns. *)
Theorem fetchAllPages_reads_up_to_the_first_short_page (k : nat) (fuel : nat) :
  (k < fuel)%nat ->
  (forall j, (j < k)%nat ->
             Pagination.full (pages (1 + Z.of_nat j)) = true) ->
  (forall data,
      pages (1 + Z.of_nat k) = Return data -> length data <> 100%nat ->
      Pagination.fetchAllPages pages fuel
      = Some (Return (Pagination.collected pages 1 (S k)))) /\
  (forall e,
      pages (1 + Z.of_nat k) = Throw e ->
      Pagination.fetchAllPages pages fuel = Some (Throw e)) /\
  ((forall p, Pagination.full (pages p) = true) ->
   forall fuel', Pagination.fetchAllPages pages fuel' = None).
Proof.
  intros Hfuel Hfull. unfold Pagination.fetchAllPages.
  destruct (fetchAllPages_loop_stops k fuel [] 1 Hfuel Hfull) as [Hret Hthrow].
  split; [exact Hret |]. split; [exact Hthrow |].
  intros Hall fuel'. now apply fetchAllPages_loop_goes_on.
Qed.

End Pages.

(** ** Batches *)

Section Batches.

Context {V : Type}.
Variable axios_get : nat -> string -> Completion V.

Lemma slice_batch {A} (l : list A) (i b : Z) :
  0 <= i < Z.of_nat (length l) -> 0 < b ->
  Batcher.slice l i (i + b) ++ drop (Z.to_nat (i + b)) l = drop (Z.to_nat i) l.
Proof.
  intros Hi Hb. unfold Batcher.slice, Batcher.slice_index.
  destruct (Z.ltb_spec i 0); [lia |].
  destruct (Z.ltb_spec (i + b) 0); [lia |].
  rewrite (Z.min_l i) by lia.
  replace (Z.to_nat (i + b)) with (Z.to_nat i + Z.to_nat b)%nat by lia.
  rewrite <- drop_drop.
  destruct (Z.le_gt_cases (i + b) (Z.of_nat (length l))) as [Hfit | Hover].
  - rewrite Z.min_l by lia.
    replace (Z.to_nat (i + b - i)) with (Z.to_nat b) by lia.
    apply take_drop.
  - rewrite Z.min_r by lia.
    rewrite take_ge by (rewrite length_drop; lia).
    rewrite (drop_ge (drop _ _)) by (rewrite length_drop; lia).
    apply app_nil_r.
Qed.

Lemma batchProcess_loop_ends fuel (this : Batcher.RequestBatcher)
    (urls : list (nat * string)) :
  0 < Batcher.batchSize this ->
  forall i results waits,
    0 <= i ->
    (Z.to_nat (Z.of_nat (length urls) - i) < fuel)%nat ->
    exists k : nat,
      Batcher.batchProcess_loop axios_get fuel this urls i results waits
      = Some (results ++ drop (Z.to_nat i) (map (Batcher.request axios_get) urls),
              waits ++ replicate k (Batcher.delayMs this)) /\
      (Z.of_nat (length urls) <= i -> k = 0%nat) /\
      (i < Z.of_nat (length urls) ->
       i + Batcher.batchSize this * Z.of_nat k < Z.of_nat (length urls)
       <= i + Batcher.batchSize this * (Z.of_nat k + 1)).
Proof.
  intros Hb. induction fuel as [|fuel IH]; intros i results waits Hi Hfuel; [lia |].
  cbn [Batcher.batchProcess_loop].
  destruct (Z.ltb_spec i (Z.of_nat (length urls))) as [Hin | Hout].
  - destruct (IH (i + Batcher.batchSize this)
                (results ++ map (Batcher.request axios_get)
                              (Batcher.slice urls i (i + Batcher.batchSize this)))
                (if i + Batcher.batchSize this <? Z.of_nat (length urls)
                 then waits ++ [Batcher.delayMs this] else waits))
      as (k & Hrun & Hzero & Hmore); [lia | lia |].
    rewrite Hrun. rewrite <- app_assoc, <- fmap_drop, <- fmap_app.
    rewrite slice_batch by lia. rewrite fmap_drop.
    destruct (Z.ltb_spec (i + Batcher.batchSize this) (Z.of_nat (length urls)))
      as [Hnext | Hlast].
    + exists (S k). rewrite <- app_assoc. cbn [app replicate].
      split; [reflexivity |]. split; [lia |]. intros _.
      specialize (Hmore Hnext). lia.
    + exists 0%nat. rewrite (Hzero Hlast). cbn [replicate].
      split; [reflexivity |]. split; [lia |]. intros _. lia.
  - exists 0%nat. cbn [replicate]. rewrite app_nil_r.
    rewrite drop_ge by (rewrite length_map; lia). rewrite app_nil_r.
    split; [reflexivity |]. split; [reflexivity | lia].
Qed.

Lemma batchProcess_loop_stuck fuel (this : Batcher.RequestBatcher)
    (urls : list (nat * string)) :
  Batcher.batchSize this = 0 -> urls <> [] ->
  forall results waits,
    Batcher.batchProcess_loop axios_get fuel this urls 0 results waits = None.
Proof.
  intros Hb Hne. induction fuel as [|fuel IH]; intros results waits; [reflexivity |].
  cbn [Batcher.batchProcess_loop]. rewrite Hb, Z.add_0_r.
  destruct (Z.ltb_spec 0 (Z.of_nat (length urls))); [apply IH |].
  destruct urls; [contradiction | cbn in *; lia].
Qed.

(** X25.  [batchProcess] with a positive [batchSize] never throws and
    gives one result per URL, in the order of the URLs: the data of the
    request for that URL, or the message of its error.  It makes one
    pause of [delayMs] between two batches and none after the last, that
    is [k] pauses with [batchSize * k < n <= batchSize * (k + 1)] for [n]
    URLs, none for no URL.  With [batchSize] 0 and at least one URL it
    never returns. *)
Theorem batchProcess_gives_one_result_per_url (this : Batcher.RequestBatcher)
    (urls : list string) :
  (0 < Batcher.batchSize this ->
   exists k : nat,
     Batcher.batchProcess axios_get (S (length urls)) this urls
     = Some (map (Batcher.request axios_get) (imap (fun n url => (n, url)) urls),
             replicate k (Batcher.delayMs this)) /\
     (urls = [] -> k = 0%nat) /\
     (urls <> [] ->
      Batcher.batchSize this * Z.of_nat k < Z.of_nat (length urls)
      <= Batcher.batchSize this * (Z.of_nat k + 1))) /\
  (Batcher.batchSize this = 0 -> urls <> [] ->
   forall fuel, Batcher.batchProcess axios_get fuel this urls = None).
Proof.
  unfold Batcher.batchProcess. split.
  - intros Hb.
    destruct (batchProcess_loop_ends (S (length urls)) this
                (imap (fun n url => (n, url)) urls) Hb 0 [] [])
      as (k & Hrun & Hzero & Hmore); [lia | rewrite length_imap; lia |].
    exists k. rewrite Hrun. cbn [app drop Z.to_nat].
    rewrite length_imap in *.
    split; [reflexivity |]. split.
    + intros ->. apply Hzero. cbn. lia.
    + intros Hne. destruct urls; [contradiction |]. cbn [length] in *.
      specialize (Hmore ltac:(lia)). lia.
  - intros Hb Hne fuel. apply batchProcess_loop_stuck; [exact Hb |].
    destruct urls; [contradiction | discriminate].
Qed.

End Batches.

(** * Instances of the further properties *)

(** X1 on the tripped breakers: a trial call at 6000 ms that fails
    leaves both OPEN, not HALF_OPEN. *)
Lemma half_open_is_never_left_behind_witness :
  AP.reachable Stub.clock Scenario.tripped_short (V := string) /\
  CB.state (breaker (CB.execute Stub.clock Scenario.tripped
                       (Stub.simulateFailingAPI true 10) (Stub.at_time 6000)))
  <> HALF_OPEN /\
  AP.state (breaker (AP.execute Stub.clock Scenario.tripped_short
                       (Stub.simulateFailingAPI true 10) (Stub.at_time 6000)))
  <> HALF_OPEN.
Proof.
  assert (Hr : AP.reachable Stub.clock Scenario.tripped_short (V := string)).
  { apply AP_reachable_execute_calls. apply AP.reachable_new. }
  destruct (half_open_is_never_left_behind Stub.clock
              (Stub.simulateFailingAPI true 10) (Stub.at_time 6000))
    as [Hfull Hshort].
  split; [exact Hr |].
  split; [apply Hfull | apply Hshort; exact Hr].
Defined.

(** X2 on the breaker of the tests after its three failures: OPEN with
    the count at the threshold. *)
Lemma closed_exactly_below_threshold_witness :
  Lifetime.reachable Stub.clock Scenario.tripped (V := string) /\
  0 < CB.threshold Scenario.tripped /\
  CB.state Scenario.tripped = OPEN /\
  CB.threshold Scenario.tripped <= CB.failureCount Scenario.tripped.
Proof.
  assert (Hr : Lifetime.reachable Stub.clock Scenario.tripped (V := string)).
  { unfold Scenario.tripped, CB.execute_calls, Scenario.three_failures.
    cbn [fold_left].
    do 3 apply Lifetime.reachable_execute. apply Lifetime.reachable_new. }
  split; [exact Hr |]. split; [reflexivity |].
  destruct (closed_exactly_below_threshold Stub.clock Scenario.tripped Hr eq_refl)
    as [[Hclosed _] | Hopen]; [discriminate Hclosed | exact Hopen].
Defined.

(** X3 on the fallback breaker of the demo: once its second failure has
    opened it, a call at 1000 ms is answered with the cached quote and
    the operation is not run; and the first failure, which leaves it
    CLOSED, comes out as thrown. *)
Lemma fallback_stands_in_while_open_witness :
  let opened :=
    breaker (CB.CircuitBreakerWithFallback_execute Stub.clock
               Scenario.advancedBreaker (Stub.simulateFailingAPI true 10)
               (Stub.at_time 100)) in
  let new :=
    CB.new_CircuitBreakerWithFallback Stub.clock 2 8000 (Some Stub.fallbackFn)
      "Advanced-Breaker" (Stub.at_time 0) in
  let e := new_Error "API Error: Service unavailable" in
  CB.fallbackFn opened = Some Stub.fallbackFn /\
  CB.state (CB.super opened) = OPEN /\
  Stub.clock (Stub.at_time 1000) < CB.nextAttempt (CB.super opened) /\
  CB.CircuitBreakerWithFallback_execute Stub.clock opened
    (Stub.simulateFailingAPI false 10) (Stub.at_time 1000)
  = mkOutcome (Return "150.00 (cached)"%string) opened (Stub.at_time 1000) /\
  settled (CB.CircuitBreakerWithFallback_execute Stub.clock new
             (Stub.simulateFailingAPI true 10) (Stub.at_time 0)) = Throw e /\
  settled (CB.execute Stub.clock (CB.super new)
             (Stub.simulateFailingAPI true 10) (Stub.at_time 0)) = Throw e.
Proof.
  cbv zeta.
  split; [reflexivity |]. split; [reflexivity |]. split; [reflexivity |].
  split.
  - destruct (fallback_stands_in_while_open Stub.clock
                (breaker (CB.CircuitBreakerWithFallback_execute Stub.clock
                            Scenario.advancedBreaker
                            (Stub.simulateFailingAPI true 10) (Stub.at_time 100)))
                (Stub.simulateFailingAPI false 10) (Stub.at_time 1000))
      as (Hopen & _ & _).
    exact (Hopen Stub.fallbackFn eq_refl eq_refl eq_refl).
  - split; [reflexivity |].
    destruct (fallback_stands_in_while_open Stub.clock
                (CB.new_CircuitBreakerWithFallback Stub.clock 2 8000
                   (Some Stub.fallbackFn) "Advanced-Breaker" (Stub.at_time 0))
                (Stub.simulateFailingAPI true 10) (Stub.at_time 0))
      as (_ & _ & Hthrown).
    destruct (Hthrown Stub.fallbackFn
                (new_Error "API Error: Service unavailable") eq_refl eq_refl)
      as [[Hs _] | [Hst _]]; [exact Hs | discriminate Hst].
Defined.

(** X4 on the tripped breakers: a working and a failing call at 1000 and
    2000 ms, both before 5210, leave them as they were. *)
Lemma rejected_calls_change_nothing_witness :
  let calls := [Scenario.working 1000; Scenario.failing 2000] in
  CB.state Scenario.tripped = OPEN /\
  Forall (fun c => Stub.clock c.1 < CB.nextAttempt Scenario.tripped) calls /\
  CB.execute_calls Stub.clock Scenario.tripped calls = Scenario.tripped /\
  AP.execute_calls Stub.clock Scenario.tripped_short calls = Scenario.tripped_short.
Proof.
  cbv zeta.
  destruct (rejected_calls_change_nothing Stub.clock
              [Scenario.working 1000; Scenario.failing 2000]) as [Hfull Hshort].
  assert (Hall : Forall (fun c : Call Stub.World string =>
                           Stub.clock c.1 < CB.nextAttempt Scenario.tripped)
                   [Scenario.working 1000; Scenario.failing 2000])
    by (repeat constructor).
  split; [reflexivity |]. split; [exact Hall |].
  split; [apply Hfull; [reflexivity | exact Hall] |].
  apply Hshort; [reflexivity | repeat constructor].
Defined.

(** X6 on a cache with a quote for IBM: setting, invalidating or reading
    AAPL does not change what a read of IBM gives. *)
Lemma other_keys_are_untouched_witness :
  let c : Cache.APICache (option string) :=
    Cache.set (Cache.new_APICache 60000) "IBM" (Some "IBM 150.00"%string) 1000 in
  "AAPL"%string <> "IBM"%string /\
  (Cache.get None (Cache.set c "AAPL" (Some "AAPL 190.00"%string) 2000) "IBM" 3000).1
  = Some "IBM 150.00"%string /\
  (Cache.get None (CacheUse.invalidate c "AAPL") "IBM" 3000).1
  = Some "IBM 150.00"%string /\
  (Cache.get None (Cache.get None c "AAPL" 2000).2 "IBM" 3000).1
  = Some "IBM 150.00"%string.
Proof.
  cbv zeta.
  assert (Hne : "AAPL"%string <> "IBM"%string) by discriminate.
  destruct (other_keys_are_untouched None
              (Cache.set (Cache.new_APICache 60000) "IBM"
                 (Some "IBM 150.00"%string) 1000)
              "AAPL" "IBM" (Some "AAPL 190.00"%string) 2000 3000 Hne)
    as (Hset & Hinv & Hget).
  split; [exact Hne |].
  split; [rewrite Hset; reflexivity |].
  split; [rewrite Hinv; reflexivity | rewrite Hget; reflexivity].
Defined.

(** X7 on a quote cached at 1000 ms with ttl 60000: served at 61000;
    read at 61001 it is removed, and a read at 2000 finds nothing. *)
Lemma eviction_is_for_good_witness :
  let quote := Some "IBM 150.00"%string in
  let c : Cache.APICache (option string) :=
    Cache.set (Cache.new_APICache 60000) "IBM" quote 1000 in
  Cache.cache c !! "IBM"%string
  = Some {| Cache.data := quote; Cache.expiry := 61000 |} /\
  Cache.get None c "IBM" 61000 = (quote, c) /\
  Cache.get None (Cache.get None c "IBM" 61001).2 "IBM" 2000
  = (None, (Cache.get None c "IBM" 61001).2).
Proof.
  cbv zeta. split; [reflexivity |].
  destruct (eviction_is_for_good None
              (Cache.set (Cache.new_APICache 60000) "IBM"
                 (Some "IBM 150.00"%string) 1000)
              "IBM" {| Cache.data := Some "IBM 150.00"%string;
                       Cache.expiry := 61000 |} 61000 2000 eq_refl)
    as [Hlive _].
  destruct (eviction_is_for_good None
              (Cache.set (Cache.new_APICache 60000) "IBM"
                 (Some "IBM 150.00"%string) 1000)
              "IBM" {| Cache.data := Some "IBM 150.00"%string;
                       Cache.expiry := 61000 |} 61001 2000 eq_refl)
    as [_ Hgone].
  split; [apply Hlive; vm_compute; discriminate | apply Hgone; reflexivity].
Defined.

(** X8 with the stub of the tests as upstream: a first call on an empty
    cache at 0 ms fetches, and a second at 5000 ms is served from the
    cache although its own request would fail. *)
Lemma cached_stock_is_not_fetched_twice_witness :
  let truthy := fun s : string => negb (String.eqb s EmptyString) in
  let c : Cache.APICache string := Cache.new_APICache 60000 in
  let r1 := CacheUse.getCachedStock Stub.clock EmptyString truthy c "IBM"
              (Stub.simulateFailingAPI false 10) (Stub.at_time 0) in
  truthy (Cache.get EmptyString c "IBM" (Stub.clock (Stub.at_time 0))).1 = false /\
  Stub.clock (Stub.at_time 5000)
  <= Stub.clock (Stub.simulateFailingAPI false 10 (Stub.at_time 0)).2 + Cache.ttl c /\
  CacheUse.answer r1 = Return "API response"%string /\
  CacheUse.getCachedStock Stub.clock EmptyString truthy (CacheUse.store r1) "IBM"
    (Stub.simulateFailingAPI true 10) (Stub.at_time 5000)
  = CacheUse.mkFetched (Return "API response"%string) (CacheUse.store r1)
      (Stub.at_time 5000).
Proof.
  cbv zeta. split; [reflexivity |]. split; [vm_compute; discriminate |].
  destruct (cached_stock_is_not_fetched_twice Stub.clock EmptyString
              (fun s : string => negb (String.eqb s EmptyString))
              (Cache.new_APICache 60000) "IBM"
              (Stub.simulateFailingAPI false 10) (Stub.simulateFailingAPI true 10)
              (Stub.at_time 0) (Stub.at_time 5000) "API response"%string
              eq_refl eq_refl ltac:(vm_compute; discriminate))
    as (Hfirst & Hserved & _).
  split; [exact Hfirst | exact (Hserved eq_refl)].
Defined.

(** X9 with the stub of the tests as upstream: a hit at 5000 ms on a
    quote cached at 1000 ms, and a miss whose request fails. *)
Lemma cached_stock_hit_and_failed_miss_witness :
  let truthy := fun s : string => negb (String.eqb s EmptyString) in
  let empty : Cache.APICache string := Cache.new_APICache 60000 in
  let c := Cache.set empty "IBM" "IBM 150.00"%string 1000 in
  CacheUse.getCachedStock Stub.clock EmptyString truthy c "IBM"
    (Stub.simulateFailingAPI true 10) (Stub.at_time 5000)
  = CacheUse.mkFetched (Return "IBM 150.00"%string) c (Stub.at_time 5000) /\
  CacheUse.getCachedStock Stub.clock EmptyString truthy empty "IBM"
    (Stub.simulateFailingAPI true 10) (Stub.at_time 5000)
  = CacheUse.mkFetched (Throw (new_Error "API Error: Service unavailable")) empty
      (Stub.tick 10 (Stub.at_time 5000)).
Proof.
  cbv zeta. split.
  - destruct (cached_stock_hit_and_failed_miss Stub.clock EmptyString
                (fun s : string => negb (String.eqb s EmptyString))
                (Cache.set (Cache.new_APICache 60000) "IBM" "IBM 150.00"%string 1000)
                "IBM" (Stub.simulateFailingAPI true 10) (Stub.at_time 5000))
      as [Hhit _].
    exact (Hhit {| Cache.data := "IBM 150.00"%string; Cache.expiry := 61000 |}
             eq_refl ltac:(vm_compute; discriminate) eq_refl).
  - destruct (cached_stock_hit_and_failed_miss Stub.clock EmptyString
                (fun s : string => negb (String.eqb s EmptyString))
                (Cache.new_APICache 60000)
                "IBM" (Stub.simulateFailingAPI true 10) (Stub.at_time 5000))
      as [_ Hmiss].
    exact (Hmiss (new_Error "API Error: Service unavailable") eq_refl eq_refl eq_refl).
Defined.

(** X10 with a retry: two submissions, the first answered 429, called
    again after the cool-down and resolved; promise 10 is settled, 11 is
    pending, as submitted.  And with the first rejected with
    [undefined] instead: the first limiter rejects promise 10, the
    second loses it. *)
Lemma promises_settle_in_submission_order_witness :
  let A := {| requestFn := 0; handle := 10 |} in
  let B := {| requestFn := 1; handle := 11 |} in
  let evs : list (Event (V := string)) :=
    [Enqueue A; Enqueue B; Settle 0 (Throw MyOwnCodes.too_many_requests);
     Fire 0; Settle 0 (Return "a"%string); Fire 0] in
  let lossy : list (Event (V := string)) :=
    [Enqueue A; Enqueue B; SettleNullish 0 Undefined] in
  (exists s,
      MyOwnCodes.run (start (new_RateLimiter 5 60000)) evs = Some s /\
      Settlement.no_nullish evs = true /\
      Settlement.settled_handles (history s) = [10]%nat /\
      Settlement.pending_handles s = [11]%nat /\
      Settlement.settled_handles (history s) ++ Settlement.pending_handles s
      = Settlement.submitted_handles evs) /\
  (exists s,
      MockServer.run (start (new_RateLimiter 5 60000)) lossy = Some s /\
      Settlement.settled_handles (history s) = [10]%nat /\
      Settlement.pending_handles s = [11]%nat /\
      Settlement.settled_handles (history s) ++ Settlement.pending_handles s
      = Settlement.submitted_handles lossy) /\
  (exists s,
      MyOwnCodes.run (start (new_RateLimiter 5 60000)) lossy = Some s /\
      Settlement.no_nullish lossy = false /\
      Settlement.settled_handles (history s) = [] /\
      Settlement.pending_handles s = [11]%nat /\
      stuck s /\
      exists lost,
        Settlement.settled_handles (history s) ++ lost :: Settlement.pending_handles s
        = Settlement.submitted_handles lossy).
Proof.
  cbv zeta. split; [| split].
  - destruct (MyOwnCodes.run (start (new_RateLimiter 5 60000))
                [Enqueue {| requestFn := 0; handle := 10 |};
                 Enqueue {| requestFn := 1; handle := 11 |};
                 Settle 0 (Throw MyOwnCodes.too_many_requests);
                 Fire 0; Settle 0 (Return "a"%string); Fire 0])
      as [s |] eqn:Hrun; [| vm_compute in Hrun; discriminate Hrun].
    exists s. split; [reflexivity |]. split; [reflexivity |].
    destruct (promises_settle_in_submission_order 5 60000
                [Enqueue {| requestFn := 0; handle := 10 |};
                 Enqueue {| requestFn := 1; handle := 11 |};
                 Settle 0 (Throw MyOwnCodes.too_many_requests);
                 Fire 0; Settle 0 (Return "a"%string); Fire 0] s) as [_ Hown].
    destruct (Hown Hrun) as [Hquiet _]. specialize (Hquiet eq_refl).
    assert (Hs : Settlement.settled_handles (history s) = [10]%nat /\
                 Settlement.pending_handles s = [11]%nat).
    { clear -Hrun. vm_compute in Hrun. injection Hrun as <-. split; reflexivity. }
    destruct Hs as [Hsettled Hpending].
    split; [exact Hsettled |]. split; [exact Hpending | exact Hquiet].
  - destruct (MockServer.run (start (new_RateLimiter 5 60000))
                [Enqueue {| requestFn := 0; handle := 10 |};
                 Enqueue {| requestFn := 1; handle := 11 |};
                 SettleNullish 0 Undefined])
      as [s |] eqn:Hrun; [| vm_compute in Hrun; discriminate Hrun].
    exists s. split; [reflexivity |].
    destruct (promises_settle_in_submission_order 5 60000
                [Enqueue {| requestFn := 0; handle := 10 |};
                 Enqueue {| requestFn := 1; handle := 11 |};
                 SettleNullish 0 Undefined] s) as [Hmock _].
    specialize (Hmock Hrun).
    assert (Hs : Settlement.settled_handles (history s) = [10]%nat /\
                 Settlement.pending_handles s = [11]%nat).
    { clear -Hrun. vm_compute in Hrun. injection Hrun as <-. split; reflexivity. }
    destruct Hs as [Hsettled Hpending].
    split; [exact Hsettled |]. split; [exact Hpending | exact Hmock].
  - destruct (MyOwnCodes.run (start (new_RateLimiter 5 60000))
                [Enqueue {| requestFn := 0; handle := 10 |};
                 Enqueue {| requestFn := 1; handle := 11 |};
                 SettleNullish 0 Undefined])
      as [s |] eqn:Hrun; [| vm_compute in Hrun; discriminate Hrun].
    exists s. split; [reflexivity |]. split; [reflexivity |].
    destruct (promises_settle_in_submission_order 5 60000
                [Enqueue {| requestFn := 0; handle := 10 |};
                 Enqueue {| requestFn := 1; handle := 11 |};
                 SettleNullish 0 Undefined] s) as [_ Hown].
    destruct (Hown Hrun) as [_ Hlossy]. specialize (Hlossy eq_refl).
    assert (Hs : Settlement.settled_handles (history s) = [] /\
                 Settlement.pending_handles s = [11]%nat).
    { clear -Hrun. vm_compute in Hrun. injection Hrun as <-. split; reflexivity. }
    destruct Hs as [Hsettled Hpending].
    split; [exact Hsettled |]. split; [exact Hpending | exact Hlossy].
Defined.

(** X11 after one submission has been resolved and its timer has fired:
    nothing in flight, no timer, and either limiter is at rest.  After
    one submission rejected with [null] the second limiter has nothing
    in flight and no timer either, but its flag is set, and a later
    submission stays in the queue. *)
Lemma idle_limiter_has_empty_queue_witness :
  let A := {| requestFn := 0; handle := 10 |} in
  let B := {| requestFn := 1; handle := 11 |} in
  let evs : list (Event (V := string)) :=
    [Enqueue A; Settle 0 (Return "a"%string); Fire 0] in
  let lossy : list (Event (V := string)) :=
    [Enqueue A; SettleNullish 0 Null] in
  (exists s,
      MockServer.run (start (new_RateLimiter 5 60000)) evs = Some s /\
      MyOwnCodes.run (start (new_RateLimiter 5 60000)) evs = Some s /\
      Settlement.no_nullish evs = true /\
      awaiting s = [] /\ timers s = [] /\
      queue (this s) = [] /\ processing (this s) = false) /\
  (exists s s',
      MyOwnCodes.run (start (new_RateLimiter 5 60000)) lossy = Some s /\
      Settlement.no_nullish lossy = false /\
      awaiting s = [] /\ timers s = [] /\
      processing (this s) = true /\
      MyOwnCodes.run s [Enqueue B] = Some s' /\
      history s' = history s /\
      queue (this s') = queue (this s) ++ [B]).
Proof.
  cbv zeta. split.
  - destruct (MockServer.run (start (new_RateLimiter 5 60000))
                [Enqueue {| requestFn := 0; handle := 10 |};
                 Settle 0 (Return "a"%string); Fire 0])
      as [s |] eqn:Hrun; [| vm_compute in Hrun; discriminate Hrun].
    exists s. split; [reflexivity |].
    assert (Hs : MyOwnCodes.run (start (new_RateLimiter 5 60000))
                   [Enqueue {| requestFn := 0; handle := 10 |};
                    Settle 0 (Return "a"%string); Fire 0] = Some s /\
                 awaiting s = [] /\ timers s = []).
    { clear -Hrun. vm_compute in Hrun. injection Hrun as <-.
      repeat split; vm_compute; reflexivity. }
    destruct Hs as (Hown & Haw & Htm).
    split; [exact Hown |]. split; [reflexivity |].
    split; [exact Haw |]. split; [exact Htm |].
    destruct (idle_limiter_has_empty_queue 5 60000
                [Enqueue {| requestFn := 0; handle := 10 |};
                 Settle 0 (Return "a"%string); Fire 0] s Haw Htm)
      as [Hmock _].
    exact (Hmock Hrun).
  - destruct (MyOwnCodes.run (start (new_RateLimiter 5 60000))
                [Enqueue {| requestFn := 0; handle := 10 |};
                 SettleNullish 0 Null])
      as [s |] eqn:Hrun; [| vm_compute in Hrun; discriminate Hrun].
    assert (Hs : awaiting s = [] /\ timers s = [] /\
                 exists s', MyOwnCodes.run s
                              [Enqueue {| requestFn := 1; handle := 11 |}]
                            = Some s').
    { clear -Hrun. vm_compute in Hrun. injection Hrun as <-.
      repeat split; try reflexivity. eexists. reflexivity. }
    destruct Hs as (Haw & Htm & s' & Hmore).
    exists s, s'. split; [reflexivity |]. split; [reflexivity |].
    split; [exact Haw |]. split; [exact Htm |].
    destruct (idle_limiter_has_empty_queue 5 60000
                [Enqueue {| requestFn := 0; handle := 10 |};
                 SettleNullish 0 Null] s Haw Htm)
      as [_ Hown].
    destruct (Hown Hrun) as [_ Hlossy].
    destruct (Hlossy eq_refl) as [Hflag Hwaits].
    split; [exact Hflag |]. split; [exact Hmore |].
    exact (Hwaits _ s' Hmore).
Defined.

(** X12 with three retries: a network error, a body with a Note, then
    data, gives the data after waits of 2000 and 4000 ms; three network
    errors give the third error after the same waits. *)
Lemma getStockWithRetry_first_success_or_last_error_witness :
  let hasNote := fun d : string => String.eqb d "Note" in
  let upstream := fun n : nat =>
    match n with
    | 0%nat => Throw (new_Error "Network Error")
    | 1%nat => Return "Note"%string
    | _ => Return "IBM 150.00"%string
    end in
  let down := fun n : nat =>
    Throw (V := string) (new_Error ("Network Error " ++ pretty n)) in
  Retry.getStockWithRetry hasNote upstream 3
  = Some (Retry.mkRun (Return (Some "IBM 150.00"%string)) 3 [2000; 4000]) /\
  Retry.getStockWithRetry hasNote down 3
  = Some (Retry.mkRun (Throw (new_Error "Network Error 2")) 3 [2000; 4000]).
Proof.
  cbv zeta. split.
  - destruct (getStockWithRetry_first_success_or_last_error
                (fun d : string => String.eqb d "Note")
                (fun n : nat =>
                   match n with
                   | 0%nat => Throw (new_Error "Network Error")
                   | 1%nat => Return "Note"%string
                   | _ => Return "IBM 150.00"%string
                   end) 3) as (_ & Hdata & _).
    apply (Hdata 2%nat "IBM 150.00"%string); [reflexivity | | reflexivity | reflexivity].
    intros [|[|j]] Hj; [reflexivity | reflexivity | lia].
  - destruct (getStockWithRetry_first_success_or_last_error
                (fun d : string => String.eqb d "Note")
                (fun n : nat =>
                   Throw (V := string) (new_Error ("Network Error " ++ pretty n)))
                3) as (_ & _ & Hdown).
    apply Hdown; [reflexivity | intros j _; reflexivity].
Defined.

(** X13 with three retries and a delay of 2000 ms: three network errors
    end in [undefined] after three requests; bodies with a Note end in
    [undefined] after two. *)
Lemma own_getStockWithRetry_never_throws_witness :
  let hasNote := fun d : string => String.eqb d "Note" in
  let down := fun _ : nat => Throw (V := string) (new_Error "Network Error") in
  let limited := fun _ : nat => Return "Note"%string in
  Retry.getStockWithRetry_own hasNote down 3 2000
  = Some (Retry.mkRun (Return None) 3 [2000; 2000; 2000]) /\
  Retry.getStockWithRetry_own hasNote limited 3 2000
  = Some (Retry.mkRun (Return None) 2 [2000; 2000]).
Proof.
  cbv zeta. split.
  - destruct (own_getStockWithRetry_never_throws
                (fun d : string => String.eqb d "Note")
                (fun _ : nat => Throw (V := string) (new_Error "Network Error"))
                3 2000) as (_ & Hdown & _).
    apply Hdown. intros j. eexists. reflexivity.
  - destruct (own_getStockWithRetry_never_throws
                (fun d : string => String.eqb d "Note")
                (fun _ : nat => Return "Note"%string)
                3 2000) as (_ & _ & Hnotes).
    apply Hnotes. intros j. eexists. split; reflexivity.
Defined.

(** X14 with three retries: an upstream that always answers makes three
    requests, caches the third answer and returns [undefined]; one that
    never answers is still going round after a thousand iterations. *)
Lemma own_fetchWithRetry_never_returns_data_witness :
  let hasNote := fun d : string => String.eqb d "Note" in
  let up := fun _ : nat => Return "IBM 150.00"%string in
  let down := fun _ : nat => Throw (V := string) (new_Error "Network Error") in
  let clock := fun n : nat => 1000 * Z.of_nat n in
  let cache : Cache.APICache string := Cache.new_APICache 60000 in
  (exists cache',
      Retry.fetchWithRetry hasNote up clock 4 cache "IBM" 3 2000
      = Some (Retry.mkClientRun (Retry.mkRun (Return None) 3 []) cache') /\
      Cache.cache cache' !! "IBM"%string
      = Some {| Cache.data := "IBM 150.00"%string; Cache.expiry := 62000 |}) /\
  Retry.fetchWithRetry hasNote down clock 1000 cache "IBM" 3 2000 = None.
Proof.
  cbv zeta. split.
  - destruct (own_fetchWithRetry_never_returns_data
                (fun d : string => String.eqb d "Note")
                (fun _ : nat => Return "IBM 150.00"%string)
                (fun n : nat => 1000 * Z.of_nat n)
                (Cache.new_APICache 60000) "IBM" 3 2000) as (_ & Hup & _).
    exact (Hup (fun _ => "IBM 150.00"%string)
             (fun _ => eq_refl) (fun _ => eq_refl) eq_refl).
  - destruct (own_fetchWithRetry_never_returns_data
                (fun d : string => String.eqb d "Note")
                (fun _ : nat => Throw (V := string) (new_Error "Network Error"))
                (fun n : nat => 1000 * Z.of_nat n)
                (Cache.new_APICache 60000) "IBM" 3 2000) as (_ & _ & Hdown).
    exact (Hdown eq_refl (fun _ => eq_refl) 1000%nat).
Defined.

(** X15 for [new RetryHandler(3, 1000)] with [isRetryable]: a 429 and
    then data gives the data after one sleep of 1000 ms; a 429 and then a
    404 throws the 404 after the same sleep. *)
Lemma retry_handler_stops_where_it_should_witness :
  let not_found :=
    {| JS.message := "Request failed with status code 404";
       JS.response := Some {| JS.status := 404 |} |} in
  let recovers := fun n : nat =>
    match n with
    | 0%nat => Throw MyOwnCodes.too_many_requests
    | _ => Return "IBM 150.00"%string
    end in
  let gone := fun n : nat =>
    match n with
    | 0%nat => Throw (V := string) MyOwnCodes.too_many_requests
    | _ => Throw not_found
    end in
  Retry.execute recovers ErrorHandling.isRetryable (Retry.new_RetryHandler 3 1000)
  = Some (Retry.mkRun (Retry.Returned "IBM 150.00"%string) 2 [1000]) /\
  Retry.execute gone ErrorHandling.isRetryable (Retry.new_RetryHandler 3 1000)
  = Some (Retry.mkRun (Retry.Thrown (Some not_found)) 2 [1000]).
Proof.
  cbv zeta. split.
  - destruct (retry_handler_stops_where_it_should
                (fun n : nat =>
                   match n with
                   | 0%nat => Throw MyOwnCodes.too_many_requests
                   | _ => Return "IBM 150.00"%string
                   end)
                ErrorHandling.isRetryable (Retry.new_RetryHandler 3 1000))
      as (_ & Hdata & _).
    apply (Hdata 1%nat "IBM 150.00"%string); [vm_compute; discriminate | | reflexivity].
    intros [|j] Hj; [reflexivity | lia].
  - destruct (retry_handler_stops_where_it_should
                (fun n : nat =>
                   match n with
                   | 0%nat => Throw (V := string) MyOwnCodes.too_many_requests
                   | _ => Throw {| JS.message := "Request failed with status code 404";
                                   JS.response := Some {| JS.status := 404 |} |}
                   end)
                ErrorHandling.isRetryable (Retry.new_RetryHandler 3 1000))
      as (_ & _ & Hthrown).
    apply (Hthrown 1%nat); [vm_compute; discriminate | | reflexivity | left; reflexivity].
    intros [|j] Hj; [reflexivity | lia].
Defined.

(** X18 for [testuser] logging in at 1000 ms: the access token is
    accepted at 5000 ms and refused as expired at 3601001 ms. *)
Lemma access_token_authenticates_for_an_hour_witness :
  let tokens' :=
    (AuthServer.login ∅ (Some "testuser"%string) (Some "password123"%string)
       "a1b2" "c3d4" 1000 1001).2 in
  AuthServer.code
    (AuthServer.login ∅ (Some "testuser"%string) (Some "password123"%string)
       "a1b2" "c3d4" 1000 1001).1 = 200 /\
  AuthServer.authMiddleware tokens' (Some "Bearer a1b2"%string) 5000
  = (inr {| AuthServer.ru_id := 1;
            AuthServer.ru_username := Some "testuser"%string;
            AuthServer.ru_role := Some "user"%string |}, tokens') /\
  AuthServer.authMiddleware tokens' (Some "Bearer a1b2"%string) 3601001
  = (inl {| AuthServer.code := 401;
            AuthServer.body := AuthServer.error_body "Token expired" |},
     delete "a1b2"%string tokens').
Proof.
  cbv zeta.
  assert (Hne : "a1b2"%string <> "c3d4"%string) by discriminate.
  destruct (access_token_authenticates_for_an_hour ∅
              {| AuthServer.id := 1; AuthServer.username := "testuser";
                 AuthServer.password := "password123"; AuthServer.role := "user" |}
              "a1b2" "c3d4" 1000 1001 5000 (or_introl eq_refl) Hne eq_refl)
    as (Hcode & Hlive & _).
  destruct (access_token_authenticates_for_an_hour ∅
              {| AuthServer.id := 1; AuthServer.username := "testuser";
                 AuthServer.password := "password123"; AuthServer.role := "user" |}
              "a1b2" "c3d4" 1000 1001 3601001 (or_introl eq_refl) Hne eq_refl)
    as (_ & _ & Hlate).
  split; [exact Hcode |].
  split; [apply Hlive; vm_compute; discriminate |].
  apply Hlate. reflexivity.
Defined.

(** X19 for [admin] logging in at 1000 ms: the refresh token sent as a
    bearer token at 5000 ms is let through with no name and no role, and
    the access token is refused as a refresh token. *)
Lemma refresh_token_passes_as_bearer_witness :
  let tokens' :=
    (AuthServer.login ∅ (Some "admin"%string) (Some "admin123"%string)
       "a1b2" "c3d4" 1000 1001).2 in
  AuthServer.authMiddleware tokens' (Some "Bearer c3d4"%string) 5000
  = (inr {| AuthServer.ru_id := 2; AuthServer.ru_username := None;
            AuthServer.ru_role := None |}, tokens') /\
  AuthServer.refresh tokens' (Some "a1b2"%string) "e5f6" 5000 5000
  = (Some {| AuthServer.code := 401;
             AuthServer.body := AuthServer.error_body "Invalid refresh token" |},
     tokens').
Proof.
  cbv zeta.
  assert (Hne : "a1b2"%string <> "c3d4"%string) by discriminate.
  assert (Hne' : "a1b2"%string <> EmptyString) by discriminate.
  destruct (refresh_token_passes_as_bearer ∅
              {| AuthServer.id := 2; AuthServer.username := "admin";
                 AuthServer.password := "admin123"; AuthServer.role := "admin" |}
              "a1b2" "c3d4" 1000 1001 5000 "e5f6"
              (or_intror (or_introl eq_refl)) Hne Hne' eq_refl
              ltac:(vm_compute; discriminate))
    as (Hbearer & _ & Hrefresh).
  split; [exact Hbearer | exact Hrefresh].
Defined.

(** X20 for [testuser]: a refresh at 5000 ms gives a token that is
    accepted at 6000 ms; a refresh two days later is refused. *)
Lemma refresh_gives_a_working_access_token_witness :
  let tokens' :=
    (AuthServer.login ∅ (Some "testuser"%string) (Some "password123"%string)
       "a1b2" "c3d4" 1000 1001).2 in
  let r := AuthServer.refresh tokens' (Some "c3d4"%string) "e5f6" 5000 5001 in
  r.1 = Some {| AuthServer.code := 200;
                AuthServer.body := AuthServer.refresh_body "e5f6" 3600 |} /\
  AuthServer.authMiddleware r.2 (Some "Bearer e5f6"%string) 6000
  = (inr {| AuthServer.ru_id := 1;
            AuthServer.ru_username := Some "testuser"%string;
            AuthServer.ru_role := Some "user"%string |}, r.2) /\
  AuthServer.refresh tokens' (Some "c3d4"%string) "e5f6" 172800000 172800001
  = (Some {| AuthServer.code := 401;
             AuthServer.body := AuthServer.error_body "Refresh token expired" |},
     delete "c3d4"%string tokens').
Proof.
  cbv zeta.
  assert (Hne : "c3d4"%string <> EmptyString) by discriminate.
  destruct (refresh_gives_a_working_access_token ∅
              {| AuthServer.id := 1; AuthServer.username := "testuser";
                 AuthServer.password := "password123"; AuthServer.role := "user" |}
              "a1b2" "c3d4" 1000 1001 5000 5001 6000 "e5f6"
              (or_introl eq_refl) Hne eq_refl)
    as [Hfresh _].
  destruct (refresh_gives_a_working_access_token ∅
              {| AuthServer.id := 1; AuthServer.username := "testuser";
                 AuthServer.password := "password123"; AuthServer.role := "user" |}
              "a1b2" "c3d4" 1000 1001 172800000 172800001 6000 "e5f6"
              (or_introl eq_refl) Hne eq_refl)
    as [_ Hstale].
  destruct (Hfresh ltac:(vm_compute; discriminate) ltac:(vm_compute; discriminate))
    as [Hreply Hauth].
  split; [exact Hreply |]. split; [exact Hauth |].
  apply Hstale. reflexivity.
Defined.

(** X21 after a login of [testuser]: a logout with the access token
    removes it, and the token is then refused. *)
Lemma logout_invalidates_the_token_witness :
  let tokens :=
    (AuthServer.login ∅ (Some "testuser"%string) (Some "password123"%string)
       "a1b2" "c3d4" 1000 1001).2 in
  AuthServer.logout tokens (Some "Bearer a1b2"%string)
  = ({| AuthServer.code := 200;
        AuthServer.body := AuthServer.message_body "Logged out successfully" |},
     delete "a1b2"%string tokens) /\
  AuthServer.authMiddleware
    (AuthServer.logout tokens (Some "Bearer a1b2"%string)).2
    (Some "Bearer a1b2"%string) 5000
  = (inl {| AuthServer.code := 401;
            AuthServer.body := AuthServer.error_body "Invalid token" |},
     delete "a1b2"%string tokens).
Proof.
  cbv zeta.
  assert (Hne : "a1b2"%string <> EmptyString) by discriminate.
  destruct (logout_invalidates_the_token
              (AuthServer.login ∅ (Some "testuser"%string)
                 (Some "password123"%string) "a1b2" "c3d4" 1000 1001).2
              "Bearer" "a1b2" 5000 eq_refl eq_refl Hne)
    as (Hout & Hauth & _).
  split; [exact Hout | exact Hauth].
Defined.

(** X22 with the stub of the tests as the request: a first post with key
    order-1 goes through, a second with the same key is refused and
    makes no request. *)
Lemma idempotency_key_goes_through_once_witness :
  let axios_post := fun _ : string => Stub.simulateFailingAPI false 10 in
  let r := Idempotent.post Idempotent.new_IdempotentClient axios_post
             (Some "order-1"%string) "generated-1" (Stub.at_time 0) in
  Idempotent.answer r = Return "API response"%string /\
  Idempotent.post (Idempotent.client r) axios_post (Some "order-1"%string)
    "generated-2" (Stub.at_time 100)
  = Idempotent.mkPosted (Throw Idempotent.duplicate) (Idempotent.client r)
      (Stub.at_time 100).
Proof.
  cbv zeta.
  assert (Hne : "order-1"%string <> EmptyString) by discriminate.
  assert (Hfirst :
    Idempotent.answer
      (Idempotent.post Idempotent.new_IdempotentClient
         (fun _ : string => Stub.simulateFailingAPI false 10)
         (Some "order-1"%string) "generated-1" (Stub.at_time 0))
    = Return "API response"%string) by reflexivity.
  destruct (idempotency_key_goes_through_once Idempotent.new_IdempotentClient
              (fun _ : string => Stub.simulateFailingAPI false 10)
              "order-1" "generated-1" (Stub.at_time 0) Hne)
    as (Honce & _ & _).
  split; [exact Hfirst |].
  exact (Honce "API response"%string Hfirst
           (fun _ : string => Stub.simulateFailingAPI false 10)
           "generated-2"%string (Stub.at_time 100)).
Defined.

(** X23 on two requests for /stocks and one for /users, the first of
    which has settled: the request for /users is shared, and /stocks is
    asked for anew. *)
Lemma one_request_in_flight_per_key_witness :
  let evs :=
    [Dedup.Execute "GET" "/stocks" None; Dedup.Execute "GET" "/stocks" None;
     Dedup.Execute "GET" "/users" None; Dedup.Settle 0] in
  exists s,
    Dedup.run Dedup.start evs = Some s /\
    Dedup.inflight s = [("GET:/users:{}"%string, 1%nat)] /\
    Dedup.execute "GET" "/users" None s = (1%nat, s) /\
    (Dedup.execute "GET" "/stocks" None s).1 = 2%nat.
Proof.
  cbv zeta.
  destruct (Dedup.run Dedup.start
              [Dedup.Execute "GET" "/stocks" None; Dedup.Execute "GET" "/stocks" None;
               Dedup.Execute "GET" "/users" None; Dedup.Settle 0])
    as [s |] eqn:Hrun; [| vm_compute in Hrun; discriminate Hrun].
  exists s. split; [reflexivity |].
  assert (Hs : Dedup.inflight s = [("GET:/users:{}"%string, 1%nat)] /\
               Dedup.started s = 2%nat).
  { clear -Hrun. vm_compute in Hrun. injection Hrun as <-. split; reflexivity. }
  destruct Hs as [Hin Hstarted].
  destruct (one_request_in_flight_per_key _ s "GET" "/users" None Hrun)
    as (_ & Hshared & _).
  destruct (one_request_in_flight_per_key _ s "GET" "/stocks" None Hrun)
    as (_ & _ & Hfree).
  split; [exact Hin |].
  split; [apply Hshared; rewrite Hin; apply list_elem_of_here |].
  destruct Hfree as (Hnew & _); [| now rewrite Hnew].
  rewrite Hin. cbn [fmap list_fmap fst].
  apply not_elem_of_cons. split; [discriminate | apply not_elem_of_nil].
Defined.

(** X24 on a full first page and a second page of one row: both are
    read and the call returns their 101 rows. *)
Lemma fetchAllPages_reads_up_to_the_first_short_page_witness :
  let pages := fun p : Z =>
    if p =? 1 then Return (replicate 100 "row"%string) else Return ["last"%string] in
  Pagination.fetchAllPages pages 5
  = Some (Return (replicate 100 "row"%string ++ ["last"%string])).
Proof.
  cbv zeta.
  destruct (fetchAllPages_reads_up_to_the_first_short_page
              (fun p : Z =>
                 if p =? 1 then Return (replicate 100 "row"%string)
                 else Return ["last"%string])
              1 5) as (Hshort & _ & _).
  - lia.
  - intros [|j] Hj; [reflexivity | lia].
  - apply (Hshort ["last"%string]); [reflexivity | discriminate].
Defined.

(** X25 on five URLs in batches of two, the second request failing:
    five results in the order of the URLs and two pauses of 100 ms; with
    a batch size of 0 the call is still running after a thousand
    rounds. *)
Lemma batchProcess_gives_one_result_per_url_witness :
  let axios_get := fun (n : nat) (url : string) =>
    if (n =? 1)%nat then Throw (new_Error "Network Error") else Return url in
  let urls := ["/a"; "/b"; "/c"; "/d"; "/e"]%string in
  Batcher.batchProcess axios_get 6 (Batcher.new_RequestBatcher 2 100) urls
  = Some ([Batcher.success_true "/a"%string; Batcher.success_false "Network Error";
           Batcher.success_true "/c"%string; Batcher.success_true "/d"%string;
           Batcher.success_true "/e"%string],
          [100; 100]) /\
  Batcher.batchProcess axios_get 1000 (Batcher.new_RequestBatcher 0 100) urls = None.
Proof.
  cbv zeta. split.
  - destruct (batchProcess_gives_one_result_per_url
                (fun (n : nat) (url : string) =>
                   if (n =? 1)%nat then Throw (new_Error "Network Error")
                   else Return url)
                (Batcher.new_RequestBatcher 2 100)
                ["/a"; "/b"; "/c"; "/d"; "/e"]%string) as [Hends _].
    destruct (Hends eq_refl) as (k & Hrun & _ & Hk).
    assert (Hpauses : k = 2%nat).
    { specialize (Hk ltac:(discriminate)). cbn in Hk. lia. }
    subst k. exact Hrun.
  - destruct (batchProcess_gives_one_result_per_url
                (fun (n : nat) (url : string) =>
                   if (n =? 1)%nat then Throw (new_Error "Network Error")
                   else Return url)
                (Batcher.new_RequestBatcher 0 100)
                ["/a"; "/b"; "/c"; "/d"; "/e"]%string) as [_ Hstuck].
    exact (Hstuck eq_refl ltac:(discriminate) 1000%nat).
Defined.
